(** * fylang: the lexer, the typed AST and the lowering to LLVM IR

    A shallow embedding of the compiler core of fylang
    (src/src/utils.cpp, the AST of src/unnamed/part_001 and the values and
    casts of src/unnamed/part_002), and the properties of its
    specification checked against it.

    C++ [char] values are integers of [Z] in the range of a signed byte,
    [EOF] is [-1].  The process-wide variables of the lexer are the fields
    of one record, threaded through a state-and-error monad; [error(..)],
    which prints a diagnostic and exits, is the [Error] outcome. *)

From Stdlib Require Import ZArith List String Ascii Bool Lia.
Import ListNotations.
Local Open Scope string_scope.
Local Open Scope Z_scope.
Set Warnings "-register-all".

(** ** Outcomes and the state-and-error monad *)

Inductive result (A : Type) : Type :=
| OK (a : A)
| Error (msg : string).
Arguments OK {A} a.
Arguments Error {A} msg.

Definition M (S A : Type) : Type := S -> result (A * S).

Definition ret {S A : Type} (a : A) : M S A := fun s => OK (a, s).

Definition bind {S A B : Type} (m : M S A) (f : A -> M S B) : M S B :=
  fun s => match m s with
           | OK (a, s') => f a s'
           | Error msg => Error msg
           end.

(* utils.cpp:22 error(str): fprintf(stderr, ..); exit(1) *)
Definition error {S A : Type} (str : string) : M S A := fun _ => Error str.

Definition get {S : Type} : M S S := fun s => OK (s, s).
Definition put {S : Type} (s : S) : M S unit := fun _ => OK (tt, s).
Definition gets {S A : Type} (f : S -> A) : M S A := fun s => OK (f s, s).
Definition modify {S : Type} (f : S -> S) : M S unit := fun s => OK (tt, f s).

Declare Scope monad_scope.
Delimit Scope monad_scope with monad.
Notation "x <- m ;; k" := (bind m (fun x => k))
  (at level 61, m at next level, right associativity) : monad_scope.
Notation "m ;;; k" := (bind m (fun _ => k))
  (at level 61, right associativity) : monad_scope.
Notation "'when' c 'then' m ;;; k" :=
  (bind (if c then m else ret tt) (fun _ => k))
  (at level 61, c at next level, m at next level, right associativity)
  : monad_scope.
Local Open Scope monad_scope.

Definition is_ok {A : Type} (r : result A) : bool :=
  match r with OK _ => true | Error _ => false end.

(** ** Characters *)

Definition EOF : Z := -1.

(* the integer of a character literal 'c' *)
Definition ch (c : ascii) : Z := Z.of_N (N_of_ascii c).
Arguments ch c%_char.

(* conversion of an int to (signed) char *)
Definition to_char (z : Z) : Z := (z + 128) mod 256 - 128.

(* the byte a char stands for *)
Definition byte_of (c : Z) : Z := c mod 256.

Fixpoint chars (s : string) : list Z :=
  match s with
  | EmptyString => []
  | String c s' => to_char (ch c) :: chars s'
  end.

(* <ctype.h>, "C" locale; false on EOF *)
Definition isspace (c : Z) : bool := (c =? 32) || ((9 <=? c) && (c <=? 13)).
Definition isdigit (c : Z) : bool := (48 <=? c) && (c <=? 57).
Definition isalpha (c : Z) : bool :=
  ((65 <=? c) && (c <=? 90)) || ((97 <=? c) && (c <=? 122)).
Definition isxdigit (c : Z) : bool :=
  isdigit c || ((65 <=? c) && (c <=? 70)) || ((97 <=? c) && (c <=? 102)).

(** ** The lexer (src/src/utils.cpp, second part) *)

Module Lexer.

(** Modelled from the spec: the enum Token of lexer.h is not in the
    sources; "multi-character operators have named kinds (EQEQ, LEQ, GEQ,
    NEQ, PLUSEQ, ..., LSHIFT, RSHIFT, LAND, LOR, DOUBLE_COLON)", and
    token_to_str shows that the named kinds are the negative values while a
    character stands for itself.  The numbering is of no consequence. *)
Definition T_EOF : Z := -1.
Definition T_IDENTIFIER : Z := -2.
Definition T_NUMBER : Z := -3.
Definition T_STRING : Z := -4.
Definition T_CHAR : Z := -5.
Definition T_EQEQ : Z := -6.
Definition T_LEQ : Z := -7.
Definition T_GEQ : Z := -8.
Definition T_NEQ : Z := -9.
Definition T_PLUSEQ : Z := -10.
Definition T_MINEQ : Z := -11.
Definition T_STAREQ : Z := -12.
Definition T_SLASHEQ : Z := -13.
Definition T_PERCENTEQ : Z := -14.
Definition T_ANDEQ : Z := -15.
Definition T_OREQ : Z := -16.
Definition T_LOR : Z := -17.
Definition T_LAND : Z := -18.
Definition T_LSHIFT : Z := -19.
Definition T_RSHIFT : Z := -20.
Definition T_DOUBLE_COLON : Z := -21.

(** Modelled from the spec: the enum StringType of lexer.h, "a flavor in
    {C_STRING, CHAR_ARRAY, PTR_CHAR_ARRAY}". *)
Inductive StringType : Type := C_STRING | CHAR_ARRAY | PTR_CHAR_ARRAY.

(* The globals of the lexer, and the characters next_char() has yet to
   deliver. *)
Record lexer : Type := mk_lexer {
  source : list Z;
  last_char : Z;
  identifier_string : list Z;
  char_value : Z;
  num_value : list Z;
  num_base : Z;
  num_has_dot : bool;
  num_type : Z;
  string_value : list Z;
  string_type : StringType
}.

Definition set_source (v : list Z) (l : lexer) : lexer :=
  mk_lexer v (last_char l) (identifier_string l) (char_value l) (num_value l)
           (num_base l) (num_has_dot l) (num_type l) (string_value l)
           (string_type l).
Definition set_last_char (v : Z) (l : lexer) : lexer :=
  mk_lexer (source l) v (identifier_string l) (char_value l) (num_value l)
           (num_base l) (num_has_dot l) (num_type l) (string_value l)
           (string_type l).
Definition set_identifier_string (v : list Z) (l : lexer) : lexer :=
  mk_lexer (source l) (last_char l) v (char_value l) (num_value l)
           (num_base l) (num_has_dot l) (num_type l) (string_value l)
           (string_type l).
Definition set_char_value (v : Z) (l : lexer) : lexer :=
  mk_lexer (source l) (last_char l) (identifier_string l) v (num_value l)
           (num_base l) (num_has_dot l) (num_type l) (string_value l)
           (string_type l).
Definition set_num_value (v : list Z) (l : lexer) : lexer :=
  mk_lexer (source l) (last_char l) (identifier_string l) (char_value l) v
           (num_base l) (num_has_dot l) (num_type l) (string_value l)
           (string_type l).
Definition set_num_base (v : Z) (l : lexer) : lexer :=
  mk_lexer (source l) (last_char l) (identifier_string l) (char_value l)
           (num_value l) v (num_has_dot l) (num_type l) (string_value l)
           (string_type l).
Definition set_num_has_dot (v : bool) (l : lexer) : lexer :=
  mk_lexer (source l) (last_char l) (identifier_string l) (char_value l)
           (num_value l) (num_base l) v (num_type l) (string_value l)
           (string_type l).
Definition set_num_type (v : Z) (l : lexer) : lexer :=
  mk_lexer (source l) (last_char l) (identifier_string l) (char_value l)
           (num_value l) (num_base l) (num_has_dot l) v (string_value l)
           (string_type l).
Definition set_string_value (v : list Z) (l : lexer) : lexer :=
  mk_lexer (source l) (last_char l) (identifier_string l) (char_value l)
           (num_value l) (num_base l) (num_has_dot l) (num_type l) v
           (string_type l).
Definition set_string_type (v : StringType) (l : lexer) : lexer :=
  mk_lexer (source l) (last_char l) (identifier_string l) (char_value l)
           (num_value l) (num_base l) (num_has_dot l) (num_type l)
           (string_value l) v.

(* utils.cpp:51 `char last_char = ' ';` and zero-initialised globals *)
Definition start (src : list Z) : lexer :=
  mk_lexer src (ch " ") [] 0 [] 0 false 0 [] C_STRING.

(** Modelled from the spec: next_char() is declared in lexer.h, absent from
    the sources; it is "an implicit character source": it delivers the
    characters of the input one after the other, and EOF from its end on. *)
Definition next_char : M lexer Z :=
  fun l => match source l with
           | [] => OK (EOF, l)
           | c :: rest => OK (c, set_source rest l)
           end.

(* last_char = next_char() *)
Definition advance : M lexer Z :=
  c <- next_char ;; modify (set_last_char c) ;;; ret c.

(* utils.cpp:73 *)
Definition is_alphaish (c : Z) : bool := isalpha c || isdigit c || (c =? ch "_").

(* utils.cpp:52 read_str(predicate): the while loop; it stops at the first
   character the predicate refuses.  One round per character read, so the
   characters left in the source (and one more for EOF) are fuel enough
   for a predicate that refuses EOF. *)
Fixpoint read_str_loop (fuel : nat) (predicate : Z -> bool) (stream : list Z)
  : M lexer (list Z) :=
  match fuel with
  | O => error "read_str: the predicate accepts EOF"
  | S fuel' =>
      c <- advance ;;
      if predicate c then read_str_loop fuel' predicate (stream ++ [c])
      else ret stream
  end.

Definition read_str (predicate : Z -> bool) : M lexer (list Z) :=
  l <- get ;;
  read_str_loop (S (List.length (source l))) predicate [last_char l].

(* utils.cpp:74 *)
Definition xtoi (c : Z) : Z :=
  if c <=? ch "9" then c - ch "0"
  else if c <=? ch "F" then c - ch "A"
  else c - ch "a".

(* utils.cpp:77 *)
Definition get_escape (escape_char : Z) : M lexer Z :=
  if escape_char =? ch "n" then ret 10
  else if escape_char =? ch "r" then ret 13
  else if escape_char =? ch "t" then ret 9
  else if escape_char =? ch "'" then ret (ch "'")
  else if escape_char =? 34 then ret 34
  else if escape_char =? ch "\" then ret (ch "\")
  else if escape_char =? ch "0" then ret 0
  else if escape_char =? ch "x" then
    first <- next_char ;;
    second <- next_char ;;
    when (negb (isxdigit first) || negb (isxdigit second))
      then error "Expected two hex digits after \x" ;;;
    ret (to_char (Z.shiftl (xtoi first) 4 + xtoi second))
  else error "Invalid escape".

Section NextToken.

(* The keyword table of lexer.h, absent from the sources: the kind of a
   keyword, 0 for any other name (`if (Token keyword = keywords[..])`). *)
Variable keywords : list Z -> Z.

(* utils.cpp:138-141: the character does not continue the digit run *)
Definition not_digit_of (base c : Z) : bool :=
  if base =? 16 then negb (isxdigit c)
  else if base =? 10 then negb (isdigit c || (c =? ch "."))
  else if base =? 8 then (c <? ch "0") || (c >? ch "7")
  else (c <? ch "0") || (c >? ch "1").

(* utils.cpp:137-151, the loop at num_while.  Every round that goes on
   reads a character, and EOF ends the run. *)
Fixpoint num_while (fuel : nat) (stream : list Z) : M lexer (list Z) :=
  match fuel with
  | O => error "num_while: out of fuel"
  | S fuel' =>
      l <- get ;;
      if not_digit_of (num_base l) (last_char l) then ret stream
      else if (last_char l =? ch ".") && num_has_dot l then ret stream
      else
        when (last_char l =? ch ".") then modify (set_num_has_dot true) ;;;
        advance ;;;
        num_while fuel' (stream ++ [last_char l])
  end.

Definition is_num_suffix (c : Z) : bool :=
  (c =? ch "d") || (c =? ch "l") || (c =? ch "f") ||
  (c =? ch "i") || (c =? ch "u") || (c =? ch "b").

(* utils.cpp:119-135: the first digit and the base prefix *)
Definition lex_num_prefix : M lexer (list Z) :=
  modify (set_num_has_dot false) ;;;
  l <- get ;;
  let started_with_zero := last_char l =? ch "0" in
  let stream := [last_char l] in
  c <- advance ;;
  modify (set_num_base 10) ;;;
  (if started_with_zero then
     if c =? ch "x" then modify (set_num_base 16) ;;; advance ;;; ret tt
     else if c =? ch "b" then modify (set_num_base 2) ;;; advance ;;; ret tt
     else if c =? ch "o" then modify (set_num_base 8) ;;; advance ;;; ret tt
     else ret tt
   else ret tt) ;;;
  ret stream.

(* utils.cpp:152-165: the suffix, or the default num_type *)
Definition lex_num_suffix : M lexer Z :=
  l <- get ;;
  (if is_num_suffix (last_char l) then
     modify (set_num_type (last_char l)) ;;; advance ;;; ret tt
   else if num_has_dot l then modify (set_num_type (ch "d"))
   else modify (set_num_type (ch "i"))) ;;;
  ret T_NUMBER.

(* utils.cpp:119-151: the digit run, prefix included *)
Definition digit_run : M lexer (list Z) :=
  stream <- lex_num_prefix ;;
  l <- get ;;
  num_while (S (S (List.length (source l)))) stream.

(* utils.cpp:117-165 *)
Definition lex_number : M lexer Z :=
  stream <- digit_run ;;
  modify (set_num_value stream) ;;;
  lex_num_suffix.

(* utils.cpp:169-176 *)
Fixpoint string_while (fuel : nat) (stream : list Z) : M lexer (list Z) :=
  match fuel with
  | O => error "string_while: out of fuel"
  | S fuel' =>
      c <- advance ;;
      if c =? 34 then ret stream
      else
        when (c =? EOF) then error "Unexpected EOF in string" ;;;
        if c =? ch "\" then
          e <- next_char ;;
          b <- get_escape e ;;
          string_while fuel' (stream ++ [b])
        else string_while fuel' (stream ++ [c])
  end.

(* utils.cpp:166-187 *)
Definition lex_string : M lexer Z :=
  l <- get ;;
  stream <- string_while (S (List.length (source l))) [] ;;
  modify (set_string_value stream) ;;;
  c <- advance ;;
  (if c =? ch "c" then modify (set_string_type C_STRING) ;;; advance ;;; ret tt
   else if c =? ch "p" then
     modify (set_string_type PTR_CHAR_ARRAY) ;;; advance ;;; ret tt
   else modify (set_string_type CHAR_ARRAY)) ;;;
  ret T_STRING.

(* utils.cpp:188-201 *)
Definition lex_char : M lexer Z :=
  c <- advance ;;
  when ((c =? EOF) || (c =? 10) || (c =? 13)) then error "Unterminated char" ;;;
  (if c =? ch "\" then
     e <- next_char ;; b <- get_escape e ;; modify (set_char_value b)
   else modify (set_char_value c)) ;;;
  q <- next_char ;;
  when (negb (q =? ch "'")) then error "char with length above 1" ;;;
  advance ;;;
  ret T_CHAR.

(* utils.cpp:210-223, the switch on curr_char when '=' follows *)
Definition eq_token (curr_char : Z) : option Z :=
  if curr_char =? ch "=" then Some T_EQEQ
  else if curr_char =? ch "<" then Some T_LEQ
  else if curr_char =? ch ">" then Some T_GEQ
  else if curr_char =? ch "!" then Some T_NEQ
  else if curr_char =? ch "+" then Some T_PLUSEQ
  else if curr_char =? ch "-" then Some T_MINEQ
  else if curr_char =? ch "*" then Some T_STAREQ
  else if curr_char =? ch "/" then Some T_SLASHEQ
  else if curr_char =? ch "%" then Some T_PERCENTEQ
  else if curr_char =? ch "&" then Some T_ANDEQ
  else if curr_char =? ch "|" then Some T_OREQ
  else None.

(* utils.cpp:224-232, the switch on curr_char when it is doubled *)
Definition double_token (curr_char : Z) : option Z :=
  if curr_char =? ch "=" then Some T_EQEQ
  else if curr_char =? ch "|" then Some T_LOR
  else if curr_char =? ch "&" then Some T_LAND
  else if curr_char =? ch "<" then Some T_LSHIFT
  else if curr_char =? ch ">" then Some T_RSHIFT
  else if curr_char =? ch ":" then Some T_DOUBLE_COLON
  else None.

(* utils.cpp:237-239 *)
Fixpoint line_comment (fuel : nat) : M lexer unit :=
  match fuel with
  | O => error "line_comment: out of fuel"
  | S fuel' =>
      c <- advance ;;
      if negb (c =? EOF) && negb (c =? 10) && negb (c =? 13)
      then line_comment fuel' else ret tt
  end.

(* utils.cpp:245-248 *)
Fixpoint block_comment (fuel : nat) : M lexer unit :=
  match fuel with
  | O => error "block_comment: out of fuel"
  | S fuel' =>
      l <- get ;;
      let last := last_char l in
      c <- advance ;;
      if negb (c =? EOF) && negb ((last =? ch "*") && (c =? ch "/"))
      then block_comment fuel' else ret tt
  end.

(* utils.cpp:108-109 *)
Fixpoint skip_space (fuel : nat) : M lexer unit :=
  match fuel with
  | O => error "skip_space: out of fuel"
  | S fuel' =>
      l <- get ;;
      if isspace (last_char l) then advance ;;; skip_space fuel' else ret tt
  end.

(* utils.cpp:107 next_token().  The function calls itself after a comment;
   [fuel] bounds these calls, one per comment skipped. *)
Fixpoint next_token_fuel (fuel : nat) : M lexer Z :=
  match fuel with
  | O => error "next_token: out of fuel"
  | S fuel' =>
      l <- get ;;
      skip_space (S (S (List.length (source l)))) ;;;
      l <- get ;;
      if last_char l =? EOF then ret T_EOF
      else if isalpha (last_char l) || (last_char l =? ch "_") then
        name <- read_str is_alphaish ;;
        modify (set_identifier_string name) ;;;
        if negb (keywords name =? 0) then ret (keywords name)
        else ret T_IDENTIFIER
      else if isdigit (last_char l) then lex_number
      else if last_char l =? 34 then lex_string
      else if last_char l =? ch "'" then lex_char
      else
        let curr_char := last_char l in
        c <- advance ;;
        match (if c =? ch "=" then eq_token curr_char else None) with
        | Some token => advance ;;; ret token
        | None =>
        match (if curr_char =? c then double_token curr_char else None) with
        | Some token => advance ;;; ret token
        | None =>
          if curr_char =? ch "/" then
            if c =? ch "/" then
              l <- get ;;
              line_comment (S (List.length (source l))) ;;;
              next_token_fuel fuel'
            else if c =? ch "*" then
              l <- get ;;
              block_comment (S (List.length (source l))) ;;;
              advance ;;;
              next_token_fuel fuel'
            else ret curr_char
          else ret curr_char
        end
        end
  end.

Definition next_token : M lexer Z :=
  fun l => next_token_fuel (S (List.length (source l))) l.

(* the first n tokens of a source, with the payload of each *)
Fixpoint tokens (n : nat) (l : lexer) : list (result (Z * lexer)) :=
  match n with
  | O => []
  | S n' => match next_token l with
            | OK (t, l') => OK (t, l') :: tokens n' l'
            | Error msg => [Error msg]
            end
  end.

End NextToken.

(* the payload of a T_NUMBER token *)
Definition number_payload (l : lexer) : list Z * Z * bool * Z :=
  (num_value l, num_base l, num_has_dot l, num_type l).

End Lexer.

(** ** Types (the Type classes of types.cpp, as the AST and the casts use
    them) *)

(** Modelled from the spec: the classes of types.cpp are not in the sources;
    a type is "a tagged variant": Number(bits, is_floating, is_signed),
    Pointer(points_to), Tuple(element_types), Array(elem, count),
    Struct(name, fields), Function(return_type, params, vararg) and Null.
    The sources name them NumType, PointerType, TupleType, ArrayType,
    StructType and FunctionType, and the tags TypeType::Number and so on. *)
Inductive TypeType : Type :=
| TT_Number | TT_Pointer | TT_Tuple | TT_Array | TT_Struct | TT_Function
| TT_Null.

Inductive Typ : Type :=
| NumType (bits : Z) (is_floating is_signed : bool)
| PointerType (points_to : Typ)
| TupleType (types : list Typ)
| ArrayType (elem : Typ) (count : Z)
| StructType (name : string) (fields : list (string * Typ))
| FunctionType (return_type : Typ) (arguments : list Typ) (vararg : bool)
| NullType.

Definition type_type (t : Typ) : TypeType :=
  match t with
  | NumType _ _ _ => TT_Number
  | PointerType _ => TT_Pointer
  | TupleType _ => TT_Tuple
  | ArrayType _ _ => TT_Array
  | StructType _ _ => TT_Struct
  | FunctionType _ _ _ => TT_Function
  | NullType => TT_Null
  end.

Module Types.

(** Modelled from the spec: Type::eq of types.cpp, which is not in the
    sources: "structural deep equality", which "ignores Struct.name"; two
    numeric types are unequal "if any of (bits, is_floating, is_signed)
    differ". *)
Fixpoint eq (a b : Typ) {struct a} : bool :=
  match a, b with
  | NumType ba fa sa, NumType bb fb sb =>
      (ba =? bb) && Bool.eqb fa fb && Bool.eqb sa sb
  | PointerType pa, PointerType pb => eq pa pb
  | TupleType ta, TupleType tb =>
      (fix eq_all (l : list Typ) (r : list Typ) {struct l} : bool :=
         match l, r with
         | [], [] => true
         | x :: l', y :: r' => eq x y && eq_all l' r'
         | _, _ => false
         end) ta tb
  | ArrayType ea ca, ArrayType eb cb => eq ea eb && (ca =? cb)
  | StructType _ fa, StructType _ fb =>
      (fix eq_fields (l : list (string * Typ)) (r : list (string * Typ))
           {struct l} : bool :=
         match l, r with
         | [], [] => true
         | (n, x) :: l', (m, y) :: r' =>
             String.eqb n m && eq x y && eq_fields l' r'
         | _, _ => false
         end) fa fb
  | FunctionType ra aa va, FunctionType rb ab vb =>
      eq ra rb &&
      (fix eq_all (l : list Typ) (r : list Typ) {struct l} : bool :=
         match l, r with
         | [], [] => true
         | x :: l', y :: r' => eq x y && eq_all l' r'
         | _, _ => false
         end) aa ab &&
      Bool.eqb va vb
  | NullType, NullType => true
  | _, _ => false
  end.

Definition neq (a b : Typ) : bool := negb (eq a b).

End Types.

(** ** The LLVM side: types, values, instructions and the builder *)

Inductive LLVMTypeRef : Type :=
| LLVMIntType (bits : Z)
| LLVMFPType (bits : Z)            (* half, float, double, fp128 by width *)
| LLVMPointerType (elem : LLVMTypeRef)
| LLVMArrayType (elem : LLVMTypeRef) (count : Z)
| LLVMStructType (elems : list LLVMTypeRef)
| LLVMFunctionType (ret : LLVMTypeRef) (params : list LLVMTypeRef)
                   (vararg : bool)
| LLVMVoidType.

Definition float_64_type : LLVMTypeRef := LLVMFPType 64.
Definition int_8_type : LLVMTypeRef := LLVMIntType 8.
Definition LLVMInt32Type : LLVMTypeRef := LLVMIntType 32.

(** Modelled from the spec: Type::llvm_type of types.cpp, which is not in
    the sources: the "deterministic backend mapping" of a type, an integer
    of N bits or a floating type of its width for a number. *)
Fixpoint llvm_type (t : Typ) : LLVMTypeRef :=
  match t with
  | NumType bits true _ => LLVMFPType bits
  | NumType bits false _ => LLVMIntType bits
  | PointerType p => LLVMPointerType (llvm_type p)
  | TupleType ts => LLVMStructType (map llvm_type ts)
  | ArrayType e n => LLVMArrayType (llvm_type e) n
  | StructType _ fs => LLVMStructType (map (fun f => llvm_type (snd f)) fs)
  | FunctionType r args v =>
      LLVMFunctionType (llvm_type r) (map llvm_type args) v
  | NullType => LLVMVoidType
  end.

Definition LLVMBasicBlockRef : Type := nat.

Inductive LLVMValueRef : Type :=
| LLVMConstInt (ty : LLVMTypeRef) (n : Z) (sign_extend : bool)
| LLVMConstReal (ty : LLVMTypeRef) (n : Z)      (* n.0 *)
| LLVMConstIntOfStringAndSize (ty : LLVMTypeRef) (text : string) (radix : Z)
| LLVMConstRealOfStringAndSize (ty : LLVMTypeRef) (text : string)
| LLVMConstAllOnes (ty : LLVMTypeRef)
| LLVMConstNull (ty : LLVMTypeRef)
| LLVMGetUndef (ty : LLVMTypeRef)
| LLVMConstString (str : list Z) (dont_null_terminate : bool)
| LLVMConstGEP2 (ty : LLVMTypeRef) (ptr : LLVMValueRef)
                (indices : list LLVMValueRef)
| GlobalVar (name : string) (nth : nat)
| FunctionVal (name : string)
| Instr (id : nat).                (* what the id-th built instruction yields *)

Inductive LLVMRealPredicate : Type :=
| LLVMRealONE | LLVMRealUNE | LLVMRealULT | LLVMRealUGT | LLVMRealULE
| LLVMRealUGE | LLVMRealUEQ.

Inductive LLVMIntPredicate : Type :=
| LLVMIntEQ | LLVMIntNE | LLVMIntSLT | LLVMIntULT | LLVMIntSGT | LLVMIntUGT
| LLVMIntSLE | LLVMIntULE | LLVMIntSGE | LLVMIntUGE.

Inductive LLVMOpcode : Type :=
| LLVMFPToSI | LLVMFPToUI | LLVMSIToFP | LLVMUIToFP.

(* One constructor per LLVMBuild.. function the compiler calls. *)
Inductive Instruction : Type :=
| LLVMBuildLoad2 (ty : LLVMTypeRef) (ptr : LLVMValueRef)
| LLVMBuildStore (val ptr : LLVMValueRef)
| LLVMBuildAlloca (ty : LLVMTypeRef) (name : string)
| LLVMBuildGEP2 (ty : LLVMTypeRef) (ptr : LLVMValueRef)
                (indices : list LLVMValueRef) (name : string)
| LLVMBuildFAdd (L R : LLVMValueRef)
| LLVMBuildFSub (L R : LLVMValueRef)
| LLVMBuildFMul (L R : LLVMValueRef)
| LLVMBuildFDiv (L R : LLVMValueRef)
| LLVMBuildFRem (L R : LLVMValueRef)
| LLVMBuildAdd (L R : LLVMValueRef)
| LLVMBuildSub (L R : LLVMValueRef)
| LLVMBuildMul (L R : LLVMValueRef)
| LLVMBuildSDiv (L R : LLVMValueRef)
| LLVMBuildUDiv (L R : LLVMValueRef)
| LLVMBuildSRem (L R : LLVMValueRef)
| LLVMBuildURem (L R : LLVMValueRef)
| LLVMBuildAnd (L R : LLVMValueRef)
| LLVMBuildOr (L R : LLVMValueRef)
| LLVMBuildFCmp (op : LLVMRealPredicate) (L R : LLVMValueRef)
| LLVMBuildICmp (op : LLVMIntPredicate) (L R : LLVMValueRef)
| LLVMBuildCast (op : LLVMOpcode) (val : LLVMValueRef) (ty : LLVMTypeRef)
| LLVMBuildFPCast (val : LLVMValueRef) (ty : LLVMTypeRef)
| LLVMBuildIntCast2 (val : LLVMValueRef) (ty : LLVMTypeRef)
                    (is_signed : bool)
| LLVMBuildIntToPtr (val : LLVMValueRef) (ty : LLVMTypeRef)
| LLVMBuildPtrToInt (val : LLVMValueRef) (ty : LLVMTypeRef)
| LLVMBuildPointerCast (val : LLVMValueRef) (ty : LLVMTypeRef)
| LLVMBuildBitCast (val : LLVMValueRef) (ty : LLVMTypeRef)
| LLVMBuildInsertValue (agg elt : LLVMValueRef) (index : nat)
| LLVMBuildExtractValue (agg : LLVMValueRef) (index : nat)
| LLVMBuildCall2 (ty : LLVMTypeRef) (fn : LLVMValueRef)
                 (args : list LLVMValueRef)
| LLVMBuildPhi (ty : LLVMTypeRef)
               (incoming : list (LLVMValueRef * LLVMBasicBlockRef))
| LLVMBuildBr (dest : LLVMBasicBlockRef)
| LLVMBuildCondBr (cond : LLVMValueRef) (then_ else_ : LLVMBasicBlockRef)
| LLVMBuildRet (val : LLVMValueRef).

Record BasicBlock : Type := mk_block {
  bb_name : string;
  bb_parent : option LLVMValueRef;       (* the function it is appended to *)
  bb_instrs : list (nat * Instruction)   (* in order, each with its id *)
}.

(** ** Values (src/unnamed/part_002) *)

Inductive Value : Type :=
| ConstValue (type : Typ) (val : LLVMValueRef)
| ConstValueWithPtr (type : Typ) (ptr val : LLVMValueRef)
| IntValue (bits : Z) (is_floating is_signed : bool) (val : Z)
| FuncValue (type : Typ) (func : LLVMValueRef)
| BasicLoadValue (type : Typ) (variable : LLVMValueRef)
| CastValue (source : Value) (to : Typ)
| NamedValue (val : Value) (name : string)
(* the null pointer, a Value* that points to no value: what
   curr_named_variables[name] holds for a name that was given none.  A
   method called through it ends the run: gen_val, gen_ptr and the cast
   fail on it. *)
| NullValue.

(** ** The state of a compilation: the module and the builder of LLVM, and
    the three tables of part_001:7-9 *)

Record compiler : Type := mk_compiler {
  blocks : list BasicBlock;               (* LLVMBasicBlockRef n: the n-th *)
  insert_point : option (LLVMBasicBlockRef * option nat);
                                          (* at the end, or before an id *)
  next_id : nat;
  globals : list (string * LLVMTypeRef * option LLVMValueRef);
  value_names : list (LLVMValueRef * string);
  pointer_bits : Z;                       (* of the target *)
  curr_named_variables : list (string * Value);
  curr_named_var_types : list (string * Typ);
  curr_named_types : list (string * Typ)
}.

Definition set_blocks v (c : compiler) : compiler :=
  mk_compiler v (insert_point c) (next_id c) (globals c) (value_names c)
    (pointer_bits c) (curr_named_variables c) (curr_named_var_types c)
    (curr_named_types c).
Definition set_insert_point v (c : compiler) : compiler :=
  mk_compiler (blocks c) v (next_id c) (globals c) (value_names c)
    (pointer_bits c) (curr_named_variables c) (curr_named_var_types c)
    (curr_named_types c).
Definition set_next_id v (c : compiler) : compiler :=
  mk_compiler (blocks c) (insert_point c) v (globals c) (value_names c)
    (pointer_bits c) (curr_named_variables c) (curr_named_var_types c)
    (curr_named_types c).
Definition set_globals v (c : compiler) : compiler :=
  mk_compiler (blocks c) (insert_point c) (next_id c) v (value_names c)
    (pointer_bits c) (curr_named_variables c) (curr_named_var_types c)
    (curr_named_types c).
Definition set_value_names v (c : compiler) : compiler :=
  mk_compiler (blocks c) (insert_point c) (next_id c) (globals c) v
    (pointer_bits c) (curr_named_variables c) (curr_named_var_types c)
    (curr_named_types c).
Definition set_curr_named_variables v (c : compiler) : compiler :=
  mk_compiler (blocks c) (insert_point c) (next_id c) (globals c)
    (value_names c) (pointer_bits c) v (curr_named_var_types c)
    (curr_named_types c).
Definition set_curr_named_var_types v (c : compiler) : compiler :=
  mk_compiler (blocks c) (insert_point c) (next_id c) (globals c)
    (value_names c) (pointer_bits c) (curr_named_variables c) v
    (curr_named_types c).

(* std::map<std::string, T>: the last binding of a key is the one found *)
Fixpoint lookup {T : Type} (key : string) (m : list (string * T)) : option T :=
  match m with
  | [] => None
  | (k, v) :: m' => if String.eqb key k then Some v else lookup key m'
  end.
Definition insert {T : Type} (key : string) (v : T) (m : list (string * T))
  : list (string * T) := (key, v) :: m.

(** *** The LLVM-C calls the compiler makes *)

Fixpoint update_nth {T : Type} (n : nat) (f : T -> T) (l : list T) : list T :=
  match l, n with
  | [], _ => []
  | x :: l', O => f x :: l'
  | x :: l', S n' => x :: update_nth n' f l'
  end.

Fixpoint insert_before (k : nat) (new : nat * Instruction)
  (l : list (nat * Instruction)) : list (nat * Instruction) :=
  match l with
  | [] => [new]
  | (id, i) :: l' =>
      if Nat.eqb id k then new :: (id, i) :: l'
      else (id, i) :: insert_before k new l'
  end.

Definition place (at_ : option (LLVMBasicBlockRef * option nat))
  (new : nat * Instruction) (bs : list BasicBlock) : list BasicBlock :=
  match at_ with
  | None => bs                     (* built, and put in no block *)
  | Some (bb, None) =>
      update_nth bb (fun b => mk_block (bb_name b) (bb_parent b)
                                       (bb_instrs b ++ [new])) bs
  | Some (bb, Some k) =>
      update_nth bb (fun b => mk_block (bb_name b) (bb_parent b)
                                       (insert_before k new (bb_instrs b))) bs
  end.

(* LLVMBuild..(curr_builder, ..): the instruction gets the next id and goes
   where the builder stands *)
Definition build (i : Instruction) : M compiler LLVMValueRef :=
  c <- get ;;
  let id := next_id c in
  put (set_next_id (S id)
         (set_blocks (place (insert_point c) (id, i) (blocks c)) c)) ;;;
  ret (Instr id).

Definition LLVMGetInsertBlock : M compiler LLVMBasicBlockRef :=
  c <- get ;;
  match insert_point c with
  | Some (bb, _) => ret bb
  | None => error "the builder has no insertion block"
  end.

Definition LLVMPositionBuilderAtEnd (bb : LLVMBasicBlockRef) : M compiler unit :=
  modify (set_insert_point (Some (bb, None))).

Definition LLVMGetLastInstruction (bb : LLVMBasicBlockRef)
  : M compiler (LLVMBasicBlockRef * nat) :=
  c <- get ;;
  match nth_error (blocks c) bb with
  | Some b => match rev (bb_instrs b) with
              | (id, _) :: _ => ret (bb, id)
              | [] => error "the block has no instruction"
              end
  | None => error "no such block"
  end.

Definition LLVMPositionBuilderBefore (instr : LLVMBasicBlockRef * nat)
  : M compiler unit :=
  modify (set_insert_point (Some (fst instr, Some (snd instr)))).

Definition LLVMGetBasicBlockParent (bb : LLVMBasicBlockRef)
  : M compiler LLVMValueRef :=
  c <- get ;;
  match nth_error (blocks c) bb with
  | Some b => match bb_parent b with
              | Some f => ret f
              | None => error "the block is in no function"
              end
  | None => error "no such block"
  end.

Definition LLVMCreateBasicBlockInContext (name : string)
  : M compiler LLVMBasicBlockRef :=
  c <- get ;;
  put (set_blocks (blocks c ++ [mk_block name None []]) c) ;;;
  ret (List.length (blocks c)).

Definition LLVMAppendExistingBasicBlock (func : LLVMValueRef)
  (bb : LLVMBasicBlockRef) : M compiler unit :=
  c <- get ;;
  put (set_blocks
         (update_nth bb (fun b => mk_block (bb_name b) (Some func) (bb_instrs b))
                     (blocks c)) c).

Definition LLVMAppendBasicBlockInContext (func : LLVMValueRef) (name : string)
  : M compiler LLVMBasicBlockRef :=
  bb <- LLVMCreateBasicBlockInContext name ;;
  LLVMAppendExistingBasicBlock func bb ;;;
  ret bb.

(* only on a phi built before, as gen_phi does *)
Definition LLVMAddIncoming (phi : LLVMValueRef)
  (incoming : list (LLVMValueRef * LLVMBasicBlockRef)) : M compiler unit :=
  match phi with
  | Instr id =>
      modify (fun c => set_blocks
        (map (fun b => mk_block (bb_name b) (bb_parent b)
           (map (fun ii => match ii with
                           | (k, LLVMBuildPhi ty inc) =>
                               if Nat.eqb k id
                               then (k, LLVMBuildPhi ty (inc ++ incoming))
                               else ii
                           | _ => ii
                           end) (bb_instrs b))) (blocks c)) c)
  | _ => error "not a phi"
  end.

Definition LLVMSetValueName2 (v : LLVMValueRef) (name : string) : M compiler unit :=
  modify (fun c => set_value_names ((v, name) :: value_names c) c).

Definition LLVMAddGlobal (ty : LLVMTypeRef) (name : string)
  : M compiler LLVMValueRef :=
  c <- get ;;
  put (set_globals (globals c ++ [(name, ty, None)]) c) ;;;
  ret (GlobalVar name (List.length (globals c))).

Definition LLVMSetInitializer (glob init : LLVMValueRef) : M compiler unit :=
  match glob with
  | GlobalVar _ n =>
      modify (fun c => set_globals
        (update_nth n (fun g => (fst g, Some init)) (globals c)) c)
  | _ => error "not a global"
  end.

(** *** The methods of Value *)

Module Values.

Fixpoint get_type (v : Value) : Typ :=
  match v with
  | ConstValue type _ => type
  | ConstValueWithPtr type _ _ => type
  | IntValue bits is_floating is_signed _ => NumType bits is_floating is_signed
  | FuncValue type _ => type
  | BasicLoadValue type _ => type
  | CastValue _ to => to
  | NamedValue val _ => get_type val
  | NullValue => NullType     (* by convention: see cast_from *)
  end.

Fixpoint has_ptr (v : Value) : bool :=
  match v with
  | ConstValue _ _ => false
  | ConstValueWithPtr _ _ _ => true
  | IntValue _ _ _ _ => false
  | FuncValue _ _ => true
  | BasicLoadValue _ _ => true
  | CastValue _ _ => false
  | NamedValue val _ => has_ptr val
  | NullValue => false
  end.

Fixpoint gen_ptr (v : Value) : M compiler LLVMValueRef :=
  match v with
  | ConstValue _ _ => error "Const values can't be pointered"
  | ConstValueWithPtr _ ptr _ => ret ptr
  | IntValue _ _ _ _ => error "Int values can't be pointered"
  | FuncValue _ func => ret func
  | BasicLoadValue _ variable => ret variable
  | CastValue _ _ => error "Can't get the pointer to a cast"
  | NamedValue val name =>
      value <- gen_ptr val ;;
      LLVMSetValueName2 value name ;;;
      ret value
  | NullValue => error "null Value"
  end.

(* part_002:209 *)
Definition cast_to (v : Value) (to : Typ) : Value := CastValue v to.

(** *** The cast engine (part_002:97-197) *)

(* part_002:97; a is the NumType (a_bits, a_is_floating, a_is_signed) *)
Definition gen_num_cast (value : LLVMValueRef)
  (a_bits : Z) (a_is_floating a_is_signed : bool) (b : Typ)
  : M compiler LLVMValueRef :=
  match b with
  | NumType bits is_floating _ =>
      if bits =? 1 then
        let zero := LLVMConstNull (llvm_type (NumType a_bits a_is_floating a_is_signed)) in
        if a_is_floating then build (LLVMBuildFCmp LLVMRealUNE value zero)
        else build (LLVMBuildICmp LLVMIntNE value zero)
      else if negb is_floating && a_is_floating then
        build (LLVMBuildCast (if a_is_signed then LLVMFPToSI else LLVMFPToUI)
                             value (llvm_type b))
      else if is_floating && negb a_is_floating then
        build (LLVMBuildCast (if a_is_signed then LLVMSIToFP else LLVMUIToFP)
                             value (llvm_type b))
      else if a_is_floating then build (LLVMBuildFPCast value (llvm_type b))
      else build (LLVMBuildIntCast2 value (llvm_type b) a_is_signed)
  | PointerType _ => build (LLVMBuildIntToPtr value (llvm_type b))
  | _ => error "number can't be casted to that type"
  end.

(* part_002:124 *)
Definition gen_ptr_cast (value : LLVMValueRef) (a_points_to : Typ) (b : Typ)
  : M compiler LLVMValueRef :=
  match b with
  | PointerType _ => build (LLVMBuildPointerCast value (llvm_type b))
  | NumType _ _ _ => build (LLVMBuildPtrToInt value (llvm_type b))
  | _ => error "pointer can't be casted to that type"
  end.

(** Modelled from the spec: NumType(is_signed), the one-argument constructor
    of types.cpp, is not in the sources.  The cast of an array is to "emit
    GEP-zero-zero", so what is built from it is an integer zero; the width
    of that integer is a parameter of the state, pointer_bits. *)
Definition NumType_of_target (is_signed : bool) (c : compiler) : Typ :=
  NumType (pointer_bits c) false is_signed.

(* part_002:132; a is ArrayType a_elem a_count *)
Definition gen_arr_cast (value : Value) (a_elem : Typ) (a_count : Z) (b : Typ)
  : M compiler LLVMValueRef :=
  match b with
  | PointerType points_to =>
      when (Types.neq points_to a_elem)
        then error "Array can't be casted to pointer with different type" ;;;
      when (negb (has_ptr value))
        then error "const arrays can't be automatically casted to a pointer to their elements." ;;;
      c <- get ;;
      let zeros := [LLVMConstInt (llvm_type (NumType_of_target false c)) 0 false;
                    LLVMConstInt (llvm_type (NumType_of_target false c)) 0 false] in
      ptr <- gen_ptr value ;;
      build (LLVMBuildGEP2 (llvm_type (ArrayType a_elem a_count)) ptr zeros "")
  | _ => error "array can't be casted to that type"
  end.

(* part_002:171-174 *)
Fixpoint tuple_to_array (n : nat) (i : nat) (tup_v arr_v : LLVMValueRef)
  : M compiler LLVMValueRef :=
  match n with
  | O => ret arr_v
  | S n' =>
      elt <- build (LLVMBuildExtractValue tup_v i) ;;
      arr_v' <- build (LLVMBuildInsertValue arr_v elt i) ;;
      tuple_to_array n' (S i) tup_v arr_v'
  end.

(* part_002:152; gen_val_of_value is value->gen_val() *)
Definition gen_tuple_cast (gen_val_of_value : M compiler LLVMValueRef)
  (value : Value) (a_types : list Typ) (b : Typ) : M compiler LLVMValueRef :=
  match b with
  | ArrayType elem_type count =>
      when (existsb (fun member => Types.neq member elem_type) a_types)
        then error "Tuple can't be casted to array with different type" ;;;
      when (negb (count =? Z.of_nat (List.length a_types)))
        then error "Tuple can't be casted to array with different size" ;;;
      if has_ptr value then
        ptr <- gen_ptr value ;;
        p <- build (LLVMBuildBitCast ptr (llvm_type b)) ;;
        build (LLVMBuildLoad2 (llvm_type b) p)
      else
        tup_v <- gen_val_of_value ;;
        tuple_to_array (List.length a_types) 0 tup_v (LLVMGetUndef (llvm_type b))
  | _ => error "tuple can't be casted to that type"
  end.

(* a Value* that points to no value *)
Definition is_null (v : Value) : bool :=
  match v with
  | NullValue => true
  | _ => false
  end.

(* part_002:181 cast(source, to); gen_val_of_source is source->gen_val().
   The first thing it does is source->get_type(): of a null pointer that
   is the end of the run. *)
Definition cast_from (gen_val_of_source : M compiler LLVMValueRef)
  (source : Value) (to : Typ) : M compiler LLVMValueRef :=
  when (is_null source) then error "null Value" ;;;
  let src := get_type source in
  if Types.eq src to then
    v <- gen_val_of_source ;; build (LLVMBuildBitCast v (llvm_type to))
  else
    match src with
    | NumType bits is_floating is_signed =>
        v <- gen_val_of_source ;; gen_num_cast v bits is_floating is_signed to
    | PointerType points_to =>
        v <- gen_val_of_source ;; gen_ptr_cast v points_to to
    | ArrayType elem count => gen_arr_cast source elem count to
    | TupleType types => gen_tuple_cast gen_val_of_source source types to
    | NullType => ret (LLVMConstNull (llvm_type to))
    | _ => error "Invalid cast"
    end.

Fixpoint gen_val (v : Value) : M compiler LLVMValueRef :=
  match v with
  | ConstValue _ val => ret val
  | ConstValueWithPtr _ _ val => ret val
  | IntValue bits is_floating is_signed val =>
      ret (LLVMConstInt (llvm_type (NumType bits is_floating is_signed)) val
                        is_signed)
  | FuncValue _ func => ret func
  | BasicLoadValue type variable =>
      build (LLVMBuildLoad2 (llvm_type type) variable)
  | CastValue source to => cast_from (gen_val source) source to
  | NamedValue val name =>
      value <- gen_val val ;;
      LLVMSetValueName2 value name ;;;
      ret value
  | NullValue => error "null Value"
  end.

Definition cast (source : Value) (to : Typ) : M compiler LLVMValueRef :=
  cast_from (gen_val source) source to.

(* part_002:77 *)
Definition gen_phi (a_bb : LLVMBasicBlockRef) (a_v : Value)
  (b_bb : LLVMBasicBlockRef) (b_v : Value) : M compiler Value :=
  when (Types.neq (get_type a_v) (get_type b_v))
    then error "conditional's values must have the same type" ;;;
  let type := get_type a_v in
  curr <- LLVMGetInsertBlock ;;
  last_a <- LLVMGetLastInstruction a_bb ;;
  LLVMPositionBuilderBefore last_a ;;;
  a_val <- gen_val a_v ;;
  last_b <- LLVMGetLastInstruction b_bb ;;
  LLVMPositionBuilderBefore last_b ;;;
  b_val <- gen_val b_v ;;
  LLVMPositionBuilderAtEnd curr ;;;
  load <- build (LLVMBuildPhi (llvm_type type) []) ;;
  LLVMAddIncoming load [(a_val, a_bb); (b_val, b_bb)] ;;;
  ret (ConstValue type load).

End Values.

(** ** The AST (src/unnamed/part_001) *)

Module AST.
Import Values.

(* A node holds its children and the fields its constructor caches.  The
   prototypes, functions and declarations (top level), and the nodes that
   need Type::stringify or StructType::get_index (method calls, property
   accesses, `new`) are left out; function types come with their return
   type. *)
Inductive ExprAST : Type :=
| NumberExprAST (val : string) (base : Z) (type : Typ)
| BoolExprAST (value : bool) (type : Typ)
| CastExprAST (value : ExprAST) (from to : Typ)
| VariableExprAST (name : string) (type : Typ)
| LetExprAST (id : string) (type : Typ) (value : option ExprAST)
             (constant global : bool)
| CharExprAST (charr : Z)
| StringExprAST (chars : list Z) (c_type t_type p_type : Typ)
| BinaryExprAST (op : Z) (LHS RHS : ExprAST) (type : Typ)
| UnaryExprAST (op : Z) (operand : ExprAST) (type : Typ)
| CallExprAST (func_t : Typ) (called : ExprAST) (args : list ExprAST)
              (type : Typ)
| IndexExprAST (value index : ExprAST) (type : Typ)
| BlockExprAST (exprs : list ExprAST) (type : Typ)
| NullExprAST (type : Typ)
| IfExprAST (cond then_ elze : ExprAST) (type : Typ)
| WhileExprAST (cond then_ elze : ExprAST) (type : Typ).

(* get_type() of each node class *)
Definition get_type (e : ExprAST) : Typ :=
  match e with
  | NumberExprAST _ _ type => type
  | BoolExprAST _ type => type
  | CastExprAST _ _ to => to
  | VariableExprAST _ type => type
  | LetExprAST _ type _ _ _ => type
  | CharExprAST _ => NumType 8 false false
  | StringExprAST _ _ _ p_type => p_type
  | BinaryExprAST _ _ _ type => type
  | UnaryExprAST _ _ type => type
  | CallExprAST _ _ _ type => type
  | IndexExprAST _ _ type => type
  | BlockExprAST _ type => type
  | NullExprAST type => type
  | IfExprAST _ _ _ type => type
  | WhileExprAST _ _ _ type => type
  end.

(** *** The constructors *)

(* part_001:23 *)
Definition num_char_to_type (type_char : Z) (has_dot : bool) : M compiler Typ :=
  if type_char =? ch "d" then ret (NumType 64 true true)
  else if type_char =? ch "f" then ret (NumType 32 true true)
  else if type_char =? ch "i" then
    when has_dot then error "'i' (int32) type can't have a '.'" ;;;
    ret (NumType 32 false true)
  else if type_char =? ch "u" then
    when has_dot then error "'u' (uint32) type can't have a '.'" ;;;
    ret (NumType 32 false false)
  else if type_char =? ch "l" then
    when has_dot then error "'l' (long, int64) type can't have a '.'" ;;;
    ret (NumType 64 false true)
  else if type_char =? ch "b" then
    when has_dot then error "'b' (byte, uint8) type can't have a '.'" ;;;
    ret (NumType 8 false false)
  else error "Error: Invalid number type id".

(* part_001:58 *)
Definition new_NumberExprAST (val : string) (type_char : Z) (has_dot : bool)
  (base : Z) : M compiler ExprAST :=
  type <- num_char_to_type type_char has_dot ;;
  ret (NumberExprAST val base type).

(* part_001:83 *)
Definition new_BoolExprAST (value : bool) : M compiler ExprAST :=
  ret (BoolExprAST value (NumType 1 false false)).

(* part_001:101 *)
Definition new_CastExprAST (value : ExprAST) (to : Typ) : M compiler ExprAST :=
  ret (CastExprAST value (get_type value) to).

(* part_001:115 *)
Definition new_VariableExprAST (name : string) : M compiler ExprAST :=
  c <- get ;;
  match lookup name (curr_named_var_types c) with
  | Some type => ret (VariableExprAST name type)
  | None => error "Error: Variable doesn't exist."
  end.

(* part_001:139 *)
Definition new_LetExprAST (id : string) (type : option Typ)
  (value : option ExprAST) (constant global : bool) : M compiler ExprAST :=
  type <- match type, value with
          | Some type, _ => ret type
          | None, Some value => ret (get_type value)
          | None, None => error "Untyped valueless variable"
          end ;;
  modify (fun c => set_curr_named_var_types
                     (insert id type (curr_named_var_types c)) c) ;;;
  ret (LetExprAST id type value constant global).

(* part_001:206 *)
Definition new_CharExprAST (charr : Z) : M compiler ExprAST :=
  ret (CharExprAST charr).

(* part_001:223; TupleType(c_type, length) is the tuple of length times
   c_type *)
Definition new_StringExprAST (chars : list Z) : M compiler ExprAST :=
  when (negb (last chars 1 =? 0))
    then error "C-style strings should be fed into StringExprAST including the last null-byte" ;;;
  let c_type := NumType 8 false true in
  ret (StringExprAST chars c_type
         (TupleType (repeat c_type (List.length chars))) (PointerType c_type)).

(** Modelled from the spec: the table binop_precedence is not in the
    sources.  The constructor of a binary expression only asks whether the
    precedence is 10, "comparison", and the comparisons are "<, >, <=, >=,
    ==, !="; the other values only have to differ from 10. *)
Definition binop_precedence (op : Z) : Z :=
  if (op =? ch "<") || (op =? ch ">") || (op =? Lexer.T_LEQ) ||
     (op =? Lexer.T_GEQ) || (op =? Lexer.T_EQEQ) || (op =? Lexer.T_NEQ)
  then 10
  else if op =? ch "=" then 1
  else if (op =? Lexer.T_LOR) || (op =? Lexer.T_LAND) then 5
  else if (op =? ch "+") || (op =? ch "-") then 20
  else if (op =? ch "*") || (op =? ch "/") || (op =? ch "%") then 40
  else 0.

(* part_001:369 *)
Definition new_BinaryExprAST (op : Z) (LHS RHS : ExprAST) : M compiler ExprAST :=
  let lhs_t := get_type LHS in
  let rhs_t := get_type RHS in
  let lhs_tt := type_type lhs_t in
  let rhs_tt := type_type rhs_t in
  type <-
    (if op =? ch "=" then ret rhs_t
     else match lhs_tt, rhs_tt with
          | TT_Number, TT_Number =>
              ret (if binop_precedence op =? 10 then NumType 1 false false
                   else lhs_t)
          | TT_Pointer, TT_Number => ret lhs_t
          | TT_Number, TT_Pointer => ret rhs_t
          | _, _ => error "Unknown ptr_ptr op"
          end) ;;
  ret (BinaryExprAST op LHS RHS type).

(* part_001:432 *)
Definition new_UnaryExprAST (op : Z) (operand : ExprAST) : M compiler ExprAST :=
  type <-
    (if op =? ch "*" then
       match get_type operand with
       | PointerType points_to => ret points_to
       | _ => error "* can't be used on a non-pointer type"
       end
     else if op =? ch "&" then ret (PointerType (get_type operand))
     else ret (get_type operand)) ;;
  ret (UnaryExprAST op operand type).

(* part_001:484 *)
Definition new_CallExprAST (called : ExprAST) (args : list ExprAST)
  : M compiler ExprAST :=
  func_t <-
    match get_type called with
    | FunctionType _ _ _ => ret (get_type called)
    | PointerType (FunctionType r a v) => ret (FunctionType r a v)
    | PointerType _ => error "func_t is null"      (* dereferenced next *)
    | _ => error "Error: Function doesn't exist or is not a function"
    end ;;
  match func_t with
  | FunctionType return_type arguments vararg =>
      let args_len := List.length args in
      let arg_count := List.length arguments in
      when (if vararg then Nat.ltb args_len arg_count
            else negb (Nat.eqb args_len arg_count))
        then error "Error: Incorrect # arguments passed." ;;;
      ret (CallExprAST func_t called args return_type)
  | _ => error "func_t is null"
  end.

(** Modelled from the spec: TupleType::get_elem_type is not in the sources;
    for the index of a tuple "the element type becomes the result", the
    type of its elements, here of the first. *)
Definition tuple_elem_type (types : list Typ) : Typ := hd NullType types.

(* part_001:533 *)
Definition new_IndexExprAST (value index : ExprAST) : M compiler ExprAST :=
  type <- match get_type value with
          | PointerType points_to => ret points_to
          | TupleType types => ret (tuple_elem_type types)
          | _ => error "Invalid index, type not arrayish."
          end ;;
  ret (IndexExprAST value index type).

(* part_001:665 *)
Definition new_BlockExprAST (exprs : list ExprAST) : M compiler ExprAST :=
  match rev exprs with
  | [] => error "block can't be empty."
  | last_expr :: _ => ret (BlockExprAST exprs (get_type last_expr))
  end.

(* part_001:684 *)
Definition new_NullExprAST (type : Typ) : M compiler ExprAST :=
  ret (NullExprAST type).

(* part_001:696; the body shared by IfExprAST and WhileExprAST, which
   inherits the constructor *)
Definition if_constructor (then_ : ExprAST) (elze : option ExprAST)
  : M compiler (ExprAST * Typ) :=
  let then_t := get_type then_ in
  let type := then_t in
  elze <- match elze with
          | None => new_NullExprAST type
          | Some elze => ret elze
          end ;;
  let else_t := get_type elze in
  when (Types.neq then_t else_t)
    then error "Error: while's then and else side don't have the same type" ;;;
  ret (elze, type).

Definition new_IfExprAST (cond then_ : ExprAST) (elze : option ExprAST)
  : M compiler ExprAST :=
  r <- if_constructor then_ elze ;;
  ret (IfExprAST cond then_ (fst r) (snd r)).

(* part_001:758 *)
Definition new_WhileExprAST (cond then_ : ExprAST) (elze : option ExprAST)
  : M compiler ExprAST :=
  r <- if_constructor then_ elze ;;
  ret (WhileExprAST cond then_ (fst r) (snd r)).

(** *** Emission *)

(* part_001:256.  `cast(R, rhs_nt, lhs_nt)`, of a value and two numeric
   types, is the cast of numbers of part_002:97. *)
Definition gen_num_num_binop (op : Z) (L R : LLVMValueRef)
  (lhs_bits : Z) (lhs_is_floating lhs_is_signed : bool)
  (rhs_bits : Z) (rhs_is_floating rhs_is_signed : bool)
  : M compiler LLVMValueRef :=
  let lhs_nt := NumType lhs_bits lhs_is_floating lhs_is_signed in
  let rhs_nt := NumType rhs_bits rhs_is_floating rhs_is_signed in
  LR <- (if lhs_bits >? rhs_bits then
           R' <- gen_num_cast R rhs_bits rhs_is_floating rhs_is_signed lhs_nt ;;
           ret (L, R')
         else if rhs_bits >? lhs_bits then
           L' <- gen_num_cast L lhs_bits lhs_is_floating lhs_is_signed rhs_nt ;;
           ret (L', R)
         else ret (L, R)) ;;
  let L := fst LR in
  let R := snd LR in
  let floating := lhs_is_floating && rhs_is_floating in
  if floating then
    if op =? ch "+" then build (LLVMBuildFAdd L R)
    else if op =? ch "-" then build (LLVMBuildFSub L R)
    else if op =? ch "*" then build (LLVMBuildFMul L R)
    else if op =? ch "/" then build (LLVMBuildFDiv L R)
    else if op =? ch "%" then build (LLVMBuildFRem L R)
    else if (op =? Lexer.T_LAND) || (op =? ch "&") then build (LLVMBuildAnd L R)
    else if (op =? Lexer.T_LOR) || (op =? ch "|") then build (LLVMBuildOr L R)
    else if op =? ch "<" then build (LLVMBuildFCmp LLVMRealULT L R)
    else if op =? ch ">" then build (LLVMBuildFCmp LLVMRealUGT L R)
    else if op =? Lexer.T_LEQ then build (LLVMBuildFCmp LLVMRealULE L R)
    else if op =? Lexer.T_GEQ then build (LLVMBuildFCmp LLVMRealUGE L R)
    else if op =? Lexer.T_EQEQ then build (LLVMBuildFCmp LLVMRealUEQ L R)
    else if op =? Lexer.T_NEQ then build (LLVMBuildFCmp LLVMRealUNE L R)
    else error "Error: invalid float_float binary operator"
  else if negb lhs_is_floating && negb rhs_is_floating then
    let is_signed := lhs_is_signed && rhs_is_signed in
    if op =? ch "+" then build (LLVMBuildAdd L R)
    else if op =? ch "-" then build (LLVMBuildSub L R)
    else if op =? ch "*" then build (LLVMBuildMul L R)
    else if op =? ch "/" then
      build (if is_signed then LLVMBuildSDiv L R else LLVMBuildUDiv L R)
    else if op =? ch "%" then
      build (if is_signed then LLVMBuildSRem L R else LLVMBuildURem L R)
    else if (op =? Lexer.T_LAND) || (op =? ch "&") then build (LLVMBuildAnd L R)
    else if (op =? Lexer.T_LOR) || (op =? ch "|") then build (LLVMBuildOr L R)
    else if op =? ch "<" then
      build (LLVMBuildICmp (if is_signed then LLVMIntSLT else LLVMIntULT) L R)
    else if op =? ch ">" then
      build (LLVMBuildICmp (if is_signed then LLVMIntSGT else LLVMIntUGT) L R)
    else if op =? Lexer.T_LEQ then
      build (LLVMBuildICmp (if is_signed then LLVMIntSLE else LLVMIntULE) L R)
    else if op =? Lexer.T_GEQ then
      build (LLVMBuildICmp (if is_signed then LLVMIntSGE else LLVMIntUGE) L R)
    else if op =? Lexer.T_EQEQ then build (LLVMBuildICmp LLVMIntEQ L R)
    else if op =? Lexer.T_NEQ then build (LLVMBuildICmp LLVMIntNE L R)
    else error "Error: invalid int_int binary operator"
  else error "Error: invalid float_int binary operator".

(* part_001:343 *)
Definition gen_ptr_num_binop (op : Z) (ptr num : LLVMValueRef)
  (ptr_points_to : Typ) : M compiler LLVMValueRef :=
  if op =? ch "-" then
    num' <- build (LLVMBuildSub
                     (LLVMConstInt (llvm_type (NumType 32 false false)) 0 false)
                     num) ;;
    build (LLVMBuildGEP2 (llvm_type ptr_points_to) ptr [num'] "ptraddtmp")
  else if op =? ch "+" then
    build (LLVMBuildGEP2 (llvm_type ptr_points_to) ptr [num] "ptraddtmp")
  else error "Error: invalid ptr_num binary operator".

(* part_001:719-722 and 761-764: a floating condition is compared with 0.0 *)
Definition normalize_cond (cond_type : Typ) (cond_v : LLVMValueRef)
  : M compiler LLVMValueRef :=
  match cond_type with
  | NumType _ true _ =>
      build (LLVMBuildFCmp LLVMRealONE cond_v (LLVMConstReal float_64_type 0))
  | _ => ret cond_v
  end.

(* gen_value() of each node class; gen_load() of part_001 is gen_val() of
   part_002, ConstValue(type, val, nullptr) is the ConstValue without a
   pointer, BasicLoadValue(ptr, type) the BasicLoadValue of type and ptr,
   and PHIValue(..) is built by gen_phi (part_002:77) of the same four
   arguments. *)
Fixpoint gen_value (e : ExprAST) : M compiler Value :=
  match e with
  (* part_001:64 *)
  | NumberExprAST val base type =>
      match type with
      | NumType _ is_floating _ =>
          if is_floating then
            if negb (base =? 10) then
              error "floating-point numbers with a base that isn't decimal aren't supported."
            else
              ret (ConstValue type
                     (LLVMConstRealOfStringAndSize (llvm_type type) val))
          else
            ret (ConstValue type
                   (LLVMConstIntOfStringAndSize (llvm_type type) val base))
      | _ => error "the type of a number is a NumType"
      end
  (* part_001:87 *)
  | BoolExprAST value type =>
      ret (ConstValue type (if value then LLVMConstAllOnes (llvm_type type)
                            else LLVMConstNull (llvm_type type)))
  (* part_001:104 *)
  | CastExprAST value _ to =>
      v <- gen_value value ;; ret (cast_to v to)
  (* part_001:124; for a name without a value, operator[] of the map adds
     the name with a null pointer, and that is returned *)
  | VariableExprAST name _ =>
      c <- get ;;
      match lookup name (curr_named_variables c) with
      | Some v => ret v
      | None =>
          put (set_curr_named_variables
                 (insert name NullValue (curr_named_variables c)) c) ;;;
          ret NullValue
      end
  (* part_001:164 *)
  | LetExprAST id type value constant _ =>
      if constant then
        match value with
        | Some value =>
            v <- gen_value value ;;
            modify (fun c => set_curr_named_variables
                               (insert id v (curr_named_variables c)) c) ;;;
            ret v
        | None => error "Constant variables need an initialization value"
        end
      else
        ptr <- build (LLVMBuildAlloca (llvm_type type) id) ;;
        modify (fun c => set_curr_named_variables
                  (insert id (BasicLoadValue type ptr) (curr_named_variables c))
                  c) ;;;
        match value with
        | Some value =>
            v <- gen_value value ;;
            llvm_val <- gen_val (cast_to v type) ;;
            build (LLVMBuildStore llvm_val ptr) ;;;
            ret (BasicLoadValue type ptr)
        | None => ret (BasicLoadValue type ptr)
        end
  (* part_001:208 *)
  | CharExprAST charr =>
      ret (ConstValue (NumType 8 false false)
                      (LLVMConstInt int_8_type charr false))
  (* part_001:233 *)
  | StringExprAST chars _ t_type p_type =>
      let str := LLVMConstString chars true in
      glob <- LLVMAddGlobal (llvm_type t_type) ".str" ;;
      LLVMSetInitializer glob str ;;;
      let zeros := [LLVMConstInt (llvm_type (NumType 64 false false)) 0 false;
                    LLVMConstInt (llvm_type (NumType 64 false false)) 0 false] in
      ret (ConstValue p_type (LLVMConstGEP2 (llvm_type t_type) glob zeros))
  (* part_001:396 gen_assign and part_001:402 *)
  | BinaryExprAST op LHS RHS type =>
      let lhs_t := get_type LHS in
      if op =? ch "=" then
        lhs_v <- gen_value LHS ;;
        store_ptr <- gen_ptr lhs_v ;;
        rhs_v <- gen_value RHS ;;
        let val := cast_to rhs_v (get_type LHS) in
        x <- gen_val val ;;
        build (LLVMBuildStore x store_ptr) ;;;
        ret (BasicLoadValue type store_ptr)
      else
        let rhs_t := get_type RHS in
        lhs_v <- gen_value LHS ;;
        L <- gen_val lhs_v ;;
        rhs_v <- gen_value RHS ;;
        R <- gen_val rhs_v ;;
        match lhs_t, rhs_t with
        | NumType lb lf ls, NumType rb rf rs =>
            x <- gen_num_num_binop op L R lb lf ls rb rf rs ;;
            ret (ConstValue type x)
        | NumType _ _ _, PointerType rhs_points_to =>
            x <- gen_ptr_num_binop op R L rhs_points_to ;;
            ret (ConstValue type x)
        | PointerType lhs_points_to, NumType _ _ _ =>
            x <- gen_ptr_num_binop op L R lhs_points_to ;;
            ret (ConstValue type x)
        | _, _ => error "Unknown ptr_ptr op"
        end
  (* part_001:444; `zero` of line 445 is a constant that is never used *)
  | UnaryExprAST op operand type =>
      val <- gen_value operand ;;
      if op =? ch "!" then
        n <- gen_val val ;;
        x <- build (LLVMBuildFCmp LLVMRealONE n (LLVMConstReal float_64_type 1)) ;;
        ret (ConstValue type x)
      else if op =? ch "-" then
        n <- gen_val val ;;
        x <- build (LLVMBuildFSub (LLVMConstReal float_64_type 0) n) ;;
        ret (ConstValue type x)
      else if op =? ch "*" then
        p <- gen_val val ;;
        ret (BasicLoadValue type p)
      else if op =? ch "&" then
        p <- gen_ptr val ;;
        ret (ConstValue type p)
      else error "Error: invalid prefix unary operator"
  (* part_001:507 *)
  | CallExprAST func_t called args _ =>
      match func_t with
      | FunctionType return_type arguments _ =>
          (* `if (!func) error(..)`: a value is never null here *)
          called_v <- gen_value called ;;
          func <- gen_val called_v ;;
          arg_vs <-
            (fix gen_args (i : nat) (args : list ExprAST)
               : M compiler (list LLVMValueRef) :=
               match args with
               | [] => ret []
               | arg :: args' =>
                   v <- gen_value arg ;;
                   x <- match nth_error arguments i with
                        | Some argument => gen_val (cast_to v argument)
                        | None => gen_val v
                        end ;;
                   xs <- gen_args (S i) args' ;;
                   ret (x :: xs)
               end) O args ;;
          x <- build (LLVMBuildCall2 (llvm_type func_t) func arg_vs) ;;
          ret (ConstValue return_type x)
      | _ => error "func_t is null"
      end
  (* part_001:550 *)
  | IndexExprAST value index type =>
      index_val <- gen_value index ;;
      index_v <- gen_val index_val ;;
      value_val <- gen_value value ;;
      p <- gen_val value_val ;;
      x <- build (LLVMBuildGEP2 (llvm_type type) p [index_v] "indextmp") ;;
      ret (BasicLoadValue type x)
  (* part_001:672 *)
  | BlockExprAST exprs _ =>
      (fix gen_exprs (exprs : list ExprAST) : M compiler Value :=
         match exprs with
         | [] => error "block can't be empty."
         | expr :: exprs' =>
             match exprs' with
             | [] => gen_value expr
             | _ :: _ => gen_value expr ;;; gen_exprs exprs'
             end
         end) exprs
  (* part_001:686 *)
  | NullExprAST type =>
      ret (ConstValue type (LLVMConstNull (llvm_type type)))
  (* part_001:717 *)
  | IfExprAST cond then_ elze _ =>
      cond_val <- gen_value cond ;;
      cond_v <- gen_val cond_val ;;
      cond_v <- normalize_cond (get_type cond) cond_v ;;
      curr <- LLVMGetInsertBlock ;;
      func <- LLVMGetBasicBlockParent curr ;;
      then_bb <- LLVMAppendBasicBlockInContext func "ifthen" ;;
      else_bb <- LLVMCreateBasicBlockInContext "ifelse" ;;
      merge_bb <- LLVMCreateBasicBlockInContext "ifmerge" ;;
      build (LLVMBuildCondBr cond_v then_bb else_bb) ;;;
      LLVMPositionBuilderAtEnd then_bb ;;;
      then_v <- gen_value then_ ;;
      build (LLVMBuildBr merge_bb) ;;;
      then_bb <- LLVMGetInsertBlock ;;
      LLVMAppendExistingBasicBlock func else_bb ;;;
      LLVMPositionBuilderAtEnd else_bb ;;;
      else_v <- gen_value elze ;;
      build (LLVMBuildBr merge_bb) ;;;
      else_bb <- LLVMGetInsertBlock ;;
      LLVMAppendExistingBasicBlock func merge_bb ;;;
      LLVMPositionBuilderAtEnd merge_bb ;;;
      gen_phi then_bb then_v else_bb else_v
  (* part_001:759 *)
  | WhileExprAST cond then_ elze _ =>
      cond_val <- gen_value cond ;;
      cond_v <- gen_val cond_val ;;
      cond_v <- normalize_cond (get_type cond) cond_v ;;
      curr <- LLVMGetInsertBlock ;;
      func <- LLVMGetBasicBlockParent curr ;;
      then_bb <- LLVMAppendBasicBlockInContext func "whilethen" ;;
      else_bb <- LLVMCreateBasicBlockInContext "whileelse" ;;
      merge_bb <- LLVMCreateBasicBlockInContext "endwhile" ;;
      build (LLVMBuildCondBr cond_v then_bb else_bb) ;;;
      LLVMPositionBuilderAtEnd then_bb ;;;
      then_v <- gen_value then_ ;;
      cond_val2 <- gen_value cond ;;
      cond_v2 <- gen_val cond_val2 ;;
      (* line 781: the comparison is built on cond_v, not on cond_v2 *)
      cond_v2 <- match get_type cond with
                 | NumType _ true _ =>
                     build (LLVMBuildFCmp LLVMRealONE cond_v
                                          (LLVMConstReal float_64_type 0))
                 | _ => ret cond_v2
                 end ;;
      build (LLVMBuildCondBr cond_v2 then_bb merge_bb) ;;;
      then_bb <- LLVMGetInsertBlock ;;
      LLVMAppendExistingBasicBlock func else_bb ;;;
      LLVMPositionBuilderAtEnd else_bb ;;;
      else_v <- gen_value elze ;;
      build (LLVMBuildBr merge_bb) ;;;
      else_bb <- LLVMGetInsertBlock ;;
      LLVMAppendExistingBasicBlock func merge_bb ;;;
      LLVMPositionBuilderAtEnd merge_bb ;;;
      gen_phi then_bb then_v else_bb else_v
  end.

End AST.

(** ** The helpers of utils.cpp (first part) *)

Module Utils.

(* an unsigned int *)
Definition uint (z : Z) : Z := z mod 2 ^ 32.

(* utils.cpp:9-11, the loop from index i on, [todo] rounds to go *)
Fixpoint streq_loop (a b : list Z) (i todo : nat) : bool :=
  match todo with
  | O => true
  | S todo' =>
      if negb (nth i a 0 =? nth i b 0) then false
      else streq_loop a b (S i) todo'
  end.

(* utils.cpp:5; a and b are the buffers, read below alen only *)
Definition streq (a : list Z) (alen : nat) (b : list Z) (blen : nat) : bool :=
  if negb (Nat.eqb alen blen) then false
  else streq_loop a b O alen.

(* utils.cpp:18-19 *)
Fixpoint parse_pos_int_loop (num_str : list Z) (base : Z) (i todo : nat)
  (result : Z) : Z :=
  match todo with
  | O => result
  | S todo' =>
      parse_pos_int_loop num_str base (S i) todo'
        (uint (result * base + nth i num_str 0 - ch "0"))
  end.

(* utils.cpp:15 *)
Definition parse_pos_int (num_str : list Z) (num_str_len : nat) (base : Z) : Z :=
  parse_pos_int_loop num_str base O num_str_len 0.

End Utils.

(** ** Methods and prototypes (src/unnamed/part_001:586-620 and 813-841) *)

Module Methods.
Import AST.

Section Stringify.

(* Type::stringify of types.cpp, which is not in the sources: the printed
   form of a type *)
Variable stringify : Typ -> string.

(* part_001:590; name is the C string, name_len the length given with it *)
Definition get_complete_extension_name (base_type : Typ) (name : string)
  (name_len : nat) : string * nat :=
  let called_type := stringify base_type in
  let len := (4 + String.length called_type + name_len)%nat in
  ((("(" ++ called_type) ++ ")::") ++ name, len)%string.

(* part_001:607; a MethodCallExprAST is its underlying_call, to which
   get_type() and gen_value() go.  VariableExprAST(cen.str, cen.len) looks
   cen.str up. *)
Definition new_MethodCallExprAST (name : string) (name_len : nat)
  (source : ExprAST) (args : list ExprAST) : M compiler ExprAST :=
  let cen := get_complete_extension_name (get_type source) name name_len in
  called_function <- new_VariableExprAST (fst cen) ;;
  let args_with_this := (args ++ [source])%list in
  new_CallExprAST called_function args_with_this.

(* part_001:804; the return type is one that is given (not the nullptr that
   FunctionAST fills in later) *)
Record PrototypeAST : Type := mk_PrototypeAST {
  arg_names : list string;
  arg_types : list Typ;
  type : Typ;
  name : string;
  name_len : nat
}.

(* std::string(s, n) *)
Definition std_string (s : string) (n : nat) : string := substring 0 n s.

(* part_001:819-821; arg_names are the strings
   std::string(arg_names[i], arg_name_lengths[i]) *)
Fixpoint install_args (arg_names : list string) (arg_types : list Typ)
  (var_types : list (string * Typ)) : list (string * Typ) :=
  match arg_names, arg_types with
  | n :: arg_names', t :: arg_types' =>
      install_args arg_names' arg_types' (insert n t var_types)
  | _, _ => var_types
  end.

(* part_001:813 *)
Definition new_PrototypeAST (name : string) (name_len : nat)
  (arg_names : list string) (arg_types : list Typ) (return_type : Typ)
  (vararg : bool) : M compiler PrototypeAST :=
  modify (fun c => set_curr_named_var_types
                     (install_args arg_names arg_types (curr_named_var_types c))
                     c) ;;;
  let type := FunctionType return_type arg_types vararg in
  modify (fun c => set_curr_named_var_types
                     (insert (std_string name name_len) type
                             (curr_named_var_types c)) c) ;;;
  ret (mk_PrototypeAST arg_names arg_types type name name_len).

(* part_001:825, the prototype of a method of this_type *)
Definition new_PrototypeAST_of (this_type : Typ) (name : string)
  (name_len : nat) (arg_names : list string) (arg_types : list Typ)
  (return_type : Typ) (vararg : bool) : M compiler PrototypeAST :=
  let cen := get_complete_extension_name this_type name name_len in
  new_PrototypeAST (fst cen) (snd cen) (arg_names ++ ["this"])%list
                   (arg_types ++ [this_type])%list return_type vararg.

End Stringify.

End Methods.

(** ** A let at the top level (src/unnamed/part_001:152-163 and 193-198) *)

Module TopLevel.
Import AST.

(* part_001:152 LetExprAST::gen_toplevel(); the node is a LetExprAST *)
Definition gen_toplevel (id : string) (type : Typ) (value : option ExprAST)
  : M compiler unit :=
  ptr <- LLVMAddGlobal (llvm_type type) id ;;
  match value with
  | Some value =>
      val <- gen_value value ;;
      match val with
      | ConstValue _ _ =>
          init <- Values.gen_val val ;;
          LLVMSetInitializer ptr init
      | _ => error "Global variable needs a constant value inside it"
      end
  | None => ret tt
  end ;;;
  modify (fun c => set_curr_named_variables
                     (insert id (BasicLoadValue type ptr)
                             (curr_named_variables c)) c).

(* part_001:193 LetExprAST::gen_declare() *)
Definition gen_declare (id : string) (type : Typ) : M compiler LLVMValueRef :=
  global <- LLVMAddGlobal (llvm_type type) id ;;
  modify (fun c => set_curr_named_variables
                     (insert id (BasicLoadValue type global)
                             (curr_named_variables c)) c) ;;;
  ret global.

End TopLevel.

(** ** next_token, one call at a time *)

Module Tokens.
Import Lexer.

Section Body.
Variable keywords : list Z -> Z.

(* utils.cpp:110-257: next_token after the white space, with [again] for
   the two places where next_token calls itself *)
Definition next_token_body (again : M lexer Z) : M lexer Z :=
  l <- get ;;
  if last_char l =? EOF then ret T_EOF
  else if isalpha (last_char l) || (last_char l =? ch "_") then
    name <- read_str is_alphaish ;;
    modify (set_identifier_string name) ;;;
    if negb (keywords name =? 0) then ret (keywords name)
    else ret T_IDENTIFIER
  else if isdigit (last_char l) then lex_number
  else if last_char l =? 34 then lex_string
  else if last_char l =? ch "'" then lex_char
  else
    let curr_char := last_char l in
    c <- advance ;;
    match (if c =? ch "=" then eq_token curr_char else None) with
    | Some token => advance ;;; ret token
    | None =>
    match (if curr_char =? c then double_token curr_char else None) with
    | Some token => advance ;;; ret token
    | None =>
      if curr_char =? ch "/" then
        if c =? ch "/" then
          l <- get ;;
          line_comment (S (List.length (source l))) ;;;
          again
        else if c =? ch "*" then
          l <- get ;;
          block_comment (S (List.length (source l))) ;;;
          advance ;;;
          again
        else ret curr_char
      else ret curr_char
    end
    end.

End Body.

(* utils.cpp:239: the line comment goes on after this character *)
Definition line_goes_on (c : Z) : bool :=
  negb (c =? EOF) && negb (c =? 10) && negb (c =? 13).

(* a character inside a block comment that cannot be part of its end *)
Definition no_slash (c : Z) : bool := negb (c =? EOF) && negb (c =? ch "/").

(* utils.cpp:169-172: a character of a string literal that stands for
   itself *)
Definition plain_in_string (c : Z) : bool :=
  negb (c =? 34) && negb (c =? EOF) && negb (c =? ch "\").

(* utils.cpp:191-193: a character of a character literal that stands for
   itself *)
Definition plain_in_char (c : Z) : bool :=
  negb ((c =? EOF) || (c =? 10) || (c =? 13)) && negb (c =? ch "\").

(* utils.cpp:108-188: a lookahead that is none of white space, the end of
   the input, or the start of a name, a number, a string or a character *)
Definition starts_operator (c : Z) : bool :=
  negb (isspace c) && negb (c =? EOF) &&
  negb (isalpha c || (c =? ch "_")) && negb (isdigit c) &&
  negb (c =? 34) && negb (c =? ch "'").

(* the number of dots in a digit text *)
Definition dots (text : list Z) : nat := count_occ Z.eq_dec text (ch ".").

(* the lexer after last_char = next_char() has read c off rest *)
Definition moved_to (c : Z) (rest : list Z) (l : lexer) : lexer :=
  set_last_char c (set_source rest l).

(* the lexer with its lookahead on the first character of a text *)
Definition looking_at (text : list Z) (l : lexer) : lexer :=
  moved_to (hd EOF text) (tl text) l.

End Tokens.

(** ** What the statements on casts and blocks read *)

(* The pairs of a source type and a target type that cast (part_002:181)
   and the four functions it calls let through; has_address is has_ptr()
   of the value that is cast. *)
Definition cast_allowed (src to : Typ) (has_address : bool) : bool :=
  Types.eq src to ||
  match src, to with
  | NumType _ _ _, NumType _ _ _ => true
  | NumType _ _ _, PointerType _ => true
  | PointerType _, PointerType _ => true
  | PointerType _, NumType _ _ _ => true
  | ArrayType elem _, PointerType points_to =>
      Types.eq points_to elem && has_address
  | TupleType types, ArrayType elem count =>
      forallb (fun member => Types.eq member elem) types &&
      (count =? Z.of_nat (List.length types))
  | NullType, _ => true
  | _, _ => false
  end.

(* a value of one of the classes that wrap no other value *)
Definition plain (v : Value) : bool :=
  match v with
  | CastValue _ _ | NamedValue _ _ | NullValue => false
  | _ => true
  end.

(* the names of the named values around a value, the outermost first *)
Fixpoint names_of (v : Value) : list string :=
  match v with
  | NamedValue val name => name :: names_of val
  | _ => []
  end.

(* the state with a name bound to a value: curr_named_variables[id] = v *)
Definition bound_to (id : string) (v : Value) (c : compiler) : compiler :=
  set_curr_named_variables (insert id v (curr_named_variables c)) c.

(* part_001:674-675: the expressions of a block before the last, emitted in
   order, their values dropped *)
Fixpoint emit_all (exprs : list AST.ExprAST) : M compiler unit :=
  match exprs with
  | [] => ret tt
  | expr :: exprs' => AST.gen_value expr ;;; emit_all exprs'
  end.

(* whether a name holds a colon, and what follows the last colon of a
   string (the whole string when it has none) *)
Fixpoint has_colon (s : string) : bool :=
  match s with
  | EmptyString => false
  | String c s' => Ascii.eqb c ":" || has_colon s'
  end.

Fixpoint after_last_colon (s : string) : string :=
  match s with
  | EmptyString => EmptyString
  | String c s' =>
      if has_colon s' then after_last_colon s'
      else if Ascii.eqb c ":" then s' else s
  end.

(** ** Running the lexer and the emitter: what the statements below read *)

(* the kinds and number payloads of the first n tokens of a lexer *)
Definition number_tokens (keywords : list Z -> Z) (n : nat) (l : Lexer.lexer)
  : list (option (Z * (list Z * Z * bool * Z))) :=
  map (fun r => match r with
                | OK (t, l') => Some (t, Lexer.number_payload l')
                | Error _ => None
                end) (Lexer.tokens keywords n l).

(* the text of a token as the parser hands it to a node *)
Fixpoint text_of (cs : list Z) : string :=
  match cs with
  | [] => EmptyString
  | c :: cs' => String (ascii_of_N (Z.to_N (byte_of c))) (text_of cs')
  end.

(* a lexer whose lookahead is the first character of the text *)
Definition lexer_at (text : string) : Lexer.lexer :=
  match chars text with
  | [] => Lexer.start []
  | c :: rest => Lexer.set_last_char c (Lexer.start rest)
  end.

(* the state of a compilation inside a function `main`, the builder at the
   end of its entry block, with the given variables *)
Definition in_function (variables : list (string * Value))
  (var_types : list (string * Typ)) : compiler :=
  mk_compiler [mk_block "entry" (Some (FunctionVal "main")) []]
              (Some (O, None)) O [] [] 64 variables var_types [].

Definition I32 : Typ := NumType 32 false true.
Definition I64 : Typ := NumType 64 false true.
Definition F64 : Typ := NumType 64 true true.

(* let a: i32, let b: i64 and let x: f64, each in its stack slot *)
Definition abx : compiler :=
  in_function [("a", BasicLoadValue I32 (GlobalVar "a" 0));
               ("b", BasicLoadValue I64 (GlobalVar "b" 1));
               ("x", BasicLoadValue F64 (GlobalVar "x" 2))]
              [("a", I32); ("b", I64); ("x", F64)].

(* the type of a constant *)
Definition type_of_constant (v : LLVMValueRef) : option LLVMTypeRef :=
  match v with
  | LLVMConstInt ty _ _ | LLVMConstReal ty _
  | LLVMConstIntOfStringAndSize ty _ _ | LLVMConstRealOfStringAndSize ty _
  | LLVMConstAllOnes ty | LLVMConstNull ty | LLVMGetUndef ty => Some ty
  | _ => None
  end.

(* the instructions of the blocks, in the order of the blocks *)
Definition emitted (c : compiler) : list (list (nat * Instruction)) :=
  map bb_instrs (blocks c).

(** * Properties *)

(** ** Characters and the monad *)

Lemma bind_OK {S A B : Type} (m : M S A) (f : A -> M S B) s a s' :
  m s = OK (a, s') -> bind m f s = f a s'.
Proof. intros H. unfold bind. rewrite H. reflexivity. Qed.

Lemma bind_Error {S A B : Type} (m : M S A) (f : A -> M S B) s msg :
  m s = Error msg -> bind m f s = Error msg.
Proof. intros H. unfold bind. rewrite H. reflexivity. Qed.

Lemma isdigit_range c : isdigit c = true <-> 48 <= c <= 57.
Proof. unfold isdigit. rewrite andb_true_iff, !Z.leb_le. tauto. Qed.

Lemma isdigit_not_space c : isdigit c = true -> isspace c = false.
Proof.
  intros H. apply isdigit_range in H. unfold isspace.
  apply orb_false_iff. split.
  - apply Z.eqb_neq. lia.
  - apply andb_false_iff. right. apply Z.leb_gt. lia.
Qed.

Lemma isdigit_not_alpha c : isdigit c = true -> isalpha c = false.
Proof.
  intros H. apply isdigit_range in H. unfold isalpha.
  apply orb_false_iff. split; apply andb_false_iff; left; apply Z.leb_gt; lia.
Qed.

Lemma EOF_not_digit base : Lexer.not_digit_of base EOF = true.
Proof.
  unfold Lexer.not_digit_of.
  destruct (base =? 16); [reflexivity|].
  destruct (base =? 10); [reflexivity|].
  destruct (base =? 8); reflexivity.
Qed.

(** ** The lexer *)

Section LexerFacts.
Import Lexer.
Variable keywords : list Z -> Z.

Lemma advance_eq l :
  advance l = OK (hd EOF (source l),
                  set_last_char (hd EOF (source l)) (set_source (tl (source l)) l)).
Proof.
  unfold advance, bind, next_char, modify, ret.
  destruct l as [src lc ids cv nv nb nd nt sv sty]. simpl.
  destruct src; reflexivity.
Qed.

(* The digit loop ends: EOF is no digit, and every other round takes a
   character off the source. *)
Lemma num_while_total fuel : forall stream l,
  (last_char l = EOF /\ 1 <= fuel \/ List.length (source l) + 2 <= fuel)%nat ->
  exists stream' l',
    num_while fuel stream l = OK (stream', l') /\
    num_base l' = num_base l /\ num_type l' = num_type l /\
    num_value l' = num_value l.
Proof.
  induction fuel as [|fuel IH]; intros stream l Hfuel.
  - exfalso. destruct Hfuel as [[_ H]|H]; lia.
  - cbn [num_while]. unfold bind at 1. cbn [get].
    destruct (not_digit_of (num_base l) (last_char l)) eqn:Hnd.
    { exists stream, l. auto. }
    destruct ((last_char l =? ch ".") && num_has_dot l) eqn:Hdot.
    { exists stream, l. auto. }
    assert (Hne : last_char l <> EOF).
    { intros E. rewrite E, EOF_not_digit in Hnd. discriminate. }
    destruct Hfuel as [[E _]|Hlen]; [contradiction|].
    set (l1 := if last_char l =? ch "." then set_num_has_dot true l else l).
    assert (Hl1 : source l1 = source l /\ num_base l1 = num_base l /\
                  num_type l1 = num_type l /\ num_value l1 = num_value l).
    { unfold l1. destruct (last_char l =? ch "."); auto. }
    destruct Hl1 as (Hs1 & Hb1 & Ht1 & Hv1).
    assert (Hstep :
      (bind (if last_char l =? ch "." then modify (set_num_has_dot true)
             else ret tt)
         (fun _ => bind advance
            (fun _ => num_while fuel (stream ++ [last_char l])))) l
      = num_while fuel (stream ++ [last_char l])
          (set_last_char (hd EOF (source l1)) (set_source (tl (source l1)) l1))).
    { unfold bind at 1. unfold l1.
      destruct (last_char l =? ch "."); cbn [modify ret];
        unfold bind; rewrite advance_eq; reflexivity. }
    rewrite Hstep.
    destruct (IH (stream ++ [last_char l])%list
                 (set_last_char (hd EOF (source l1))
                                (set_source (tl (source l1)) l1)))
      as (s' & l' & Hrun & Hb & Ht & Hv).
    { cbn [last_char source set_last_char set_source]. rewrite Hs1.
      destruct (source l) as [|c rest]; cbn [hd tl List.length] in *.
      - left. split; [reflexivity | lia].
      - right. lia. }
    exists s', l'. split; [exact Hrun|].
    cbn [num_base num_type num_value set_last_char set_source] in Hb, Ht, Hv.
    rewrite Hb, Ht, Hv. auto.
Qed.

Lemma lex_num_prefix_total l :
  exists stream l', lex_num_prefix l = OK (stream, l').
Proof.
  destruct l as [src lc ids cv nv nb nd nt sv sty].
  unfold lex_num_prefix, advance, next_char, bind, modify, get, ret.
  destruct src as [|c1 [|c2 rest]]; cbn;
    repeat match goal with
           | |- context [if ?c then _ else _] => destruct c; cbn
           end; eauto.
Qed.

Lemma digit_run_total l :
  exists stream l1, digit_run l = OK (stream, l1).
Proof.
  unfold digit_run.
  destruct (lex_num_prefix_total l) as (s0 & l0 & H0).
  rewrite (bind_OK _ _ _ _ _ H0). unfold bind at 1. cbn [get].
  destruct (num_while_total (S (S (List.length (source l0)))) s0 l0)
    as (s1 & l1 & H1 & _).
  { right. lia. }
  eauto.
Qed.

(* utils.cpp:153-164, on the state the digit run leaves *)
Lemma lex_num_suffix_eq l :
  lex_num_suffix l =
  OK (T_NUMBER,
      if is_num_suffix (last_char l)
      then set_last_char (hd EOF (source l))
             (set_source (tl (source l)) (set_num_type (last_char l) l))
      else set_num_type (if num_has_dot l then ch "d" else ch "i") l).
Proof.
  unfold lex_num_suffix, bind at 1. cbn [get].
  destruct (is_num_suffix (last_char l)).
  - unfold bind, modify. rewrite advance_eq. reflexivity.
  - destruct (num_has_dot l); reflexivity.
Qed.

(* On a digit, next_token is the number branch. *)
Lemma next_token_number l :
  isdigit (last_char l) = true -> next_token keywords l = lex_number l.
Proof.
  intros Hd. unfold next_token. cbn [next_token_fuel].
  unfold bind at 1. cbn [get]. unfold bind at 1.
  cbn [skip_space]. unfold bind at 1. cbn [get].
  rewrite (isdigit_not_space _ Hd). cbn [ret].
  unfold bind at 1. cbn [get].
  pose proof (proj1 (isdigit_range _) Hd) as Hr.
  replace (last_char l =? EOF) with false
    by (symmetry; apply Z.eqb_neq; unfold EOF; lia).
  rewrite (isdigit_not_alpha _ Hd).
  replace (last_char l =? ch "_") with false
    by (symmetry; apply Z.eqb_neq; cbn; lia).
  cbn [orb]. rewrite Hd. reflexivity.
Qed.

End LexerFacts.

(** ** Escapes (C5) *)

Section Escapes.
Import Lexer.

Lemma xtoi_decimal c : isdigit c = true -> xtoi c = c - 48.
Proof.
  intros H. apply isdigit_range in H. unfold xtoi.
  replace (c <=? ch "9") with true; [reflexivity|].
  symmetry. apply Z.leb_le. cbn. lia.
Qed.

(* the letters A..F and a..f count from 0, not from 10 *)
Lemma xtoi_upper c : 65 <= c <= 70 -> xtoi c = c - 65.
Proof.
  intros H. unfold xtoi.
  replace (c <=? ch "9") with false by (symmetry; apply Z.leb_gt; cbn; lia).
  replace (c <=? ch "F") with true by (symmetry; apply Z.leb_le; cbn; lia).
  reflexivity.
Qed.

Lemma xtoi_lower c : 97 <= c <= 102 -> xtoi c = c - 97.
Proof.
  intros H. unfold xtoi.
  replace (c <=? ch "9") with false by (symmetry; apply Z.leb_gt; cbn; lia).
  replace (c <=? ch "F") with false by (symmetry; apply Z.leb_gt; cbn; lia).
  reflexivity.
Qed.

Lemma get_escape_x l :
  get_escape (ch "x") l =
  (first <- next_char ;;
   second <- next_char ;;
   when (negb (isxdigit first) || negb (isxdigit second))
     then error "Expected two hex digits after \x" ;;;
   ret (to_char (Z.shiftl (xtoi first) 4 + xtoi second))) l.
Proof. reflexivity. Qed.

(* \xHH takes the two characters after the x off the source, and for
   decimal digits yields the byte HH. *)
Lemma get_escape_x_decimal l h1 h2 rest :
  source l = h1 :: h2 :: rest ->
  isdigit h1 = true -> isdigit h2 = true ->
  get_escape (ch "x") l =
    OK (to_char (16 * (h1 - 48) + (h2 - 48)), set_source rest l) /\
  byte_of (to_char (16 * (h1 - 48) + (h2 - 48))) = 16 * (h1 - 48) + (h2 - 48).
Proof.
  intros Hs H1 H2. split.
  - rewrite get_escape_x.
    destruct l as [src lc ids cv nv nb nd nt sv sty]. cbn in Hs. subst src.
    unfold bind, next_char. cbn [source set_source].
    unfold isxdigit. rewrite H1, H2. cbn [orb negb ret].
    rewrite !xtoi_decimal by assumption.
    rewrite Z.shiftl_mul_pow2 by lia.
    replace ((h1 - 48) * 2 ^ 4) with (16 * (h1 - 48)) by lia.
    reflexivity.
  - apply isdigit_range in H1, H2. unfold byte_of, to_char.
    set (n := 16 * (h1 - 48) + (h2 - 48)).
    assert (0 <= n < 256) by (unfold n; lia).
    destruct (Z_lt_le_dec n 128).
    + rewrite (Z.mod_small (n + 128)) by lia.
      replace (n + 128 - 128) with n by lia. apply Z.mod_small. lia.
    + replace (n + 128) with (n - 128 + 1 * 256) by lia.
      rewrite Z.mod_add by lia. rewrite (Z.mod_small (n - 128)) by lia.
      replace (n - 128 - 128) with (n + (-1) * 256) by lia.
      rewrite Z.mod_add by lia. apply Z.mod_small. lia.
Qed.

(* for any two hex digits the two characters are taken and the byte is
   16 * xtoi h1 + xtoi h2, with xtoi as above *)
Lemma get_escape_x_hex l h1 h2 rest :
  source l = h1 :: h2 :: rest ->
  isxdigit h1 = true -> isxdigit h2 = true ->
  get_escape (ch "x") l =
    OK (to_char (16 * xtoi h1 + xtoi h2), set_source rest l).
Proof.
  intros Hs H1 H2. rewrite get_escape_x.
  destruct l as [src lc ids cv nv nb nd nt sv sty]. cbn in Hs. subst src.
  unfold bind, next_char. cbn [source set_source].
  rewrite H1, H2. cbn [orb negb ret].
  rewrite Z.shiftl_mul_pow2 by lia.
  replace (xtoi h1 * 2 ^ 4) with (16 * xtoi h1) by lia.
  reflexivity.
Qed.

(* a character after \x that is no hex digit is a fatal error *)
Lemma get_escape_x_not_hex l :
  isxdigit (hd EOF (source l)) = false \/
  isxdigit (hd EOF (tl (source l))) = false ->
  get_escape (ch "x") l = Error "Expected two hex digits after \x".
Proof.
  intros H. rewrite get_escape_x.
  destruct l as [src lc ids cv nv nb nd nt sv sty].
  unfold bind, next_char. cbn [source set_source] in *.
  destruct src as [|c1 [|c2 rest]]; cbn [hd tl source set_source] in *;
    destruct H as [H|H]; rewrite ?H; cbn; try reflexivity;
    destruct (isxdigit c1); cbn; try reflexivity; try discriminate.
Qed.

(** C5: on the escape \x1F the lexer takes exactly the two hex digits, and
    the byte it yields is 0x15 (21), not 0x1F (31): xtoi counts the letter
    digits from 0.  The same holds inside a string literal. *)
Theorem hex_escape_of_letter_digit :
  get_escape (ch "x") (start (chars "1F")) = OK (21, start []) /\
  byte_of 21 <> 16 * 1 + 15 /\
  (forall keywords,
     exists l, next_token keywords (start (34 :: chars "\x1F" ++ [34]))
               = OK (T_STRING, l) /\
               string_value l = [21] /\ source l = []).
Proof.
  split; [reflexivity|]. split; [cbv; discriminate|].
  intros keywords. eexists. split; [vm_compute; reflexivity|].
  split; reflexivity.
Qed.

End Escapes.

(** ** Number literals (C7, C6) *)

Section Numbers.
Import Lexer.

(* What next_token does on a digit, in terms of the state [l1] that the
   digit run leaves. *)
Lemma next_token_on_digit keywords l :
  isdigit (last_char l) = true ->
  exists stream l1,
    digit_run l = OK (stream, l1) /\
    next_token keywords l =
    OK (T_NUMBER,
        if is_num_suffix (last_char l1)
        then set_last_char (hd EOF (source l1))
               (set_source (tl (source l1))
                  (set_num_type (last_char l1) (set_num_value stream l1)))
        else set_num_type (if num_has_dot l1 then ch "d" else ch "i")
               (set_num_value stream l1)).
Proof.
  intros Hd. rewrite (next_token_number keywords l Hd).
  destruct (digit_run_total l) as (stream & l1 & Hrun).
  exists stream, l1. split; [exact Hrun|].
  unfold lex_number. rewrite (bind_OK _ _ _ _ _ Hrun).
  unfold bind at 1. cbn [modify]. rewrite lex_num_suffix_eq.
  reflexivity.
Qed.

(* utils.cpp:137-151: the digit loop takes off the text in front of the
   lexer its longest run of digits of the base, with one dot at most *)
Lemma num_while_run fuel : forall stream l text stream' l',
  last_char l = hd EOF text -> source l = tl text ->
  num_while fuel stream l = OK (stream', l') ->
  exists digits rest,
    text = (digits ++ rest)%list /\
    stream' = (stream ++ digits)%list /\
    last_char l' = hd EOF rest /\ source l' = tl rest /\
    num_base l' = num_base l /\
    num_has_dot l' = num_has_dot l || existsb (fun c => c =? ch ".") digits /\
    forallb (fun c => negb (not_digit_of (num_base l) c)) digits = true /\
    (not_digit_of (num_base l) (hd EOF rest) = true \/
     hd EOF rest = ch "." /\ num_has_dot l' = true).
Proof.
  induction fuel as [|fuel IH]; intros stream l text stream' l' Hc Hs H;
    [discriminate|].
  cbn [num_while] in H. unfold bind at 1 in H. cbn [get] in H.
  destruct (not_digit_of (num_base l) (last_char l)) eqn:Hnd.
  { injection H as <- <-. exists [], text. rewrite app_nil_r, orb_false_r.
    rewrite <- Hc. repeat split; auto. }
  destruct ((last_char l =? ch ".") && num_has_dot l) eqn:Hdot.
  { injection H as <- <-. exists [], text. rewrite app_nil_r, orb_false_r.
    apply andb_true_iff in Hdot. destruct Hdot as [Hd1 Hd2].
    apply Z.eqb_eq in Hd1. rewrite <- Hc.
    repeat split; auto. }
  destruct text as [|c text].
  { cbn [hd] in Hc. rewrite Hc, EOF_not_digit in Hnd. discriminate. }
  cbn [hd tl] in Hc, Hs.
  set (l1 := if last_char l =? ch "." then set_num_has_dot true l else l) in *.
  assert (Hl1 : source l1 = source l /\ num_base l1 = num_base l /\
                num_has_dot l1 = num_has_dot l || (last_char l =? ch ".")).
  { unfold l1. destruct (last_char l =? ch ".");
      [|rewrite orb_false_r; auto].
    rewrite orb_true_r. destruct l; auto. }
  destruct Hl1 as (Hs1 & Hb1 & Hd1).
  assert (Hstep :
    (bind (if last_char l =? ch "." then modify (set_num_has_dot true)
           else ret tt)
       (fun _ => bind advance
          (fun _ => num_while fuel (stream ++ [last_char l])))) l
    = num_while fuel (stream ++ [last_char l])
        (set_last_char (hd EOF (source l1)) (set_source (tl (source l1)) l1))).
  { unfold bind at 1. unfold l1.
    destruct (last_char l =? ch "."); cbn [modify ret];
      unfold bind; rewrite advance_eq; reflexivity. }
  rewrite Hstep in H. clear Hstep.
  apply (IH _ _ text) in H.
  - destruct H as (digits & rest & Ht & Hst & Hlc & Hsrc & Hb & Hd & Hall & Hstop).
    cbn [num_base num_has_dot set_last_char set_source] in Hb, Hd, Hall, Hstop.
    rewrite Hb1 in Hb, Hall, Hstop. rewrite Hd1 in Hd.
    exists (c :: digits), rest. rewrite Hc in *.
    split; [cbn; rewrite Ht; reflexivity|].
    split; [rewrite Hst, <- app_assoc; reflexivity|].
    split; [exact Hlc|]. split; [exact Hsrc|]. split; [exact Hb|].
    split; [cbn [existsb]; rewrite Hd, orb_assoc; reflexivity|].
    split; [cbn [forallb]; rewrite Hnd, Hall; reflexivity|].
    exact Hstop.
  - cbn [last_char set_last_char set_source]. rewrite Hs1, Hs. reflexivity.
  - cbn [source set_last_char set_source]. rewrite Hs1, Hs.
    destruct l1; reflexivity.
Qed.

(* a digit of the base 16, 8 or 2 is no dot *)
Lemma base_digits_have_no_dot base digits :
  base = 16 \/ base = 8 \/ base = 2 ->
  forallb (fun c => negb (not_digit_of base c)) digits = true ->
  existsb (fun c => c =? ch ".") digits = false.
Proof.
  intros Hb. induction digits as [|c digits IH]; [reflexivity|].
  cbn [forallb existsb]. intros H. apply andb_true_iff in H.
  destruct H as [Hc Hall]. rewrite (IH Hall), orb_false_r.
  destruct (c =? ch ".") eqn:E; [|reflexivity].
  apply Z.eqb_eq in E. subst c.
  destruct Hb as [->|[->| ->]]; discriminate Hc.
Qed.

(* utils.cpp:119-151 on a literal with a base prefix: the first digit, the
   0 of the prefix, is streamed before the prefix is looked at *)
Lemma digit_run_prefixed l p rest :
  last_char l = ch "0" -> source l = p :: rest ->
  p = ch "x" \/ p = ch "b" \/ p = ch "o" ->
  let base := if p =? ch "x" then 16 else if p =? ch "b" then 2 else 8 in
  exists digits rest' l1,
    rest = (digits ++ rest')%list /\
    digit_run l = OK (ch "0" :: digits, l1) /\
    last_char l1 = hd EOF rest' /\ source l1 = tl rest' /\
    num_base l1 = base /\ num_has_dot l1 = false /\
    forallb (fun c => negb (not_digit_of base c)) digits = true /\
    not_digit_of base (hd EOF rest') = true.
Proof.
  intros Hc Hs Hp base.
  set (l0 := set_last_char (hd EOF rest)
               (set_source (tl rest)
                  (set_num_base base (set_num_has_dot false l)))).
  assert (Hprefix : lex_num_prefix l = OK ([ch "0"], l0)).
  { destruct l as [src lc ids cv nv nb nd nt sv sty].
    cbn [last_char source] in Hc, Hs. subst lc src. subst l0 base.
    unfold lex_num_prefix, advance, next_char, bind, modify, get, ret.
    destruct Hp as [->|[->| ->]]; destruct rest; reflexivity. }
  unfold digit_run. rewrite (bind_OK _ _ _ _ _ Hprefix).
  unfold bind at 1. cbn [get].
  destruct (num_while_total (S (S (List.length (source l0)))) [ch "0"] l0)
    as (stream' & l1 & Hrun & _); [right; lia|].
  rewrite Hrun.
  assert (Hlc0 : last_char l0 = hd EOF rest) by (destruct l; reflexivity).
  assert (Hsrc0 : source l0 = tl rest) by (destruct l; reflexivity).
  destruct (num_while_run _ _ _ rest _ _ Hlc0 Hsrc0 Hrun)
    as (digits & rest' & Ht & Hst & Hlc & Hsrc & Hb & Hd & Hall & Hstop).
  assert (Hbase : num_base l0 = base) by (destruct l; reflexivity).
  assert (Hdot0 : num_has_dot l0 = false) by (destruct l; reflexivity).
  rewrite Hbase in *. rewrite Hdot0 in Hd. cbn [orb] in Hd.
  assert (Hb3 : base = 16 \/ base = 8 \/ base = 2).
  { subst base. destruct Hp as [->|[->| ->]]; cbn; auto. }
  rewrite (base_digits_have_no_dot base digits Hb3 Hall) in Hd.
  exists digits, rest', l1. subst stream'.
  repeat split; auto.
  destruct Hstop as [Hstop|[Hdot _]]; [exact Hstop|].
  rewrite Hdot. destruct Hb3 as [->|[->| ->]]; reflexivity.
Qed.

(* utils.cpp:119-151 on a literal without a base prefix *)
Lemma digit_run_decimal l :
  last_char l <> ch "0" \/
  (hd EOF (source l) <> ch "x" /\ hd EOF (source l) <> ch "b" /\
   hd EOF (source l) <> ch "o") ->
  exists digits rest' l1,
    source l = (digits ++ rest')%list /\
    digit_run l = OK (last_char l :: digits, l1) /\
    last_char l1 = hd EOF rest' /\ source l1 = tl rest' /\
    num_base l1 = 10 /\
    num_has_dot l1 = existsb (fun c => c =? ch ".") digits /\
    forallb (fun c => negb (not_digit_of 10 c)) digits = true.
Proof.
  intros Hp.
  set (l0 := set_last_char (hd EOF (source l))
               (set_source (tl (source l))
                  (set_num_base 10 (set_num_has_dot false l)))).
  assert (Hprefix : lex_num_prefix l = OK ([last_char l], l0)).
  { destruct l as [src lc ids cv nv nb nd nt sv sty].
    cbn [last_char source] in Hp. subst l0.
    unfold lex_num_prefix, advance, next_char, bind, modify, get, ret.
    cbn [last_char source set_num_has_dot set_last_char set_source].
    destruct (lc =? ch "0") eqn:E0.
    - apply Z.eqb_eq in E0. destruct Hp as [Hp|(Hx & Hb & Ho)];
        [contradiction|].
      apply Z.eqb_neq in Hx, Hb, Ho.
      destruct src as [|c1 src]; cbn in Hx, Hb, Ho |- *;
        rewrite ?Hx, ?Hb, ?Ho; reflexivity.
    - destruct src; reflexivity. }
  unfold digit_run. rewrite (bind_OK _ _ _ _ _ Hprefix).
  unfold bind at 1. cbn [get].
  destruct (num_while_total (S (S (List.length (source l0)))) [last_char l] l0)
    as (stream' & l1 & Hrun & _); [right; lia|].
  rewrite Hrun.
  assert (Hlc0 : last_char l0 = hd EOF (source l)) by (destruct l; reflexivity).
  assert (Hsrc0 : source l0 = tl (source l)) by (destruct l; reflexivity).
  destruct (num_while_run _ _ _ (source l) _ _ Hlc0 Hsrc0 Hrun)
    as (digits & rest' & Ht & Hst & Hlc & Hsrc & Hb & Hd & Hall & _).
  assert (Hbase : num_base l0 = 10) by (destruct l; reflexivity).
  assert (Hdot0 : num_has_dot l0 = false) by (destruct l; reflexivity).
  rewrite Hbase in *. rewrite Hdot0 in Hd. cbn [orb] in Hd.
  exists digits, rest', l1. subst stream'. repeat split; auto.
Qed.

(** C7, the claim as it is written, fails on its first token: the digit
    text of 0x1F keeps the leading 0 of the prefix, it is 01F and not 1F. *)
Lemma hex_literal_keeps_leading_zero :
  exists l,
    next_token (fun _ => 0) (start (chars "0x1F 42 3.14 7u 8b 9l 2.5f"))
      = OK (T_NUMBER, l) /\
    number_payload l = (chars "01F", 16, false, ch "i") /\
    number_payload l <> (chars "1F", 16, false, ch "i").
Proof.
  eexists. split; [vm_compute; reflexivity|].
  split; [reflexivity | cbv; discriminate].
Qed.

(** C7 (amended): on a digit next_token yields NUMBER; after the digit run
    it takes at most one character off the source, a suffix among d, f, i,
    u, l, b, which becomes num_type; without a suffix num_type is d for a
    literal with a dot and i otherwise, and nothing is taken.  The inputs
    0x1F 42 3.14 7u 8b 9l 2.5f give seven NUMBER tokens with the payloads
    (01F,16,false,i), (42,10,false,i), (3.14,10,true,d), (7,10,false,u),
    (8,10,false,b), (9,10,false,l), (2.5,10,true,f).  The digit text of a
    prefixed literal keeps the leading 0 of the prefix: for 0x, 0b or 0o
    followed by the longest run of digits of the base 16, 2 or 8, num_value
    is 0 followed by these digits; the digit text of a literal without a
    prefix is its first digit followed by the longest run of decimal digits
    with one dot at most. *)
Theorem number_suffix_and_default :
  (forall (keywords : list Z -> Z) (l : lexer),
     isdigit (last_char l) = true ->
     exists stream l1 l2,
       digit_run l = OK (stream, l1) /\
       next_token keywords l = OK (T_NUMBER, l2) /\
       num_value l2 = stream /\
       num_base l2 = num_base l1 /\
       num_has_dot l2 = num_has_dot l1 /\
       if is_num_suffix (last_char l1)
       then num_type l2 = last_char l1 /\
            source l2 = tl (source l1) /\ last_char l2 = hd EOF (source l1)
       else num_type l2 = (if num_has_dot l1 then ch "d" else ch "i") /\
            source l2 = source l1 /\ last_char l2 = last_char l1) /\
  (forall keywords : list Z -> Z,
     number_tokens keywords 7 (start (chars "0x1F 42 3.14 7u 8b 9l 2.5f")) =
       [Some (T_NUMBER, (chars "01F", 16, false, ch "i"));
        Some (T_NUMBER, (chars "42", 10, false, ch "i"));
        Some (T_NUMBER, (chars "3.14", 10, true, ch "d"));
        Some (T_NUMBER, (chars "7", 10, false, ch "u"));
        Some (T_NUMBER, (chars "8", 10, false, ch "b"));
        Some (T_NUMBER, (chars "9", 10, false, ch "l"));
        Some (T_NUMBER, (chars "2.5", 10, true, ch "f"))]) /\
  (forall (keywords : list Z -> Z) (l : lexer) (p : Z) (rest : list Z),
     last_char l = ch "0" -> source l = p :: rest ->
     p = ch "x" \/ p = ch "b" \/ p = ch "o" ->
     exists digits rest' l2,
       rest = (digits ++ rest')%list /\
       next_token keywords l = OK (T_NUMBER, l2) /\
       num_value l2 = ch "0" :: digits /\
       num_base l2 =
         (if p =? ch "x" then 16 else if p =? ch "b" then 2 else 8) /\
       num_has_dot l2 = false /\
       forallb (fun c => negb (not_digit_of (num_base l2) c)) digits = true /\
       not_digit_of (num_base l2) (hd EOF rest') = true) /\
  (forall (keywords : list Z -> Z) (l : lexer),
     isdigit (last_char l) = true ->
     last_char l <> ch "0" \/
     (hd EOF (source l) <> ch "x" /\ hd EOF (source l) <> ch "b" /\
      hd EOF (source l) <> ch "o") ->
     exists digits rest' l2,
       source l = (digits ++ rest')%list /\
       next_token keywords l = OK (T_NUMBER, l2) /\
       num_value l2 = last_char l :: digits /\
       num_base l2 = 10 /\
       num_has_dot l2 = existsb (fun c => c =? ch ".") digits /\
       forallb (fun c => negb (not_digit_of 10 c)) digits = true).
Proof.
  split; [|split; [intros keywords; vm_compute; reflexivity|split]].
  - intros keywords l Hd.
    destruct (next_token_on_digit keywords l Hd) as (stream & l1 & Hrun & Hnext).
    exists stream, l1. eexists. split; [exact Hrun|]. split; [exact Hnext|].
    destruct (is_num_suffix (last_char l1)); cbn; repeat split; reflexivity.
  - intros keywords l p rest Hc Hs Hp.
    assert (Hd : isdigit (last_char l) = true) by (rewrite Hc; reflexivity).
    destruct (digit_run_prefixed l p rest Hc Hs Hp)
      as (digits & rest' & l1 & Ht & Hrun & _ & _ & Hb & Hdot & Hall & Hstop).
    destruct (next_token_on_digit keywords l Hd) as (stream & l1' & Hrun' & Hnext).
    rewrite Hrun in Hrun'. injection Hrun' as <- <-.
    exists digits, rest'. eexists. split; [exact Ht|]. split; [exact Hnext|].
    destruct (is_num_suffix (last_char l1)); destruct l1;
      cbn in Hb, Hdot |- *; subst; repeat split; assumption.
  - intros keywords l Hd Hp.
    destruct (digit_run_decimal l Hp)
      as (digits & rest' & l1 & Ht & Hrun & _ & _ & Hb & Hdot & Hall).
    destruct (next_token_on_digit keywords l Hd) as (stream & l1' & Hrun' & Hnext).
    rewrite Hrun in Hrun'. injection Hrun' as <- <-.
    exists digits, rest'. eexists. split; [exact Ht|]. split; [exact Hnext|].
    destruct (is_num_suffix (last_char l1)); destruct l1;
      cbn in Hb, Hdot |- *; subst; repeat split; assumption.
Qed.

Lemma number_suffix_and_default_witness :
  (exists l2,
     next_token (fun _ => 0) (lexer_at "7u 8b") = OK (T_NUMBER, l2) /\
     num_type l2 = ch "u" /\ source l2 = chars "8b") /\
  (exists digits rest' l2,
     chars "17 " = (digits ++ rest')%list /\
     next_token (fun _ => 0) (lexer_at "0o17 ") = OK (T_NUMBER, l2) /\
     num_value l2 = ch "0" :: digits /\
     num_base l2 = 8 /\
     num_has_dot l2 = false /\
     forallb (fun c => negb (not_digit_of (num_base l2) c)) digits = true /\
     not_digit_of (num_base l2) (hd EOF rest') = true).
Proof.
  split.
  - destruct (proj1 number_suffix_and_default (fun _ => 0) (lexer_at "7u 8b")
                eq_refl)
      as (stream & l1 & l2 & Hrun & Hnext & _ & _ & _ & Hsuffix).
    exists l2. split; [exact Hnext|].
    vm_compute in Hrun. injection Hrun as _ <-.
    cbn in Hsuffix. destruct Hsuffix as (Ht & Hs & _). split; assumption.
  - apply (proj1 (proj2 (proj2 number_suffix_and_default)) (fun _ => 0)
             (lexer_at "0o17 ") (ch "o") (chars "17 "));
      [reflexivity | reflexivity | right; right; reflexivity].
Defined.

(** C6, the claim as it is written, fails: the lexer takes 0b1f, a literal
    of base 2 with the floating suffix f, and returns a NUMBER token; it
    reports no error. *)
Lemma lexer_accepts_nondecimal_float :
  exists l,
    next_token (fun _ => 0) (start (chars "0b1f")) = OK (T_NUMBER, l) /\
    number_payload l = (chars "01", 2, false, ch "f") /\
    forall msg, next_token (fun _ => 0) (start (chars "0b1f")) <> Error msg.
Proof.
  eexists. split; [vm_compute; reflexivity|].
  split; [reflexivity|]. intros msg. vm_compute. discriminate.
Qed.

(* a floating type and a base other than 10: the node fails when emitted *)
Lemma number_gen_value_nondecimal_float val base bits is_signed c :
  base <> 10 ->
  AST.gen_value (AST.NumberExprAST val base (NumType bits true is_signed)) c =
  Error "floating-point numbers with a base that isn't decimal aren't supported.".
Proof.
  intros Hb. cbn [AST.gen_value].
  apply Z.eqb_neq in Hb. rewrite Hb. reflexivity.
Qed.

(** C6 (amended): the lexer reports no error for a number literal, whatever
    its base and suffix: on a digit next_token returns NUMBER.  A literal
    whose base is not 10 and whose num_type is floating (d or f) is
    rejected later: its node is constructed, and emitting the node is the
    fatal error. *)
Theorem nondecimal_float_rejected_at_emission :
  forall (keywords : list Z -> Z) (l : lexer),
    isdigit (last_char l) = true ->
    exists l',
      next_token keywords l = OK (T_NUMBER, l') /\
      (num_base l' <> 10 ->
       num_type l' = ch "d" \/ num_type l' = ch "f" ->
       forall c, exists e,
         AST.new_NumberExprAST (text_of (num_value l')) (num_type l')
                               (num_has_dot l') (num_base l') c = OK (e, c) /\
         forall c', AST.gen_value e c' =
           Error "floating-point numbers with a base that isn't decimal aren't supported.").
Proof.
  intros keywords l Hd.
  destruct (next_token_on_digit keywords l Hd) as (stream & l1 & _ & Hnext).
  eexists. split; [exact Hnext|].
  intros Hbase Hty c.
  unfold AST.new_NumberExprAST, AST.num_char_to_type.
  destruct Hty as [Hty|Hty]; rewrite Hty; cbn -[AST.gen_value text_of];
    eexists; (split; [reflexivity|]); intros c';
    apply number_gen_value_nondecimal_float; exact Hbase.
Qed.

Lemma nondecimal_float_rejected_at_emission_witness :
  exists l' e,
    next_token (fun _ => 0) (lexer_at "0b1f") = OK (T_NUMBER, l') /\
    number_payload l' = (chars "01", 2, false, ch "f") /\
    AST.new_NumberExprAST "01" (ch "f") false 2
      (mk_compiler [] None 0 [] [] 64 [] [] []) =
      OK (e, mk_compiler [] None 0 [] [] 64 [] [] []) /\
    AST.gen_value e (mk_compiler [] None 0 [] [] 64 [] [] []) =
      Error "floating-point numbers with a base that isn't decimal aren't supported.".
Proof.
  destruct (nondecimal_float_rejected_at_emission (fun _ => 0)
              (lexer_at "0b1f") eq_refl) as (l' & Hnext & Hrej).
  assert (Hl : number_payload l' = (chars "01", 2, false, ch "f")).
  { vm_compute in Hnext. injection Hnext as <-. reflexivity. }
  assert (Hb : num_base l' <> 10).
  { unfold number_payload in Hl. injection Hl as _ Hb _ _.
    rewrite Hb. discriminate. }
  assert (Ht : num_type l' = ch "d" \/ num_type l' = ch "f").
  { unfold number_payload in Hl. injection Hl as _ _ _ Ht. right. exact Ht. }
  destruct (Hrej Hb Ht (mk_compiler [] None 0 [] [] 64 [] [] []))
    as (e & Hnew & Hgen).
  exists l', e. split; [exact Hnext|]. split; [exact Hl|].
  unfold number_payload in Hl. injection Hl as Hv Hb' Hd' Ht'.
  rewrite Hv, Hb', Hd', Ht' in Hnew. split; [exact Hnew | apply Hgen].
Defined.

End Numbers.

(** ** Types *)

(* structural equality holds of a type and itself *)
Fixpoint eq_reflexive (t : Typ) : Types.eq t t = true.
Proof.
  destruct t as [bits fl sg | p | ts | e n | name fs | r args v | ];
    cbn [Types.eq].
  - rewrite Z.eqb_refl, !Bool.eqb_reflx. reflexivity.
  - apply eq_reflexive.
  - induction ts as [|x ts IH]; [reflexivity|].
    rewrite (eq_reflexive x). exact IH.
  - rewrite (eq_reflexive e), Z.eqb_refl. reflexivity.
  - induction fs as [|[n x] fs IH]; [reflexivity|].
    rewrite String.eqb_refl, (eq_reflexive x). exact IH.
  - rewrite (eq_reflexive r), Bool.eqb_reflx.
    assert (H : (fix eq_all (l r0 : list Typ) {struct l} : bool :=
                   match l, r0 with
                   | [], [] => true
                   | x :: l', y :: r' => Types.eq x y && eq_all l' r'
                   | _, _ => false
                   end) args args = true).
    { induction args as [|x args IH]; [reflexivity|].
      rewrite (eq_reflexive x). exact IH. }
    rewrite H. reflexivity.
  - reflexivity.
Qed.

Lemma neq_irreflexive t : Types.neq t t = false.
Proof. unfold Types.neq. rewrite eq_reflexive. reflexivity. Qed.

(** ** Values and casts (C9, C10) *)

Section Casts.
Import Values.

Lemma build_eq i c :
  build i c =
  OK (Instr (next_id c),
      set_next_id (S (next_id c))
        (set_blocks (place (insert_point c) (next_id c, i) (blocks c)) c)).
Proof. reflexivity. Qed.

(* a value with an address yields it; only names are recorded on the way *)
Lemma gen_ptr_of_has_ptr v : forall c,
  has_ptr v = true ->
  exists ptr c', gen_ptr v c = OK (ptr, c') /\
                 blocks c' = blocks c /\ next_id c' = next_id c /\
                 insert_point c' = insert_point c /\
                 pointer_bits c' = pointer_bits c.
Proof.
  induction v as [t x | t p x | b f s x | t f | t x | src _ to | val IH name |];
    intros c H; cbn in H; try discriminate;
    try (cbn; eexists; eexists; repeat split; reflexivity).
  destruct (IH c H) as (ptr & c' & Hp & Hb & Hn & Hi & Hw).
  cbn [gen_ptr]. rewrite (bind_OK _ _ _ _ _ Hp).
  cbn. eexists. eexists. repeat split; assumption.
Qed.

Lemma gen_ptr_without_ptr v : forall c,
  has_ptr v = false -> exists msg, gen_ptr v c = Error msg.
Proof.
  induction v as [t x | t p x | b f s x | t f | t x | src _ to | val IH name |];
    intros c H; cbn in H; try discriminate;
    try (eexists; reflexivity).
  destruct (IH c H) as (msg & Hm). exists msg.
  cbn [gen_ptr]. apply bind_Error. exact Hm.
Qed.

(* loading a cast of an array to a pointer is gen_arr_cast *)
Lemma cast_of_array v T N U c :
  get_type v = ArrayType T N ->
  gen_val (cast_to v (PointerType U)) c = gen_arr_cast v T N (PointerType U) c.
Proof.
  intros Ht. cbn [cast_to gen_val]. unfold cast_from.
  destruct v; try discriminate Ht; cbn [is_null]; unfold bind at 1;
    cbn [ret]; rewrite Ht; reflexivity.
Qed.

(** C9: loading the cast of a value of type Array(T, N) to Pointer(U)
    succeeds exactly when U equals T and the value has an address; it then
    builds one GEP on the type of the array, into that address, with two
    zero indices.  With a different element type it is the fatal error of
    the type mismatch, and with an equal one and no address the fatal error
    of the constant array. *)
Theorem array_to_pointer_cast :
  forall (v : Value) (T U : Typ) (N : Z) (c : compiler),
    get_type v = ArrayType T N ->
    let zero := LLVMConstInt (llvm_type (NumType_of_target false c)) 0 false in
    is_ok (gen_val (cast_to v (PointerType U)) c) = Types.eq U T && has_ptr v /\
    (Types.eq U T = true -> has_ptr v = true ->
     exists ptr c1,
       gen_ptr v c = OK (ptr, c1) /\
       gen_val (cast_to v (PointerType U)) c =
       OK (Instr (next_id c),
           set_next_id (S (next_id c))
             (set_blocks
                (place (insert_point c)
                   (next_id c,
                    LLVMBuildGEP2 (llvm_type (ArrayType T N)) ptr [zero; zero] "")
                   (blocks c)) c1))) /\
    (Types.eq U T = false ->
     gen_val (cast_to v (PointerType U)) c =
     Error "Array can't be casted to pointer with different type") /\
    (Types.eq U T = true -> has_ptr v = false ->
     gen_val (cast_to v (PointerType U)) c =
     Error "const arrays can't be automatically casted to a pointer to their elements.").
Proof.
  intros v T U N c Ht zero. rewrite (cast_of_array v T N U c Ht).
  unfold gen_arr_cast, Types.neq.
  destruct (Types.eq U T) eqn:He; cbn [negb andb].
  - destruct (has_ptr v) eqn:Hp; cbn [negb].
    + destruct (gen_ptr_of_has_ptr v c Hp) as (ptr & c1 & Hg & Hb & Hn & Hi & Hw).
      assert (Hrun :
        gen_arr_cast v T N (PointerType U) c =
        build (LLVMBuildGEP2 (llvm_type (ArrayType T N)) ptr [zero; zero] "") c1).
      { unfold gen_arr_cast, Types.neq. rewrite He, Hp. cbn [negb].
        unfold bind at 1. cbn [ret]. unfold bind at 1. cbn [ret].
        unfold bind at 1. cbn [get]. rewrite (bind_OK _ _ _ _ _ Hg).
        reflexivity. }
      unfold gen_arr_cast, Types.neq in Hrun. rewrite He, Hp in Hrun.
      cbn [negb] in Hrun. rewrite Hrun, build_eq, Hb, Hn, Hi.
      split; [reflexivity|]. split.
      * intros _ _. exists ptr, c1. split; [exact Hg | reflexivity].
      * split; intros; discriminate.
    + split; [reflexivity|]. split; [intros; discriminate|].
      split; [intros; discriminate|]. intros _ _. reflexivity.
  - split; [reflexivity|]. split; [intros; discriminate|].
    split; [reflexivity | intros; discriminate].
Qed.

Lemma array_to_pointer_cast_witness :
  exists c1,
    gen_val (cast_to (BasicLoadValue (ArrayType I32 4) (GlobalVar "arr" 0))
                     (PointerType I32)) (in_function [] []) = OK (Instr 0, c1) /\
    emitted c1 =
      [[(O, LLVMBuildGEP2 (LLVMArrayType (LLVMIntType 32) 4) (GlobalVar "arr" 0)
              [LLVMConstInt (LLVMIntType 64) 0 false;
               LLVMConstInt (LLVMIntType 64) 0 false] "")]].
Proof.
  destruct (array_to_pointer_cast
              (BasicLoadValue (ArrayType I32 4) (GlobalVar "arr" 0))
              I32 I32 4 (in_function [] []) eq_refl)
    as (_ & Hok & _ & _).
  destruct (Hok eq_refl eq_refl) as (ptr & c1 & Hp & Hrun).
  cbn in Hp. injection Hp as <- <-.
  eexists. split; [exact Hrun | reflexivity].
Defined.

(** C10: for every value v and every type t, v.cast_to(t) is a value of
    type t without an address, whatever v is: has_ptr() is false and
    gen_ptr() is the fatal error of the cast; building it cannot fail,
    loading it is the coercion cast(v, t), and there a coercion that is not
    allowed fails, also for a source that has an address. *)
Theorem cast_value_has_no_address :
  forall (v : Value) (t : Typ),
    get_type (cast_to v t) = t /\
    has_ptr (cast_to v t) = false /\
    (forall c, gen_ptr (cast_to v t) c = Error "Can't get the pointer to a cast") /\
    (forall c, gen_val (cast_to v t) c = cast v t c) /\
    (let source := BasicLoadValue (StructType "S" [("f", I32)]) (GlobalVar "s" 0) in
     has_ptr source = true /\
     has_ptr (cast_to source I32) = false /\
     gen_val (cast_to source I32) (in_function [] []) = Error "Invalid cast").
Proof.
  intros v t. repeat split; reflexivity.
Qed.

End Casts.

(** ** The AST: construction (C8, C1) *)

Section Construction.
Import AST.

(** C8: an if expression built without an else arm gets for else arm the
    null expression of the type of the then arm, and is built; with an else
    arm whose type is not structurally equal to the type of the then arm
    the construction is a fatal error, and with one of an equal type the
    node is built with that arm. *)
Theorem if_else_arm_default_and_check :
  forall (cond then_ elze : ExprAST) (c : compiler),
    new_IfExprAST cond then_ None c =
      OK (IfExprAST cond then_ (NullExprAST (get_type then_)) (get_type then_), c) /\
    (Types.neq (get_type then_) (get_type elze) = true ->
     new_IfExprAST cond then_ (Some elze) c =
       Error "Error: while's then and else side don't have the same type") /\
    (Types.neq (get_type then_) (get_type elze) = false ->
     new_IfExprAST cond then_ (Some elze) c =
       OK (IfExprAST cond then_ elze (get_type then_), c)).
Proof.
  intros cond then_ elze c. unfold new_IfExprAST, if_constructor.
  split; [|split].
  - unfold bind at 1. unfold bind at 1. cbn [new_NullExprAST ret].
    unfold bind at 1. cbn [get_type]. rewrite neq_irreflexive. reflexivity.
  - intros H. unfold bind at 1. unfold bind at 1. cbn [ret].
    unfold bind at 1. rewrite H. reflexivity.
  - intros H. unfold bind at 1. unfold bind at 1. cbn [ret].
    unfold bind at 1. rewrite H. reflexivity.
Qed.

Lemma if_else_arm_default_and_check_witness :
  new_IfExprAST (BoolExprAST true (NumType 1 false false))
                (NumberExprAST "1" 10 I32) (Some (NumberExprAST "2.0" 10 F64))
                (in_function [] []) =
    Error "Error: while's then and else side don't have the same type".
Proof.
  apply (if_else_arm_default_and_check
           (BoolExprAST true (NumType 1 false false))
           (NumberExprAST "1" 10 I32) (NumberExprAST "2.0" 10 F64)
           (in_function [] [])).
  reflexivity.
Defined.

(* while inherits the constructor, with the same default and check *)
Lemma while_else_arm_default cond then_ c :
  new_WhileExprAST cond then_ None c =
  OK (WhileExprAST cond then_ (NullExprAST (get_type then_)) (get_type then_), c).
Proof.
  unfold new_WhileExprAST, if_constructor.
  unfold bind at 1. unfold bind at 1. cbn [new_NullExprAST ret].
  unfold bind at 1. cbn [get_type]. rewrite neq_irreflexive. reflexivity.
Qed.

(* The type of a binary expression over two numbers that is neither an
   assignment nor a comparison is the type of its left operand, whatever
   the widths. *)
Lemma binary_num_num_result_type op LHS RHS c :
  type_type (get_type LHS) = TT_Number ->
  type_type (get_type RHS) = TT_Number ->
  op <> ch "=" -> binop_precedence op <> 10 ->
  new_BinaryExprAST op LHS RHS c =
  OK (BinaryExprAST op LHS RHS (get_type LHS), c).
Proof.
  intros HL HR Hop Hprec. unfold new_BinaryExprAST.
  apply Z.eqb_neq in Hop, Hprec. rewrite Hop, HL, HR, Hprec. reflexivity.
Qed.

(** C1: for a: i32 and b: i64 the expression a + b is constructed, and its
    result type is the type of the left operand, Number(32, false, true),
    not the wider Number(64, false, true); its emission loads a and b,
    widens a to 64 bits and adds, and the value it returns is given the
    type of 32 bits. *)
Theorem binary_add_i32_i64 :
  exists e c1 v c2,
    (a <- new_VariableExprAST "a" ;;
     b <- new_VariableExprAST "b" ;;
     new_BinaryExprAST (ch "+") a b) abx = OK (e, c1) /\
    get_type e = NumType 32 false true /\
    Types.eq (get_type e) (NumType 64 false true) = false /\
    gen_value e c1 = OK (v, c2) /\
    emitted c2 =
      [[(0%nat, LLVMBuildLoad2 (LLVMIntType 32) (GlobalVar "a" 0));
        (1%nat, LLVMBuildLoad2 (LLVMIntType 64) (GlobalVar "b" 1));
        (2%nat, LLVMBuildIntCast2 (Instr 0) (LLVMIntType 64) true);
        (3%nat, LLVMBuildAdd (Instr 2) (Instr 1))]] /\
    v = ConstValue (NumType 32 false true) (Instr 3).
Proof.
  do 4 eexists. split; [vm_compute; reflexivity|].
  split; [reflexivity|]. split; [reflexivity|].
  split; [vm_compute; reflexivity|]. split; reflexivity.
Qed.

End Construction.

(** ** The AST: emission (C2, C3, C4) *)

Lemma bind_inv {S A B : Type} (m : M S A) (f : A -> M S B) s r :
  bind m f s = OK r -> exists a s1, m s = OK (a, s1) /\ f a s1 = OK r.
Proof.
  unfold bind. destruct (m s) as [[a s1]|msg]; [eauto | discriminate].
Qed.

(* takes a successful run apart, down to its last step *)
Ltac run_inv H :=
  repeat match type of H with
         | bind _ _ _ = OK _ =>
             let a := fresh "a" in
             let s := fresh "s" in
             let E := fresh "E" in
             apply bind_inv in H; destruct H as (a & s & E & H)
         | (if ?b then _ else _) _ = OK _ => destruct b
         | error _ _ = OK _ => discriminate H
         | Error _ = OK _ => discriminate H
         end.

Section Emission.
Import AST.

(* The value of a binary node, assignments included, is given the type the
   node caches. *)
Lemma binary_value_type op LHS RHS type c v c' :
  gen_value (BinaryExprAST op LHS RHS type) c = OK (v, c') ->
  Values.get_type v = type.
Proof.
  intros H. cbn [gen_value] in H.
  destruct (op =? ch "=").
  - run_inv H. injection H as <- _. reflexivity.
  - run_inv H.
    destruct (get_type LHS), (get_type RHS); try discriminate H;
      run_inv H; injection H as <- _; reflexivity.
Qed.

Lemma unary_value_type op operand type c v c' :
  gen_value (UnaryExprAST op operand type) c = OK (v, c') ->
  Values.get_type v = type.
Proof.
  intros H. cbn [gen_value] in H. run_inv H;
    injection H as <- _; reflexivity.
Qed.

Lemma index_value_type value index type c v c' :
  gen_value (IndexExprAST value index type) c = OK (v, c') ->
  Values.get_type v = type.
Proof.
  intros H. cbn [gen_value] in H. run_inv H.
  injection H as <- _. reflexivity.
Qed.

Lemma call_value_type called args s e s' c v c' :
  new_CallExprAST called args s = OK (e, s') ->
  gen_value e c = OK (v, c') ->
  Values.get_type v = get_type e.
Proof.
  intros Hnew H. unfold new_CallExprAST in Hnew.
  apply bind_inv in Hnew. destruct Hnew as (func_t & s1 & _ & Hnew).
  destruct func_t; try discriminate Hnew.
  run_inv Hnew. injection Hnew as <- _.
  cbn [gen_value] in H. run_inv H. injection H as <- _. reflexivity.
Qed.

Lemma cast_value_type value from to c v c' :
  gen_value (CastExprAST value from to) c = OK (v, c') ->
  Values.get_type v = to.
Proof.
  intros H. cbn [gen_value] in H. run_inv H.
  injection H as <- _. reflexivity.
Qed.

(* a let that is not constant yields its slot, of the declared type *)
Lemma mutable_let_value_type id type value global c v c' :
  gen_value (LetExprAST id type value false global) c = OK (v, c') ->
  Values.get_type v = type.
Proof.
  intros H. cbn [gen_value] in H. run_inv H.
  destruct value; run_inv H; injection H as <- _; reflexivity.
Qed.

(* a constant let yields the value of its initializer as it is *)
Lemma constant_let_value id type value global c v c' :
  gen_value (LetExprAST id type (Some value) true global) c = OK (v, c') ->
  exists c1, gen_value value c = OK (v, c1).
Proof.
  intros H. cbn [gen_value] in H. run_inv H.
  injection H as <- _. eauto.
Qed.

(* Whatever the type of the operand: -n subtracts n from the constant 0.0
   of 64 floating bits, and !n compares n with the constant 1.0 of 64
   floating bits. *)
Lemma unary_minus_lowering operand type c val c1 n c2 :
  gen_value operand c = OK (val, c1) ->
  Values.gen_val val c1 = OK (n, c2) ->
  gen_value (UnaryExprAST (ch "-") operand type) c =
  (x <- build (LLVMBuildFSub (LLVMConstReal float_64_type 0) n) ;;
   ret (ConstValue type x)) c2.
Proof.
  intros Hv Hn. cbn [gen_value]. rewrite (bind_OK _ _ _ _ _ Hv).
  change (ch "-" =? ch "!") with false. change (ch "-" =? ch "-") with true.
  cbv iota. rewrite (bind_OK _ _ _ _ _ Hn). reflexivity.
Qed.

Lemma unary_not_lowering operand type c val c1 n c2 :
  gen_value operand c = OK (val, c1) ->
  Values.gen_val val c1 = OK (n, c2) ->
  gen_value (UnaryExprAST (ch "!") operand type) c =
  (x <- build (LLVMBuildFCmp LLVMRealONE n (LLVMConstReal float_64_type 1)) ;;
   ret (ConstValue type x)) c2.
Proof.
  intros Hv Hn. cbn [gen_value]. rewrite (bind_OK _ _ _ _ _ Hv).
  change (ch "!" =? ch "!") with true.
  cbv iota. rewrite (bind_OK _ _ _ _ _ Hn). reflexivity.
Qed.

(** C3: for the operand 5 of type i32, -n is lowered to a floating
    subtraction from the constant 0.0 of the type of 64 floating bits, not
    to a subtraction from the zero of i32; and !n is lowered to a floating
    comparison "differs from" with the constant 1.0 of 64 floating bits,
    not to a comparison of n with the zero of i32.  The values returned
    carry the type of the operand. *)
Theorem unary_minus_and_not_of_i32 :
  let n := LLVMConstIntOfStringAndSize (LLVMIntType 32) "5" 10 in
  exists neg v1 c1 not_ v2 c2,
    (e <- new_NumberExprAST "5" (ch "i") false 10 ;;
     new_UnaryExprAST (ch "-") e) abx = OK (neg, abx) /\
    get_type neg = I32 /\
    gen_value neg abx = OK (v1, c1) /\
    emitted c1 = [[(0%nat, LLVMBuildFSub (LLVMConstReal (LLVMFPType 64) 0) n)]] /\
    v1 = ConstValue I32 (Instr 0) /\
    (e <- new_NumberExprAST "5" (ch "i") false 10 ;;
     new_UnaryExprAST (ch "!") e) abx = OK (not_, abx) /\
    gen_value not_ abx = OK (v2, c2) /\
    emitted c2 =
      [[(0%nat, LLVMBuildFCmp LLVMRealONE n (LLVMConstReal (LLVMFPType 64) 1))]] /\
    v2 = ConstValue I32 (Instr 0) /\
    type_of_constant (LLVMConstReal (LLVMFPType 64) 0) <> Some (llvm_type I32).
Proof.
  intros n. do 6 eexists.
  split; [vm_compute; reflexivity|]. split; [reflexivity|].
  split; [vm_compute; reflexivity|]. split; [reflexivity|].
  split; [reflexivity|]. split; [vm_compute; reflexivity|].
  split; [vm_compute; reflexivity|]. split; [reflexivity|].
  split; [reflexivity|]. cbv. discriminate.
Qed.

(** C2: for the loop `while (x) 1 else 2` over x of type f64, the branch at
    the end of the body block (instruction 5) goes to the body block 1 or
    to the merge block 3 on instruction 4, and instruction 4 compares with
    0.0 the value of instruction 1, the comparison built in the entry block
    before the loop; the value of x loaded anew in the body (instruction 3)
    is not used. *)
Theorem while_float_condition_back_edge :
  exists e c1 v c2,
    (x <- new_VariableExprAST "x" ;;
     one <- new_NumberExprAST "1" (ch "i") false 10 ;;
     two <- new_NumberExprAST "2" (ch "i") false 10 ;;
     new_WhileExprAST x one (Some two)) abx = OK (e, c1) /\
    gen_value e c1 = OK (v, c2) /\
    emitted c2 =
      [[(0%nat, LLVMBuildLoad2 (LLVMFPType 64) (GlobalVar "x" 2));
        (1%nat, LLVMBuildFCmp LLVMRealONE (Instr 0)
                              (LLVMConstReal (LLVMFPType 64) 0));
        (2%nat, LLVMBuildCondBr (Instr 1) 1%nat 2%nat)];
       [(3%nat, LLVMBuildLoad2 (LLVMFPType 64) (GlobalVar "x" 2));
        (4%nat, LLVMBuildFCmp LLVMRealONE (Instr 1)
                              (LLVMConstReal (LLVMFPType 64) 0));
        (5%nat, LLVMBuildCondBr (Instr 4) 1%nat 3%nat)];
       [(6%nat, LLVMBuildBr 3%nat)];
       [(7%nat, LLVMBuildPhi (LLVMIntType 32)
                  [(LLVMConstIntOfStringAndSize (LLVMIntType 32) "1" 10, 1%nat);
                   (LLVMConstIntOfStringAndSize (LLVMIntType 32) "2" 10, 2%nat)])]] /\
    map bb_name (blocks c2) = ["entry"; "whilethen"; "whileelse"; "endwhile"].
Proof.
  do 4 eexists. split; [vm_compute; reflexivity|].
  split; [vm_compute; reflexivity|]. split; reflexivity.
Qed.

(* with a condition that is an integer the branch of the body is on the
   value loaded anew (instruction 2) *)
Lemma while_int_condition_back_edge :
  exists e c1 v c2,
    (a <- new_VariableExprAST "a" ;;
     one <- new_NumberExprAST "1" (ch "i") false 10 ;;
     new_WhileExprAST a one None) abx = OK (e, c1) /\
    gen_value e c1 = OK (v, c2) /\
    emitted c2 =
      [[(0%nat, LLVMBuildLoad2 (LLVMIntType 32) (GlobalVar "a" 0));
        (1%nat, LLVMBuildCondBr (Instr 0) 1%nat 2%nat)];
       [(2%nat, LLVMBuildLoad2 (LLVMIntType 32) (GlobalVar "a" 0));
        (3%nat, LLVMBuildCondBr (Instr 2) 1%nat 3%nat)];
       [(4%nat, LLVMBuildBr 3%nat)];
       [(5%nat, LLVMBuildPhi (LLVMIntType 32)
                  [(LLVMConstIntOfStringAndSize (LLVMIntType 32) "1" 10, 1%nat);
                   (LLVMConstNull (LLVMIntType 32), 2%nat)])]].
Proof.
  do 4 eexists. split; [vm_compute; reflexivity|].
  split; [vm_compute; reflexivity|]. reflexivity.
Qed.

(** C4: the constant `const c: i64 = 3` is a node of result type
    Number(64, false, true), and emitting it returns the value of its
    initializer, of type Number(32, false, true): the two types are not
    structurally equal.  The name c is bound to that value, so a variable
    node for c has the same two types. *)
Theorem constant_let_value_type :
  exists e c1 v c2 var v',
    (init <- new_NumberExprAST "3" (ch "i") false 10 ;;
     new_LetExprAST "c" (Some I64) (Some init) true false) abx = OK (e, c1) /\
    get_type e = I64 /\
    gen_value e c1 = OK (v, c2) /\
    Values.get_type v = I32 /\
    Types.eq (Values.get_type v) (get_type e) = false /\
    new_VariableExprAST "c" c2 = OK (var, c2) /\
    get_type var = I64 /\
    gen_value var c2 = OK (v', c2) /\
    Values.get_type v' = I32.
Proof.
  do 6 eexists. split; [vm_compute; reflexivity|].
  split; [reflexivity|]. split; [vm_compute; reflexivity|].
  split; [reflexivity|]. split; [reflexivity|].
  split; [vm_compute; reflexivity|]. split; [reflexivity|].
  split; [vm_compute; reflexivity|]. reflexivity.
Qed.

End Emission.

(** * Further properties of the code *)

(** ** The helpers of utils.cpp *)

Section UtilsFacts.
Import Utils.

Lemma streq_loop_true a b : forall todo i,
  streq_loop a b i todo = true <->
  (forall k, (i <= k < i + todo)%nat -> nth k a 0 = nth k b 0).
Proof.
  induction todo as [|todo IH]; intros i; cbn [streq_loop].
  - split; [intros _ k Hk; lia | reflexivity].
  - destruct (nth i a 0 =? nth i b 0) eqn:E; cbn [negb].
    + apply Z.eqb_eq in E. rewrite IH. split.
      * intros H k Hk. destruct (Nat.eq_dec k i) as [->|Hne]; [exact E|].
        apply H. lia.
      * intros H k Hk. apply H. lia.
    + apply Z.eqb_neq in E. split; [discriminate|].
      intros H. exfalso. apply E. apply H. lia.
Qed.

Lemma firstn_eq_nth : forall (n : nat) (a b : list Z),
  (n <= List.length a)%nat -> (n <= List.length b)%nat ->
  (firstn n a = firstn n b <-> forall k, (k < n)%nat -> nth k a 0 = nth k b 0).
Proof.
  induction n as [|n IH]; intros a b Ha Hb.
  - cbn. split; [intros _ k Hk; lia | reflexivity].
  - destruct a as [|x a]; [cbn in Ha; lia|].
    destruct b as [|y b]; [cbn in Hb; lia|].
    cbn [firstn List.length] in *. split.
    + intros H k Hk. injection H as Hxy Hrest.
      destruct k as [|k]; [exact Hxy|]. cbn [nth].
      apply (proj1 (IH a b ltac:(lia) ltac:(lia)) Hrest). lia.
    + intros H. f_equal.
      * apply (H O). lia.
      * apply IH; [lia | lia |]. intros k Hk. apply (H (S k)). lia.
Qed.

(** X1: streq is equality of the two strings given by buffer and length. *)
Theorem streq_true_iff :
  forall (a b : list Z) (alen blen : nat),
    (alen <= List.length a)%nat -> (blen <= List.length b)%nat ->
    (streq a alen b blen = true <-> firstn alen a = firstn blen b).
Proof.
  intros a b alen blen Ha Hb. unfold streq.
  destruct (Nat.eqb alen blen) eqn:E; cbn [negb].
  - apply Nat.eqb_eq in E. subst blen.
    rewrite streq_loop_true, (firstn_eq_nth alen a b Ha Hb).
    split; intros H k Hk; apply H; lia.
  - apply Nat.eqb_neq in E. split; [discriminate|].
    intros H. exfalso. apply E.
    apply (f_equal (@List.length Z)) in H.
    rewrite !length_firstn in H. lia.
Qed.

Lemma streq_true_iff_witness :
  streq (chars "while(") 5 (chars "while") 5 = true.
Proof.
  apply (streq_true_iff (chars "while(") (chars "while") 5 5);
    [cbn; lia | cbn; lia | reflexivity].
Defined.

(* the loop is a fold over the characters it reads *)
Lemma parse_pos_int_loop_fold num_str base : forall todo i result,
  (i + todo <= List.length num_str)%nat ->
  parse_pos_int_loop num_str base i todo result =
  fold_left (fun acc c => uint (acc * base + c - ch "0"))
            (firstn todo (skipn i num_str)) result.
Proof.
  induction todo as [|todo IH]; intros i result Hlen; [reflexivity|].
  cbn [parse_pos_int_loop]. rewrite IH by lia.
  assert (Hs : skipn i num_str = nth i num_str 0 :: skipn (S i) num_str).
  { clear IH. revert i Hlen.
    induction num_str as [|x l IHl]; intros i Hlen; [cbn in Hlen; lia|].
    destruct i as [|i]; [reflexivity|].
    cbn [skipn nth]. apply IHl. cbn in Hlen. lia. }
  rewrite Hs. reflexivity.
Qed.

Lemma fold_uint base : forall (l : list Z) (r : Z),
  fold_left (fun acc c => uint (acc * base + c - ch "0")) l (uint r) =
  uint (fold_left (fun acc c => acc * base + (c - ch "0")) l r).
Proof.
  induction l as [|c l IH]; intros r; cbn [fold_left].
  - reflexivity.
  - rewrite <- IH. f_equal. unfold uint.
    replace (r mod 2 ^ 32 * base + c - ch "0")
      with (r mod 2 ^ 32 * base + (c - ch "0")) by lia.
    rewrite Z.add_mod by lia. rewrite Z.mul_mod_idemp_l by lia.
    rewrite <- Z.add_mod by lia. reflexivity.
Qed.

(** X2: parse_pos_int counts every character as its distance from the
    character 0 and folds these by Horner's rule in the base, reduced
    modulo 2^32 once: the wrap-around of the unsigned intermediate results
    does not show otherwise.  So the numeral written with the characters
    0 + d has the value of the digits d in the base; a letter digit is not
    given its value: the letter for the digit d, from 10 to 15, counts as
    d + 7 in upper case and as d + 39 in lower case, and 1F in base 16 is
    38. *)
Theorem parse_pos_int_value :
  (forall (num_str : list Z) (num_str_len : nat) (base : Z),
     (num_str_len <= List.length num_str)%nat ->
     parse_pos_int num_str num_str_len base =
     (fold_left (fun acc c => acc * base + (c - ch "0"))
                (firstn num_str_len num_str) 0) mod 2 ^ 32) /\
  (forall (digits : list Z) (base : Z),
     parse_pos_int (map (fun d => ch "0" + d) digits) (List.length digits) base =
     (fold_left (fun acc d => acc * base + d) digits 0) mod 2 ^ 32) /\
  (forall (d base : Z),
     10 <= d <= 15 ->
     parse_pos_int [ch "A" + (d - 10)] 1 base = d + 7 /\
     parse_pos_int [ch "a" + (d - 10)] 1 base = d + 39) /\
  parse_pos_int (chars "1F") 2 16 = 38.
Proof.
  assert (Hvalue : forall num_str n base,
            (n <= List.length num_str)%nat ->
            parse_pos_int num_str n base =
            (fold_left (fun acc c => acc * base + (c - ch "0"))
                       (firstn n num_str) 0) mod 2 ^ 32).
  { intros num_str n base Hlen. unfold parse_pos_int.
    rewrite parse_pos_int_loop_fold by lia. cbn [skipn].
    change 0 with (uint 0) at 1. apply fold_uint. }
  split; [exact Hvalue|]. split; [|split; [|reflexivity]].
  - intros digits base.
    rewrite Hvalue by (rewrite length_map; lia).
    rewrite <- (length_map (fun d => ch "0" + d) digits), firstn_all.
    f_equal. generalize 0 as acc.
    induction digits as [|d digits IH]; intros acc; [reflexivity|].
    cbn [map fold_left]. rewrite IH. f_equal. lia.
  - intros d base Hd. unfold parse_pos_int, parse_pos_int_loop, uint.
    cbn [nth]. change (ch "A") with 65. change (ch "a") with 97.
    change (ch "0") with 48.
    split; (rewrite Z.mod_small; [lia | lia]).
Qed.

Lemma parse_pos_int_value_witness :
  parse_pos_int (chars "4294967297") 10 10 = 1 /\
  parse_pos_int (chars "F") 1 16 = 22.
Proof.
  split.
  - rewrite (proj1 parse_pos_int_value (chars "4294967297") 10%nat 10);
      [reflexivity | cbn; lia].
  - apply (proj1 (proj2 (proj2 parse_pos_int_value)) 15 16). lia.
Defined.

End UtilsFacts.

(** ** The lexer: white space, comments and the end of the input *)

Section LexerSkipping.
Import Lexer Tokens.
Variable keywords : list Z -> Z.

Lemma next_token_fuel_S n l :
  next_token_fuel keywords (S n) l =
  (l0 <- get ;;
   skip_space (S (S (List.length (source l0)))) ;;;
   next_token_body keywords (next_token_fuel keywords n)) l.
Proof. reflexivity. Qed.

Lemma moved_to_moved_to c rest c' rest' l :
  moved_to c rest (moved_to c' rest' l) = moved_to c rest l.
Proof. destruct l. reflexivity. Qed.

Lemma advance_moved l :
  advance l = OK (hd EOF (source l), looking_at (source l) l).
Proof. apply advance_eq. Qed.

Lemma source_moved_to c rest l : source (moved_to c rest l) = rest.
Proof. destruct l. reflexivity. Qed.

Lemma last_char_moved_to c rest l : last_char (moved_to c rest l) = c.
Proof. destruct l. reflexivity. Qed.

Lemma length_tl (s : list Z) : (List.length (tl s) <= List.length s)%nat.
Proof. destruct s; cbn; lia. Qed.

(* the loops only take characters off the source *)
Lemma skip_space_length fuel : forall l l',
  skip_space fuel l = OK (tt, l') ->
  (List.length (source l') <= List.length (source l))%nat.
Proof.
  induction fuel as [|fuel IH]; intros l l' H; [discriminate|].
  cbn [skip_space] in H. unfold bind at 1 in H. cbn [get] in H.
  destruct (isspace (last_char l)).
  - unfold bind at 1 in H. rewrite advance_moved in H.
    apply IH in H. unfold looking_at in H. rewrite source_moved_to in H.
    pose proof (length_tl (source l)). lia.
  - injection H as <-. lia.
Qed.

Lemma line_comment_length fuel : forall l l',
  line_comment fuel l = OK (tt, l') ->
  (List.length (source l') <= List.length (source l))%nat.
Proof.
  induction fuel as [|fuel IH]; intros l l' H; [discriminate|].
  cbn [line_comment] in H. unfold bind at 1 in H. rewrite advance_moved in H.
  pose proof (length_tl (source l)).
  destruct (negb (hd EOF (source l) =? EOF) && negb (hd EOF (source l) =? 10)
            && negb (hd EOF (source l) =? 13)).
  - apply IH in H. unfold looking_at in H. rewrite source_moved_to in H. lia.
  - injection H as <-. unfold looking_at. rewrite source_moved_to. lia.
Qed.

Lemma block_comment_length fuel : forall l l',
  block_comment fuel l = OK (tt, l') ->
  (List.length (source l') <= List.length (source l))%nat.
Proof.
  induction fuel as [|fuel IH]; intros l l' H; [discriminate|].
  cbn [block_comment] in H. unfold bind at 1 in H. cbn [get] in H.
  unfold bind at 1 in H. rewrite advance_moved in H.
  pose proof (length_tl (source l)).
  destruct (negb (hd EOF (source l) =? EOF) &&
            negb ((last_char l =? ch "*") && (hd EOF (source l) =? ch "/"))).
  - apply IH in H. unfold looking_at in H. rewrite source_moved_to in H. lia.
  - injection H as <-. unfold looking_at. rewrite source_moved_to. lia.
Qed.

Lemma bind_get {A : Type} (f : lexer -> M lexer A) l : bind get f l = f l l.
Proof. reflexivity. Qed.

Lemma bind_advance {A : Type} (f : Z -> M lexer A) l :
  bind advance f l = f (hd EOF (source l)) (looking_at (source l) l).
Proof. unfold bind. rewrite advance_moved. reflexivity. Qed.

(* next_token_body depends on [again] only at lexers with less source *)
Lemma next_token_body_again (a1 a2 : M lexer Z) l :
  (forall l', (List.length (source l') < List.length (source l))%nat ->
              a1 l' = a2 l') ->
  next_token_body keywords a1 l = next_token_body keywords a2 l.
Proof.
  intros Ha. unfold next_token_body. rewrite !bind_get.
  destruct (last_char l =? EOF); [reflexivity|].
  destruct (isalpha (last_char l) || (last_char l =? ch "_")); [reflexivity|].
  destruct (isdigit (last_char l)); [reflexivity|].
  destruct (last_char l =? 34); [reflexivity|].
  destruct (last_char l =? ch "'"); [reflexivity|].
  rewrite !bind_advance.
  destruct (if hd EOF (source l) =? ch "=" then eq_token (last_char l) else None);
    [reflexivity|].
  destruct (if last_char l =? hd EOF (source l) then double_token (last_char l)
            else None); [reflexivity|].
  destruct (last_char l =? ch "/"); [|reflexivity].
  assert (Hshort : hd EOF (source l) <> EOF ->
            (List.length (source (looking_at (source l) l))
             < List.length (source l))%nat).
  { intros Hne. unfold looking_at. rewrite source_moved_to.
    destruct (source l); [contradiction | cbn; lia]. }
  destruct (hd EOF (source l) =? ch "/") eqn:E1.
  - apply Z.eqb_eq in E1.
    assert (Hne : hd EOF (source l) <> EOF) by (rewrite E1; discriminate).
    specialize (Hshort Hne).
    rewrite !bind_get. unfold bind.
    destruct (line_comment _ _) as [[[] l2]|msg] eqn:Hc; [|reflexivity].
    apply line_comment_length in Hc. apply Ha. lia.
  - destruct (hd EOF (source l) =? ch "*") eqn:E2; [|reflexivity].
    apply Z.eqb_eq in E2.
    assert (Hne : hd EOF (source l) <> EOF) by (rewrite E2; discriminate).
    specialize (Hshort Hne).
    rewrite !bind_get. unfold bind at 1 3.
    destruct (block_comment _ _) as [[[] l2]|msg] eqn:Hc; [|reflexivity].
    apply block_comment_length in Hc.
    rewrite !bind_advance. apply Ha.
    unfold looking_at. rewrite source_moved_to.
    pose proof (length_tl (source l2)). lia.
Qed.

(* any fuel above the length of the source gives the same token *)
Lemma next_token_fuel_enough : forall n m l,
  (List.length (source l) < n)%nat -> (List.length (source l) < m)%nat ->
  next_token_fuel keywords n l = next_token_fuel keywords m l.
Proof.
  induction n as [|n IH]; intros m l Hn Hm; [lia|].
  destruct m as [|m]; [lia|].
  rewrite !next_token_fuel_S, !bind_get. unfold bind.
  destruct (skip_space _ l) as [[[] l0]|msg] eqn:Hs; [|reflexivity].
  apply skip_space_length in Hs.
  apply next_token_body_again. intros l' Hl'. apply IH; lia.
Qed.

Lemma next_token_enough n l :
  (List.length (source l) < n)%nat ->
  next_token_fuel keywords n l = next_token keywords l.
Proof. intros H. unfold next_token. apply next_token_fuel_enough; lia. Qed.

Lemma looking_at_moved text c rest l :
  looking_at text (moved_to c rest l) = looking_at text l.
Proof. apply moved_to_moved_to. Qed.

Lemma skip_space_spaces : forall ws fuel l tail,
  (List.length ws + 2 <= fuel)%nat ->
  isspace (last_char l) = true ->
  source l = (ws ++ tail)%list ->
  forallb isspace ws = true ->
  isspace (hd EOF tail) = false ->
  skip_space fuel l = OK (tt, looking_at tail l).
Proof.
  induction ws as [|w ws IH]; intros fuel l tail Hf Hl Hs Hws Ht.
  - destruct fuel as [|[|fuel]]; [cbn in Hf; lia | cbn in Hf; lia|].
    cbn [skip_space]. rewrite bind_get, Hl. unfold bind at 1.
    rewrite advance_moved, bind_get. cbn [app] in Hs. rewrite Hs.
    unfold looking_at at 1. rewrite last_char_moved_to, Ht. reflexivity.
  - destruct fuel as [|fuel]; [cbn in Hf; lia|].
    cbn [forallb] in Hws. apply andb_true_iff in Hws. destruct Hws as [Hw Hws].
    cbn [skip_space]. rewrite bind_get, Hl. unfold bind at 1.
    rewrite advance_moved, Hs. cbn [app]. unfold looking_at at 1. cbn [hd tl].
    rewrite (IH fuel (moved_to w (ws ++ tail)%list l) tail).
    + rewrite looking_at_moved. reflexivity.
    + cbn in Hf. lia.
    + rewrite last_char_moved_to. exact Hw.
    + apply source_moved_to.
    + exact Hws.
    + exact Ht.
Qed.

Lemma skip_space_none fuel l :
  isspace (last_char l) = false -> skip_space (S fuel) l = OK (tt, l).
Proof. intros H. cbn [skip_space]. rewrite bind_get, H. reflexivity. Qed.

(* with the lookahead on a character that is no white space, next_token is
   its body *)
Lemma next_token_at l :
  isspace (last_char l) = false ->
  next_token keywords l = next_token_body keywords (next_token keywords) l.
Proof.
  intros H. unfold next_token at 1. rewrite next_token_fuel_S, bind_get.
  unfold bind. rewrite (skip_space_none _ l H).
  apply next_token_body_again. intros l' Hl'. apply next_token_enough. exact Hl'.
Qed.

Lemma next_token_after_spaces :
  forall (l : lexer) (ws tail : list Z),
    isspace (last_char l) = true ->
    source l = (ws ++ tail)%list ->
    forallb isspace ws = true ->
    isspace (hd EOF tail) = false ->
    next_token keywords l = next_token keywords (looking_at tail l).
Proof.
  intros l ws tail Hl Hs Hws Ht.
  rewrite (next_token_at (looking_at tail l))
    by (unfold looking_at; rewrite last_char_moved_to; exact Ht).
  unfold next_token at 1. rewrite next_token_fuel_S, bind_get. unfold bind.
  rewrite (skip_space_spaces ws _ l tail); try assumption.
  - apply next_token_body_again. intros l' Hl'.
    apply next_token_enough.
    unfold looking_at in Hl'. rewrite source_moved_to in Hl'.
    rewrite Hs, length_app. pose proof (length_tl tail). lia.
  - rewrite Hs, length_app. lia.
Qed.

(** X3: white space before a token is skipped: with the lookahead on a
    white space and more of it in front of the source, next_token is
    next_token of the lexer looking at what follows the white space. *)
Theorem white_space_is_skipped :
  forall (l : lexer) (ws tail : list Z),
    isspace (last_char l) = true ->
    source l = (ws ++ tail)%list ->
    forallb isspace ws = true ->
    isspace (hd EOF tail) = false ->
    next_token keywords l = next_token keywords (looking_at tail l).
Proof. exact next_token_after_spaces. Qed.

(** X4: a source of white space only gives the end of the input, and so
    does every later call: at the end of the input next_token returns
    T_EOF and leaves the lexer as it is. *)
Theorem blank_source_is_end_of_input :
  forall ws : list Z,
    forallb isspace ws = true ->
    exists l,
      next_token keywords (start ws) = OK (T_EOF, l) /\
      source l = [] /\
      next_token keywords l = OK (T_EOF, l).
Proof.
  intros ws Hws. exists (looking_at [] (start ws)).
  assert (Hend : next_token keywords (looking_at [] (start ws))
                 = OK (T_EOF, looking_at [] (start ws))) by reflexivity.
  split; [|split; [reflexivity | exact Hend]].
  rewrite (next_token_after_spaces (start ws) ws []);
    [exact Hend | reflexivity | cbn; symmetry; apply app_nil_r | exact Hws
    | reflexivity].
Qed.


End LexerSkipping.

Lemma white_space_is_skipped_witness :
  Lexer.next_token (fun _ => 0) (Lexer.start (chars "  12")) =
  Lexer.next_token (fun _ => 0)
    (Tokens.looking_at (chars "12") (Lexer.start (chars "  12"))).
Proof.
  apply (white_space_is_skipped (fun _ => 0) (Lexer.start (chars "  12"))
           (chars "  ") (chars "12")); reflexivity.
Defined.

Lemma blank_source_is_end_of_input_witness :
  exists l,
    Lexer.next_token (fun _ => 0) (Lexer.start (chars "   ")) =
      OK (Lexer.T_EOF, l) /\
    Lexer.source l = [] /\
    Lexer.next_token (fun _ => 0) l = OK (Lexer.T_EOF, l).
Proof.
  apply (blank_source_is_end_of_input (fun _ => 0) (chars "   ")). reflexivity.
Defined.

(** ** The lexer: comments *)

Section LexerComments.
Import Lexer Tokens.
Variable keywords : list Z -> Z.

Lemma line_comment_run : forall body fuel l tail,
  (List.length body + 1 <= fuel)%nat ->
  source l = (body ++ tail)%list ->
  forallb line_goes_on body = true ->
  line_goes_on (hd EOF tail) = false ->
  line_comment fuel l = OK (tt, looking_at tail l).
Proof.
  induction body as [|c body IH]; intros fuel l tail Hf Hs Hb Ht;
    (destruct fuel as [|fuel]; [cbn in Hf; lia|]);
    cbn [line_comment]; rewrite bind_advance, Hs; cbn [app hd tl].
  - fold (line_goes_on (hd EOF tail)). rewrite Ht. reflexivity.
  - cbn [forallb] in Hb. apply andb_true_iff in Hb. destruct Hb as [Hc Hb].
    fold (line_goes_on c). rewrite Hc.
    unfold looking_at at 1. cbn [hd tl].
    rewrite (IH fuel (moved_to c (body ++ tail)%list l) tail).
    + rewrite looking_at_moved. reflexivity.
    + cbn in Hf. lia.
    + apply source_moved_to.
    + exact Hb.
    + exact Ht.
Qed.

(* the lexer on a slash: neither white space, nor the end, nor the start
   of a name, a number, a string or a character *)
Lemma next_token_on_slash l :
  last_char l = ch "/" ->
  next_token keywords l =
  (let c := hd EOF (source l) in
   let l1 := looking_at (source l) l in
   if c =? ch "=" then
     (advance ;;; ret T_SLASHEQ) l1
   else if c =? ch "/" then
     (line_comment (S (List.length (source l1))) ;;; next_token keywords) l1
   else if c =? ch "*" then
     (block_comment (S (List.length (source l1))) ;;;
      advance ;;; next_token keywords) l1
   else OK (ch "/", l1)).
Proof.
  intros Hl. rewrite next_token_at by (rewrite Hl; reflexivity).
  unfold next_token_body. rewrite bind_get, Hl.
  change (ch "/" =? EOF) with false.
  change (isalpha (ch "/") || (ch "/" =? ch "_")) with false.
  change (isdigit (ch "/")) with false.
  change (ch "/" =? 34) with false.
  change (ch "/" =? ch "'") with false.
  cbv iota. rewrite bind_advance. cbv zeta.
  change (eq_token (ch "/")) with (Some T_SLASHEQ).
  change (double_token (ch "/")) with (@None Z).
  change (ch "/" =? ch "/") with true. cbv iota.
  destruct (hd EOF (source l) =? ch "=") eqn:E; [reflexivity|].
  replace (if ch "/" =? hd EOF (source l) then @None Z else None)
    with (@None Z) by (destruct (ch "/" =? hd EOF (source l)); reflexivity).
  destruct (hd EOF (source l) =? ch "/"); [rewrite bind_get; reflexivity|].
  destruct (hd EOF (source l) =? ch "*"); [rewrite bind_get; reflexivity|].
  reflexivity.
Qed.

(** X5: a line comment is skipped: on `//`, followed by characters up to
    the first line feed, carriage return or the end of the input,
    next_token is next_token of the lexer looking at that end of the
    line. *)
Theorem line_comment_is_skipped :
  forall (l : lexer) (body tail : list Z),
    last_char l = ch "/" ->
    source l = (ch "/" :: body ++ tail)%list ->
    forallb line_goes_on body = true ->
    line_goes_on (hd EOF tail) = false ->
    next_token keywords l = next_token keywords (looking_at tail l).
Proof.
  intros l body tail Hl Hs Hb Ht.
  rewrite (next_token_on_slash l Hl), Hs. cbn [hd tl]. cbv zeta.
  change (ch "/" =? ch "=") with false. change (ch "/" =? ch "/") with true.
  cbv iota. unfold bind.
  rewrite (line_comment_run body _ _ tail); try assumption.
  - unfold looking_at. rewrite !moved_to_moved_to. reflexivity.
  - unfold looking_at. rewrite source_moved_to. cbn [tl].
    rewrite length_app. lia.
  - unfold looking_at. apply source_moved_to.
Qed.

Lemma block_comment_run : forall body fuel l rest,
  (List.length body + 2 <= fuel)%nat ->
  source l = (body ++ ch "*" :: ch "/" :: rest)%list ->
  forallb no_slash body = true ->
  block_comment fuel l = OK (tt, moved_to (ch "/") rest l).
Proof.
  induction body as [|c body IH]; intros fuel l rest Hf Hs Hb.
  - destruct fuel as [|[|fuel]]; [cbn in Hf; lia | cbn in Hf; lia|].
    cbn [block_comment]. rewrite bind_get, bind_advance, Hs. cbn [app hd tl].
    change (negb (ch "*" =? EOF) &&
            negb ((last_char l =? ch "*") && (ch "*" =? ch "/"))) with
      (true && negb ((last_char l =? ch "*") && false)).
    rewrite andb_false_r. cbn [negb andb].
    rewrite bind_get, bind_advance.
    unfold looking_at. rewrite source_moved_to, last_char_moved_to.
    cbn [hd tl]. rewrite moved_to_moved_to. reflexivity.
  - destruct fuel as [|fuel]; [cbn in Hf; lia|].
    cbn [forallb] in Hb. apply andb_true_iff in Hb. destruct Hb as [Hc Hb].
    unfold no_slash in Hc. apply andb_true_iff in Hc. destruct Hc as [Hc1 Hc2].
    cbn [block_comment]. rewrite bind_get, bind_advance, Hs. cbn [app hd tl].
    rewrite Hc1. apply negb_true_iff in Hc2. rewrite Hc2, andb_false_r.
    cbn [negb andb]. unfold looking_at. cbn [hd tl].
    rewrite (IH fuel (moved_to c (body ++ ch "*" :: ch "/" :: rest)%list l) rest).
    + rewrite moved_to_moved_to. reflexivity.
    + cbn in Hf. lia.
    + apply source_moved_to.
    + exact Hb.
Qed.

(** X6: a block comment is skipped: on a slash and a star, followed by
    characters without a slash and then by a star and a slash, next_token
    is next_token of the lexer looking at what follows the comment. *)
Theorem block_comment_is_skipped :
  forall (l : lexer) (body rest : list Z),
    last_char l = ch "/" ->
    source l = (ch "*" :: body ++ ch "*" :: ch "/" :: rest)%list ->
    forallb no_slash body = true ->
    next_token keywords l = next_token keywords (looking_at rest l).
Proof.
  intros l body rest Hl Hs Hb.
  rewrite (next_token_on_slash l Hl), Hs. cbn [hd tl]. cbv zeta.
  change (ch "*" =? ch "=") with false. change (ch "*" =? ch "/") with false.
  change (ch "*" =? ch "*") with true. cbv iota. unfold bind at 1.
  rewrite (block_comment_run body _ _ rest); try assumption.
  - rewrite bind_advance, source_moved_to. unfold looking_at.
    rewrite !moved_to_moved_to. reflexivity.
  - unfold looking_at. rewrite source_moved_to. cbn [tl].
    rewrite length_app. cbn [List.length]. lia.
  - unfold looking_at. apply source_moved_to.
Qed.

(** X7: the star that opens a block comment also closes it: the three
    characters slash, star, slash are a whole comment, and next_token goes
    on after them. *)
Theorem slash_star_slash_is_a_comment :
  forall (l : lexer) (rest : list Z),
    last_char l = ch "/" ->
    source l = (ch "*" :: ch "/" :: rest)%list ->
    next_token keywords l = next_token keywords (looking_at rest l).
Proof.
  intros l rest Hl Hs.
  rewrite (next_token_on_slash l Hl), Hs. cbn [hd tl]. cbv zeta.
  change (ch "*" =? ch "=") with false. change (ch "*" =? ch "/") with false.
  change (ch "*" =? ch "*") with true. cbv iota. unfold bind at 1.
  unfold looking_at at 1 2. cbn [hd tl]. rewrite source_moved_to.
  cbn [block_comment]. rewrite bind_get. cbv beta. rewrite bind_advance.
  rewrite source_moved_to, last_char_moved_to. cbn [hd].
  change (negb (ch "/" =? EOF) && negb ((ch "*" =? ch "*") && (ch "/" =? ch "/")))
    with false. cbv beta iota delta [ret].
  rewrite bind_advance. unfold looking_at.
  rewrite !source_moved_to. rewrite !moved_to_moved_to. reflexivity.
Qed.

End LexerComments.

Lemma line_comment_is_skipped_witness :
  Lexer.next_token (fun _ => 0)
    (Tokens.looking_at (chars "// a" ++ 10 :: chars "1") (Lexer.start [])) =
  Lexer.next_token (fun _ => 0)
    (Tokens.looking_at (10 :: chars "1") (Lexer.start [])).
Proof.
  apply (line_comment_is_skipped (fun _ => 0)
           (Tokens.looking_at (chars "// a" ++ 10 :: chars "1") (Lexer.start []))
           (chars " a") (10 :: chars "1")); reflexivity.
Defined.

Lemma block_comment_is_skipped_witness :
  Lexer.next_token (fun _ => 0) (lexer_at "/* a */1") =
  Lexer.next_token (fun _ => 0)
    (Tokens.looking_at (chars "1") (lexer_at "/* a */1")).
Proof.
  apply (block_comment_is_skipped (fun _ => 0) (lexer_at "/* a */1")
           (chars " a ") (chars "1")); reflexivity.
Defined.

Lemma slash_star_slash_is_a_comment_witness :
  Lexer.next_token (fun _ => 0) (lexer_at "/*/1") =
  Lexer.next_token (fun _ => 0) (Tokens.looking_at (chars "1") (lexer_at "/*/1")).
Proof.
  apply (slash_star_slash_is_a_comment (fun _ => 0) (lexer_at "/*/1")
           (chars "1")); reflexivity.
Defined.

(** ** The lexer: names, strings, characters and operators *)

Section LexerTokens.
Import Lexer Tokens.
Variable keywords : list Z -> Z.

Lemma read_str_run : forall name2 fuel stream l tail,
  (List.length name2 + 1 <= fuel)%nat ->
  source l = (name2 ++ tail)%list ->
  forallb is_alphaish name2 = true ->
  is_alphaish (hd EOF tail) = false ->
  read_str_loop fuel is_alphaish stream l =
  OK ((stream ++ name2)%list, looking_at tail l).
Proof.
  induction name2 as [|c name2 IH]; intros fuel stream l tail Hf Hs Hn Ht;
    (destruct fuel as [|fuel]; [cbn in Hf; lia|]);
    cbn [read_str_loop]; rewrite bind_advance, Hs; cbn [app hd tl].
  - rewrite Ht, app_nil_r. reflexivity.
  - cbn [forallb] in Hn. apply andb_true_iff in Hn. destruct Hn as [Hc Hn].
    rewrite Hc. unfold looking_at at 1. cbn [hd tl].
    rewrite (IH fuel (stream ++ [c])%list
                (moved_to c (name2 ++ tail)%list l) tail).
    + rewrite looking_at_moved, <- app_assoc. reflexivity.
    + cbn in Hf. lia.
    + apply source_moved_to.
    + exact Hn.
    + exact Ht.
Qed.

Lemma name_start_facts c :
  isalpha c || (c =? ch "_") = true -> isspace c = false /\ (c =? EOF) = false.
Proof.
  unfold isalpha, isspace, EOF. intros H.
  apply orb_true_iff in H. rewrite orb_true_iff, !andb_true_iff, !Z.leb_le in H.
  rewrite Z.eqb_eq in H. change (ch "_") with 95 in H.
  split.
  - apply orb_false_iff. split; [apply Z.eqb_neq; lia|].
    apply andb_false_iff. right. apply Z.leb_gt. lia.
  - apply Z.eqb_neq. lia.
Qed.

(** X8: a name is read whole: on a letter or an underscore, followed by
    letters, digits and underscores up to a character that is none of
    them, next_token yields the kind the keyword table gives for the name,
    or IDENTIFIER when it gives none, with the name as payload and the
    lookahead on the character after it. *)
Theorem name_is_read_whole :
  forall (l : lexer) (name2 tail : list Z),
    isalpha (last_char l) || (last_char l =? ch "_") = true ->
    source l = (name2 ++ tail)%list ->
    forallb is_alphaish name2 = true ->
    is_alphaish (hd EOF tail) = false ->
    next_token keywords l =
    OK (if keywords (last_char l :: name2) =? 0 then T_IDENTIFIER
        else keywords (last_char l :: name2),
        set_identifier_string (last_char l :: name2) (looking_at tail l)).
Proof.
  intros l name2 tail Hc Hs Hn Ht.
  destruct (name_start_facts _ Hc) as [Hsp He].
  rewrite (next_token_at keywords l Hsp). unfold next_token_body.
  rewrite bind_get, He, Hc. unfold read_str. unfold bind at 1.
  rewrite bind_get.
  rewrite (read_str_run name2 _ [last_char l] l tail); try assumption.
  - cbn [app]. unfold bind, modify.
    destruct (keywords (last_char l :: name2) =? 0); reflexivity.
  - rewrite Hs, length_app. lia.
Qed.

Lemma string_while_run : forall body fuel stream l rest,
  (List.length body + 1 <= fuel)%nat ->
  source l = (body ++ 34 :: rest)%list ->
  forallb plain_in_string body = true ->
  string_while fuel stream l = OK ((stream ++ body)%list, moved_to 34 rest l).
Proof.
  induction body as [|c body IH]; intros fuel stream l rest Hf Hs Hb;
    (destruct fuel as [|fuel]; [cbn in Hf; lia|]);
    cbn [string_while]; rewrite bind_advance, Hs; cbn [app hd tl].
  - rewrite app_nil_r. reflexivity.
  - cbn [forallb] in Hb. apply andb_true_iff in Hb. destruct Hb as [Hc Hb].
    unfold plain_in_string in Hc. rewrite !andb_true_iff, !negb_true_iff in Hc.
    destruct Hc as [[H1 H2] H3]. rewrite H1, H2, H3.
    unfold bind at 1. cbn [ret]. unfold looking_at. cbn [hd tl].
    rewrite (IH fuel (stream ++ [c])%list
                (moved_to c (body ++ 34 :: rest)%list l) rest).
    + rewrite moved_to_moved_to, <- app_assoc. reflexivity.
    + cbn in Hf. lia.
    + apply source_moved_to.
    + exact Hb.
Qed.

Lemma string_while_eof : forall body fuel stream l,
  (List.length body + 1 <= fuel)%nat ->
  source l = body ->
  forallb plain_in_string body = true ->
  string_while fuel stream l = Error "Unexpected EOF in string".
Proof.
  induction body as [|c body IH]; intros fuel stream l Hf Hs Hb;
    (destruct fuel as [|fuel]; [cbn in Hf; lia|]);
    cbn [string_while]; rewrite bind_advance, Hs; cbn [hd tl].
  - reflexivity.
  - cbn [forallb] in Hb. apply andb_true_iff in Hb. destruct Hb as [Hc Hb].
    unfold plain_in_string in Hc. rewrite !andb_true_iff, !negb_true_iff in Hc.
    destruct Hc as [[H1 H2] H3]. rewrite H1, H2, H3.
    unfold bind at 1. cbn [ret]. unfold looking_at. cbn [hd tl].
    apply IH; [cbn in Hf; lia | apply source_moved_to | exact Hb].
Qed.

Lemma next_token_on_quote l :
  last_char l = 34 -> next_token keywords l = lex_string l.
Proof.
  intros Hl. rewrite next_token_at by (rewrite Hl; reflexivity).
  unfold next_token_body. rewrite bind_get, Hl. reflexivity.
Qed.

(** X9: a string literal without escapes is read as it is: on a quote,
    followed by characters other than quote, backslash and EOF and by the
    closing quote, next_token yields STRING with these characters as
    payload; a c after the closing quote makes it a C_STRING and a p a
    PTR_CHAR_ARRAY, and is taken; after any other character it is a
    CHAR_ARRAY and the lookahead is on that character. *)
Theorem plain_string_is_read_as_it_is :
  forall (l : lexer) (body rest : list Z),
    last_char l = 34 ->
    source l = (body ++ 34 :: rest)%list ->
    forallb plain_in_string body = true ->
    next_token keywords l =
    OK (T_STRING,
        if hd EOF rest =? ch "c"
        then looking_at (tl rest)
               (set_string_type C_STRING (set_string_value body l))
        else if hd EOF rest =? ch "p"
        then looking_at (tl rest)
               (set_string_type PTR_CHAR_ARRAY (set_string_value body l))
        else looking_at rest
               (set_string_type CHAR_ARRAY (set_string_value body l))).
Proof.
  intros l body rest Hl Hs Hb. rewrite (next_token_on_quote l Hl).
  unfold lex_string. rewrite bind_get. unfold bind at 1.
  rewrite (string_while_run body _ [] l rest); try assumption.
  - cbn [app]. unfold bind at 1. cbn [modify]. rewrite bind_advance.
    destruct l as [src lc ids cv nv nb nd nt sv sty]. cbn [source] in *.
    unfold moved_to, looking_at, moved_to.
    cbn [source set_source set_last_char set_string_value].
    destruct (hd EOF rest =? ch "c").
    { unfold bind at 1. unfold bind at 1. cbn [modify].
      rewrite bind_advance. reflexivity. }
    destruct (hd EOF rest =? ch "p").
    { unfold bind at 1. unfold bind at 1. cbn [modify].
      rewrite bind_advance. reflexivity. }
    reflexivity.
  - rewrite Hs, length_app. lia.
Qed.

(** X10: a string literal that is not closed is a fatal error: on a quote
    followed, up to the end of the input, by characters other than quote,
    backslash and EOF, next_token fails with "Unexpected EOF in string". *)
Theorem unterminated_string_is_an_error :
  forall (l : lexer),
    last_char l = 34 ->
    forallb plain_in_string (source l) = true ->
    next_token keywords l = Error "Unexpected EOF in string".
Proof.
  intros l Hl Hb. rewrite (next_token_on_quote l Hl).
  unfold lex_string. rewrite bind_get. unfold bind at 1.
  rewrite (string_while_eof (source l) _ [] l); [reflexivity | lia | reflexivity
                                                 | exact Hb].
Qed.

Lemma next_token_on_tick l :
  last_char l = ch "'" -> next_token keywords l = lex_char l.
Proof.
  intros Hl. rewrite next_token_at by (rewrite Hl; reflexivity).
  unfold next_token_body. rewrite bind_get, Hl. reflexivity.
Qed.

(** X11: a character literal holds one character: on a tick followed by a
    character c that is none of EOF, line feed, carriage return and
    backslash, next_token yields CHAR with c as payload when a tick comes
    next, and the lookahead is on what follows that tick; it fails with
    "char with length above 1" when anything else comes next. *)
Theorem char_literal_holds_one_character :
  forall (l : lexer) (c : Z) (tail : list Z),
    last_char l = ch "'" ->
    source l = c :: tail ->
    plain_in_char c = true ->
    next_token keywords l =
    if hd EOF tail =? ch "'"
    then OK (T_CHAR, looking_at (tl tail) (set_char_value c l))
    else Error "char with length above 1".
Proof.
  intros l c tail Hl Hs Hc. rewrite (next_token_on_tick l Hl).
  unfold plain_in_char in Hc. apply andb_true_iff in Hc.
  destruct Hc as [H1 H2]. apply negb_true_iff in H1, H2.
  destruct l as [src lc ids cv nv nb nd nt sv sty]. cbn [source] in Hs.
  subst src. unfold lex_char, advance, next_char, bind, modify, ret, error.
  unfold looking_at, moved_to. cbn in *. rewrite H1, H2. cbn.
  destruct tail as [|q tail]; cbn; [reflexivity|].
  destruct (q =? 39); [|reflexivity].
  destruct tail; reflexivity.
Qed.

End LexerTokens.

Section LexerOperators.
Import Lexer Tokens.
Variable keywords : list Z -> Z.

Lemma next_token_on_operator l :
  starts_operator (last_char l) = true ->
  next_token keywords l =
  match (if hd EOF (source l) =? ch "=" then eq_token (last_char l) else None) with
  | Some token => OK (token, looking_at (tl (source l)) l)
  | None =>
  match (if last_char l =? hd EOF (source l) then double_token (last_char l)
         else None) with
  | Some token => OK (token, looking_at (tl (source l)) l)
  | None =>
      if last_char l =? ch "/" then
        if hd EOF (source l) =? ch "/" then
          (line_comment (S (List.length (tl (source l)))) ;;;
           next_token keywords) (looking_at (source l) l)
        else if hd EOF (source l) =? ch "*" then
          (block_comment (S (List.length (tl (source l)))) ;;;
           advance ;;; next_token keywords) (looking_at (source l) l)
        else OK (last_char l, looking_at (source l) l)
      else OK (last_char l, looking_at (source l) l)
  end
  end.
Proof.
  intros H. unfold starts_operator in H.
  rewrite !andb_true_iff, !negb_true_iff in H.
  destruct H as [[[[[H1 H2] H3] H4] H5] H6].
  rewrite (next_token_at keywords l H1). unfold next_token_body.
  rewrite bind_get, H2, H3, H4, H5, H6. rewrite bind_advance.
  assert (Hadv : forall t : Z,
            (advance ;;; ret t) (looking_at (source l) l) =
            OK (t, looking_at (tl (source l)) l)).
  { intros t. rewrite bind_advance. unfold looking_at.
    rewrite source_moved_to, moved_to_moved_to. reflexivity. }
  destruct (if hd EOF (source l) =? ch "=" then eq_token (last_char l) else None);
    [apply Hadv|].
  destruct (if last_char l =? hd EOF (source l) then double_token (last_char l)
            else None); [apply Hadv|].
  destruct (last_char l =? ch "/"); [|reflexivity].
  destruct (hd EOF (source l) =? ch "/").
  { rewrite bind_get. unfold looking_at at 1. rewrite source_moved_to.
    reflexivity. }
  destruct (hd EOF (source l) =? ch "*"); [|reflexivity].
  rewrite bind_get. unfold looking_at at 1. rewrite source_moved_to.
  reflexivity.
Qed.

Lemma eq_token_starts_operator c t :
  eq_token c = Some t -> starts_operator c = true.
Proof.
  unfold eq_token. intros H.
  repeat match type of H with
         | (if ?b then _ else _) = _ =>
             let E := fresh "E" in
             destruct b eqn:E;
             [apply Z.eqb_eq in E; subst c; reflexivity|]
         end.
  discriminate.
Qed.

Lemma double_token_starts_operator c t :
  double_token c = Some t -> starts_operator c = true.
Proof.
  unfold double_token. intros H.
  repeat match type of H with
         | (if ?b then _ else _) = _ =>
             let E := fresh "E" in
             destruct b eqn:E;
             [apply Z.eqb_eq in E; subst c; reflexivity|]
         end.
  discriminate.
Qed.

Lemma double_token_equal : double_token (ch "=") = Some T_EQEQ.
Proof. reflexivity. Qed.

Lemma eq_token_equal : eq_token (ch "=") = Some T_EQEQ.
Proof. reflexivity. Qed.

(** X12: the operators of two characters are read whole: on a character
    of the table of `=` operators followed by `=`, or on a character of the
    table of doubled operators followed by itself, next_token yields the
    kind of the table and takes both characters. *)
Theorem two_character_operator_is_read_whole :
  forall (l : lexer) (token : Z),
    (eq_token (last_char l) = Some token /\ hd EOF (source l) = ch "=") \/
    (double_token (last_char l) = Some token /\
     hd EOF (source l) = last_char l) ->
    next_token keywords l = OK (token, looking_at (tl (source l)) l).
Proof.
  intros l token [[Ht Hc] | [Ht Hc]].
  - rewrite (next_token_on_operator l (eq_token_starts_operator _ _ Ht)).
    rewrite Hc. change (ch "=" =? ch "=") with true. cbv iota.
    rewrite Ht. reflexivity.
  - rewrite (next_token_on_operator l (double_token_starts_operator _ _ Ht)).
    rewrite Hc, Z.eqb_refl, Ht.
    destruct (last_char l =? ch "=") eqn:E; [|reflexivity].
    apply Z.eqb_eq in E. rewrite E in Ht |- *.
    rewrite double_token_equal in Ht. rewrite eq_token_equal.
    injection Ht as <-. reflexivity.
Qed.

(** X13: any other character is a token of its own: on a character that
    starts no name, number, string or character literal, when the next
    character makes with it no operator of two characters and no comment,
    next_token yields the code of the character and takes this one
    character only. *)
Theorem single_character_is_its_own_token :
  forall (l : lexer),
    starts_operator (last_char l) = true ->
    (hd EOF (source l) = ch "=" -> eq_token (last_char l) = None) ->
    (hd EOF (source l) = last_char l -> double_token (last_char l) = None) ->
    (last_char l = ch "/" ->
     hd EOF (source l) <> ch "/" /\ hd EOF (source l) <> ch "*") ->
    next_token keywords l = OK (last_char l, looking_at (source l) l).
Proof.
  intros l Hop He Hd Hc. rewrite (next_token_on_operator l Hop).
  destruct (hd EOF (source l) =? ch "=") eqn:E1.
  - apply Z.eqb_eq in E1. rewrite (He E1).
    destruct (last_char l =? hd EOF (source l)) eqn:E2.
    + apply Z.eqb_eq in E2. rewrite (Hd (Logic.eq_sym E2)).
      destruct (last_char l =? ch "/") eqn:E3; [|reflexivity].
      apply Z.eqb_eq in E3. rewrite E3 in E2. rewrite <- E2 in E1. discriminate.
    + destruct (last_char l =? ch "/") eqn:E3; [|reflexivity].
      apply Z.eqb_eq in E3. destruct (Hc E3) as [N1 N2].
      apply Z.eqb_neq in N1, N2. rewrite N1, N2. reflexivity.
  - destruct (last_char l =? hd EOF (source l)) eqn:E2.
    + apply Z.eqb_eq in E2. rewrite (Hd (Logic.eq_sym E2)).
      destruct (last_char l =? ch "/") eqn:E3; [|reflexivity].
      apply Z.eqb_eq in E3. destruct (Hc E3) as [N1 N2].
      apply Z.eqb_neq in N1, N2. rewrite N1, N2. reflexivity.
    + destruct (last_char l =? ch "/") eqn:E3; [|reflexivity].
      apply Z.eqb_eq in E3. destruct (Hc E3) as [N1 N2].
      apply Z.eqb_neq in N1, N2. rewrite N1, N2. reflexivity.
Qed.

End LexerOperators.

Lemma name_is_read_whole_witness :
  Lexer.next_token (fun _ => 0) (lexer_at "len = 1") =
  OK (Lexer.T_IDENTIFIER,
      Lexer.set_identifier_string (chars "len")
        (Tokens.looking_at (chars " = 1") (lexer_at "len = 1"))).
Proof.
  apply (name_is_read_whole (fun _ => 0) (lexer_at "len = 1")
           (chars "en") (chars " = 1")); reflexivity.
Defined.

Lemma plain_string_is_read_as_it_is_witness :
  Lexer.next_token (fun _ => 0)
    (Tokens.looking_at (34 :: chars "hi" ++ 34 :: chars "c;") (Lexer.start [])) =
  OK (Lexer.T_STRING,
      Tokens.looking_at (chars ";")
        (Lexer.set_string_type Lexer.C_STRING
           (Lexer.set_string_value (chars "hi")
              (Tokens.looking_at (34 :: chars "hi" ++ 34 :: chars "c;")
                                 (Lexer.start []))))).
Proof.
  apply (plain_string_is_read_as_it_is (fun _ => 0)
           (Tokens.looking_at (34 :: chars "hi" ++ 34 :: chars "c;")
                              (Lexer.start []))
           (chars "hi") (chars "c;")); reflexivity.
Defined.

Lemma unterminated_string_is_an_error_witness :
  Lexer.next_token (fun _ => 0)
    (Tokens.looking_at (34 :: chars "hi") (Lexer.start [])) =
  Error "Unexpected EOF in string".
Proof.
  apply (unterminated_string_is_an_error (fun _ => 0)
           (Tokens.looking_at (34 :: chars "hi") (Lexer.start [])));
    reflexivity.
Defined.

Lemma char_literal_holds_one_character_witness :
  Lexer.next_token (fun _ => 0) (lexer_at "'ab'") =
  Error "char with length above 1".
Proof.
  apply (char_literal_holds_one_character (fun _ => 0) (lexer_at "'ab'")
           (ch "a") (chars "b'")); reflexivity.
Defined.

Lemma two_character_operator_is_read_whole_witness :
  Lexer.next_token (fun _ => 0) (lexer_at "<=1") =
  OK (Lexer.T_LEQ, Tokens.looking_at (chars "1") (lexer_at "<=1")).
Proof.
  apply (two_character_operator_is_read_whole (fun _ => 0) (lexer_at "<=1")
           Lexer.T_LEQ).
  left. split; reflexivity.
Defined.

Lemma single_character_is_its_own_token_witness :
  Lexer.next_token (fun _ => 0) (lexer_at "/2") =
  OK (ch "/", Tokens.looking_at (chars "2") (lexer_at "/2")).
Proof.
  apply (single_character_is_its_own_token (fun _ => 0) (lexer_at "/2"));
    [reflexivity | discriminate | discriminate
    | intros _; split; discriminate].
Defined.

(** ** The lexer: the payload of a number *)

Section NumberPayload.
Import Lexer Tokens.

Lemma dots_app s c :
  dots (s ++ [c]) = (dots s + if (c =? ch ".")%Z then 1 else 0)%nat.
Proof.
  unfold dots. rewrite count_occ_app. cbn [count_occ].
  destruct (Z.eq_dec c (ch ".")) as [->|Hne].
  - reflexivity.
  - apply Z.eqb_neq in Hne. rewrite Hne. reflexivity.
Qed.

(* the digit loop keeps: the text has one dot when the flag is set, and
   none otherwise *)
Lemma num_while_dots fuel : forall stream l stream' l',
  num_while fuel stream l = OK (stream', l') ->
  dots stream = (if num_has_dot l then 1 else 0)%nat ->
  dots stream' = (if num_has_dot l' then 1 else 0)%nat.
Proof.
  induction fuel as [|fuel IH]; intros stream l stream' l' H Hd; [discriminate|].
  cbn [num_while] in H. rewrite bind_get in H.
  destruct (not_digit_of (num_base l) (last_char l));
    [injection H as <- <-; exact Hd|].
  destruct ((last_char l =? ch ".") && num_has_dot l) eqn:E;
    [injection H as <- <-; exact Hd|].
  destruct (last_char l =? ch ".") eqn:Ec.
  - cbn [andb] in E. unfold bind at 1 in H. cbn [modify] in H.
    rewrite bind_advance in H. apply IH in H; [exact H|].
    rewrite dots_app, Ec, Hd, E.
    unfold looking_at. destruct l; reflexivity.
  - unfold bind at 1 in H. cbn [ret] in H.
    rewrite bind_advance in H. apply IH in H; [exact H|].
    rewrite dots_app, Ec, Hd.
    unfold looking_at. destruct l; cbn. destruct num_has_dot0; reflexivity.
Qed.

Lemma lex_num_prefix_start l stream l' :
  lex_num_prefix l = OK (stream, l') ->
  stream = [last_char l] /\ num_has_dot l' = false.
Proof.
  destruct l as [src lc ids cv nv nb nd nt sv sty].
  unfold lex_num_prefix, advance, next_char, bind, modify, get, ret.
  destruct src as [|c1 [|c2 rest]]; cbn;
    repeat match goal with
           | |- context [if ?c then _ else _] => destruct c; cbn
           end; intros H; injection H as <- <-; split; reflexivity.
Qed.

Lemma digit_run_dots l stream l1 :
  isdigit (last_char l) = true ->
  digit_run l = OK (stream, l1) ->
  dots stream = (if num_has_dot l1 then 1 else 0)%nat.
Proof.
  intros Hd H. unfold digit_run in H.
  apply bind_inv in H. destruct H as (s0 & l0 & Hp & H).
  rewrite bind_get in H.
  destruct (lex_num_prefix_start _ _ _ Hp) as [-> Hf].
  apply (num_while_dots _ _ _ _ _ H). rewrite Hf.
  apply isdigit_range in Hd. unfold dots. cbn [count_occ].
  destruct (Z.eq_dec (last_char l) (ch ".")) as [E|_]; [|reflexivity].
  rewrite E in Hd. cbn in Hd. lia.
Qed.

(** X14: the digit text of a number holds at most one dot, and the has-dot
    flag tells whether it holds one: on a digit next_token yields NUMBER
    with a num_value of one dot when num_has_dot is set and of no dot when
    it is not. *)
Theorem number_text_has_the_dot_of_its_flag :
  forall (keywords : list Z -> Z) (l : lexer),
    isdigit (last_char l) = true ->
    exists l2,
      next_token keywords l = OK (T_NUMBER, l2) /\
      dots (num_value l2) = (if num_has_dot l2 then 1 else 0)%nat.
Proof.
  intros keywords l Hd.
  destruct (next_token_on_digit keywords l Hd) as (stream & l1 & Hrun & Hnext).
  eexists. split; [exact Hnext|].
  pose proof (digit_run_dots l stream l1 Hd Hrun) as Hdots.
  destruct (is_num_suffix (last_char l1)); destruct l1; exact Hdots.
Qed.

Lemma number_text_has_the_dot_of_its_flag_witness :
  exists l2,
    next_token (fun _ => 0) (lexer_at "1.2.3") = OK (T_NUMBER, l2) /\
    dots (num_value l2) = (if num_has_dot l2 then 1 else 0)%nat.
Proof.
  apply (number_text_has_the_dot_of_its_flag (fun _ => 0) (lexer_at "1.2.3")).
  reflexivity.
Defined.

Lemma is_num_suffix_cases c :
  is_num_suffix c = true ->
  c = ch "d" \/ c = ch "l" \/ c = ch "f" \/ c = ch "i" \/ c = ch "u" \/
  c = ch "b".
Proof.
  unfold is_num_suffix. rewrite !orb_true_iff, !Z.eqb_eq. tauto.
Qed.

(** X15: the lexer and the number node together: for the payload of any
    NUMBER token the construction of the node fails exactly when the
    literal has a dot and a num_type other than d and f; so a literal
    without a suffix is always constructed, and the num_type of a token is
    never an unknown one. *)
Theorem number_node_of_a_token :
  forall (keywords : list Z -> Z) (l : lexer) (c : compiler),
    isdigit (last_char l) = true ->
    exists l2,
      next_token keywords l = OK (T_NUMBER, l2) /\
      is_ok (AST.new_NumberExprAST (text_of (num_value l2)) (num_type l2)
                                   (num_has_dot l2) (num_base l2) c) =
      negb (num_has_dot l2 &&
            negb ((num_type l2 =? ch "d") || (num_type l2 =? ch "f"))) /\
      (is_num_suffix (num_type l2) = true).
Proof.
  intros keywords l c Hd.
  destruct (next_token_on_digit keywords l Hd) as (stream & l1 & Hrun & Hnext).
  eexists. split; [exact Hnext|].
  destruct (is_num_suffix (last_char l1)) eqn:Hs.
  - destruct l1 as [src lc ids cv nv nb nd nt sv sty].
    cbn [last_char] in Hs.
    cbn [num_type num_has_dot num_value num_base set_last_char set_source
         set_num_type set_num_value source].
    split; [|exact Hs].
    unfold AST.new_NumberExprAST, AST.num_char_to_type.
    destruct (is_num_suffix_cases lc Hs) as [E|[E|[E|[E|[E|E]]]]];
      rewrite E; destruct nd; reflexivity.
  - destruct l1 as [src lc ids cv nv nb nd nt sv sty].
    cbn [num_type num_has_dot num_value num_base set_num_type set_num_value].
    unfold AST.new_NumberExprAST, AST.num_char_to_type.
    destruct nd; split; reflexivity.
Qed.

Lemma number_node_of_a_token_witness :
  exists l2,
    next_token (fun _ => 0) (lexer_at "1.5u") = OK (T_NUMBER, l2) /\
    is_ok (AST.new_NumberExprAST (text_of (num_value l2)) (num_type l2)
             (num_has_dot l2) (num_base l2) (in_function [] [])) =
    negb (num_has_dot l2 &&
          negb ((num_type l2 =? ch "d") || (num_type l2 =? ch "f"))) /\
    (is_num_suffix (num_type l2) = true).
Proof.
  apply (number_node_of_a_token (fun _ => 0) (lexer_at "1.5u")
           (in_function [] [])).
  reflexivity.
Defined.

End NumberPayload.

(** ** Values and the cast engine *)

Section CastEngine.
Import Values.

Lemma is_ok_bind {S A B : Type} (m : M S A) (f : A -> M S B) s a s' :
  m s = OK (a, s') -> is_ok (bind m f s) = is_ok (f a s').
Proof. intros H. rewrite (bind_OK _ _ _ _ _ H). reflexivity. Qed.

Lemma is_ok_bind_never {S A B : Type} (m : M S A) (f : A -> M S B) s :
  (forall a s', is_ok (f a s') = false) -> is_ok (bind m f s) = false.
Proof.
  intros H. unfold bind. destruct (m s) as [[a s']|msg]; [apply H | reflexivity].
Qed.

Lemma is_ok_bind_fail {S A B : Type} (m : M S A) (f : A -> M S B) s :
  is_ok (m s) = false -> is_ok (bind m f s) = false.
Proof.
  unfold bind. destruct (m s) as [[a s']|msg]; [discriminate | reflexivity].
Qed.

Lemma gen_ptr_fails_without_ptr v c :
  has_ptr v = false -> is_ok (gen_ptr v c) = false.
Proof.
  intros H. destruct (gen_ptr_without_ptr v c H) as (msg & Hp).
  rewrite Hp. reflexivity.
Qed.

(* what gen_ptr leaves behind: the names of the named values it went
   through, given to the address, and nothing else *)
Lemma gen_ptr_names v : forall c ptr c',
  gen_ptr v c = OK (ptr, c') ->
  c' = set_value_names
         (map (fun name => (ptr, name)) (names_of v) ++ value_names c)%list c.
Proof.
  induction v as [t x | t p x | b f s x | t f | t x | src _ to | val IH name |];
    intros c ptr c' H; cbn [gen_ptr] in H; try discriminate H;
    try (injection H as <- <-; destruct c; reflexivity).
  apply bind_inv in H. destruct H as (value & c1 & Hv & H).
  cbn in H. injection H as <- <-.
  rewrite (IH _ _ _ Hv). destruct c; reflexivity.
Qed.

(** X16: has_ptr() tells what gen_ptr() does: gen_ptr succeeds exactly on
    the values with has_ptr() true, through any nesting of named values.
    It builds no instruction and binds no variable; all it changes in the
    state is the names of the LLVM values: every named value it goes
    through gives its name to the address, with LLVMSetValueName2, the
    innermost first; on a value that is no named value it leaves the
    state as it is. *)
Theorem has_ptr_tells_gen_ptr :
  forall (v : Value) (c : compiler),
    is_ok (gen_ptr v c) = has_ptr v /\
    forall ptr c', gen_ptr v c = OK (ptr, c') ->
                   blocks c' = blocks c /\ next_id c' = next_id c /\
                   insert_point c' = insert_point c /\
                   c' = set_value_names
                          (map (fun name => (ptr, name)) (names_of v) ++
                           value_names c)%list c /\
                   (names_of v = [] -> c' = c).
Proof.
  intros v c. split.
  - destruct (has_ptr v) eqn:H.
    + destruct (gen_ptr_of_has_ptr v c H) as (ptr & c' & Hp & _).
      rewrite Hp. reflexivity.
    + destruct (gen_ptr_without_ptr v c H) as (msg & Hp).
      rewrite Hp. reflexivity.
  - intros ptr c' Hp. pose proof (gen_ptr_names v c ptr c' Hp) as Hnames.
    split; [|split; [|split; [|split]]].
    + rewrite Hnames. reflexivity.
    + rewrite Hnames. reflexivity.
    + rewrite Hnames. reflexivity.
    + exact Hnames.
    + intros Hnone. rewrite Hnames, Hnone. destruct c; reflexivity.
Qed.

Lemma gen_val_plain v c :
  plain v = true -> exists x c', gen_val v c = OK (x, c').
Proof.
  destruct v; intros H; try discriminate H; cbn [gen_val];
    try rewrite build_eq; eexists; eexists; reflexivity.
Qed.

Lemma tuple_to_array_ok : forall n i tup_v arr_v c,
  exists x c', tuple_to_array n i tup_v arr_v c = OK (x, c').
Proof.
  induction n as [|n IH]; intros i tup_v arr_v c; cbn [tuple_to_array].
  - eexists. eexists. reflexivity.
  - unfold bind at 1. rewrite build_eq. unfold bind at 1. rewrite build_eq.
    apply IH.
Qed.

Lemma existsb_neq_forallb_eq elem types :
  existsb (fun member => Types.neq member elem) types =
  negb (forallb (fun member => Types.eq member elem) types).
Proof.
  induction types as [|t types IH]; [reflexivity|].
  cbn [existsb forallb]. rewrite IH. unfold Types.neq.
  destruct (Types.eq t elem); reflexivity.
Qed.

(* a successful cast is one of an allowed pair of types *)
Lemma cast_success_allowed v to c r :
  gen_val (cast_to v to) c = OK r ->
  cast_allowed (get_type v) to (has_ptr v) = true.
Proof.
  cbn [cast_to gen_val]. unfold cast_from, cast_allowed. intros H.
  unfold bind at 1 in H. destruct (is_null v); [discriminate H|].
  cbv beta iota delta [ret] in H.
  destruct (Types.eq (get_type v) to); [reflexivity|]. cbn [orb].
  destruct (get_type v) as [b f s | p | ts | e n | nm fs | rt args va | ].
  - apply bind_inv in H. destruct H as (x & c1 & _ & H).
    destruct to; try discriminate H; reflexivity.
  - apply bind_inv in H. destruct H as (x & c1 & _ & H).
    destruct to; try discriminate H; reflexivity.
  - destruct to; try discriminate H. unfold gen_tuple_cast in H.
    rewrite existsb_neq_forallb_eq in H.
    destruct (forallb (fun member => Types.eq member to) ts);
      [|discriminate H]. cbn [negb] in H.
    unfold bind at 1 in H. cbn [ret] in H.
    destruct (count =? Z.of_nat (List.length ts)); [reflexivity | discriminate H].
  - destruct to; try discriminate H. unfold gen_arr_cast, Types.neq in H.
    destruct (Types.eq to e); [|discriminate H]. cbn [negb] in H.
    unfold bind at 1 in H. cbn [ret] in H.
    destruct (has_ptr v); [reflexivity | discriminate H].
  - discriminate H.
  - discriminate H.
  - reflexivity.
Qed.

(* on a plain value every allowed cast succeeds *)
Lemma cast_allowed_success v to c :
  plain v = true ->
  cast_allowed (get_type v) to (has_ptr v) = true ->
  is_ok (gen_val (cast_to v to) c) = true.
Proof.
  intros Hp Ha. destruct (gen_val_plain v c Hp) as (x & c1 & Hx).
  assert (Hnull : is_null v = false)
    by (destruct v; try reflexivity; discriminate Hp).
  cbn [cast_to gen_val]. unfold cast_from, cast_allowed in *.
  rewrite Hnull. unfold bind at 1. cbv beta iota delta [ret].
  destruct (Types.eq (get_type v) to).
  { rewrite (is_ok_bind _ _ _ _ _ Hx). reflexivity. }
  cbn [orb] in Ha.
  destruct (get_type v) as [b f s | p | ts | e n | nm fs | rt args va | ].
  - rewrite (is_ok_bind _ _ _ _ _ Hx).
    destruct to; try discriminate Ha; unfold gen_num_cast.
    + destruct (bits =? 1); [destruct f; reflexivity|].
      destruct (negb is_floating && f); [reflexivity|].
      destruct (is_floating && negb f); [reflexivity|].
      destruct f; reflexivity.
    + reflexivity.
  - rewrite (is_ok_bind _ _ _ _ _ Hx).
    destruct to; try discriminate Ha; reflexivity.
  - destruct to; try discriminate Ha. apply andb_true_iff in Ha.
    destruct Ha as [Hall Hn]. unfold gen_tuple_cast.
    rewrite existsb_neq_forallb_eq, Hall, Hn. cbn [negb].
    unfold bind at 1. cbn [ret]. unfold bind at 1. cbn [ret].
    destruct (has_ptr v) eqn:Hh.
    + destruct (gen_ptr_of_has_ptr v c Hh) as (ptr & c2 & Hg & _).
      rewrite (is_ok_bind _ _ _ _ _ Hg). reflexivity.
    + rewrite (is_ok_bind _ _ _ _ _ Hx).
      destruct (tuple_to_array_ok (List.length ts) O x
                  (LLVMGetUndef (llvm_type (ArrayType to count))) c1)
        as (y & c2 & Hy).
      rewrite Hy. reflexivity.
  - destruct to; try discriminate Ha. apply andb_true_iff in Ha.
    destruct Ha as [He Hh]. unfold gen_arr_cast, Types.neq.
    rewrite He, Hh. cbn [negb].
    unfold bind at 1. cbn [ret]. unfold bind at 1. cbn [ret].
    rewrite bind_OK with (a := c) (s' := c) by reflexivity.
    destruct (gen_ptr_of_has_ptr v c Hh) as (ptr & c2 & Hg & _).
    rewrite (is_ok_bind _ _ _ _ _ Hg). reflexivity.
  - discriminate Ha.
  - discriminate Ha.
  - reflexivity.
Qed.

(** X17: the table of the cast engine: loading v.cast_to(t) succeeds only
    for an allowed pair of types (equal types; number to number or
    pointer; pointer to pointer or number; array with an address to a
    pointer to its element type; tuple to an array of its size and of the
    type of all its members; null to anything), for every value v; and for
    a value that wraps no other it succeeds for every allowed pair. *)
Theorem cast_succeeds_on_the_allowed_pairs :
  forall (v : Value) (to : Typ) (c : compiler),
    (is_ok (gen_val (cast_to v to) c) = true ->
     cast_allowed (get_type v) to (has_ptr v) = true) /\
    (plain v = true ->
     is_ok (gen_val (cast_to v to) c) =
     cast_allowed (get_type v) to (has_ptr v)).
Proof.
  intros v to c. split.
  - intros H. destruct (gen_val (cast_to v to) c) as [r|msg] eqn:E;
      [|discriminate H].
    apply (cast_success_allowed v to c r E).
  - intros Hp.
    destruct (cast_allowed (get_type v) to (has_ptr v)) eqn:Ha.
    + apply cast_allowed_success; assumption.
    + destruct (gen_val (cast_to v to) c) as [r|msg] eqn:E; [|reflexivity].
      rewrite (cast_success_allowed v to c r E) in Ha. discriminate.
Qed.

Lemma cast_succeeds_on_the_allowed_pairs_witness :
  is_ok (gen_val (cast_to (ConstValue (ArrayType I32 4) (LLVMGetUndef
                                         (LLVMArrayType (LLVMIntType 32) 4)))
                          (PointerType I32)) (in_function [] [])) = false.
Proof.
  rewrite (proj2 (cast_succeeds_on_the_allowed_pairs
                    (ConstValue (ArrayType I32 4)
                       (LLVMGetUndef (LLVMArrayType (LLVMIntType 32) 4)))
                    (PointerType I32) (in_function [] [])) eq_refl).
  reflexivity.
Defined.

End CastEngine.

(** ** The AST: pointers, assignments and variables *)

Section Operands.
Import AST.



(** X19: pointer arithmetic does not mind the order of its operands: with
    a pointer and a number on either side, + is a GEP on the pointer with
    the number as index, and - is a GEP on the pointer with 0 minus the
    number as index; so `n - p` moves the pointer p back by n, as `p - n`
    does. *)
Theorem pointer_arithmetic_in_either_order :
  forall (pointer_first : bool) (LHS RHS : ExprAST) (type t : Typ)
         (bits : Z) (is_floating is_signed : bool)
         (c c1 c2 c3 c4 : compiler) (lhs_v rhs_v : Value) (L R : LLVMValueRef),
    get_type LHS = (if pointer_first then PointerType t
                    else NumType bits is_floating is_signed) ->
    get_type RHS = (if pointer_first then NumType bits is_floating is_signed
                    else PointerType t) ->
    gen_value LHS c = OK (lhs_v, c1) -> Values.gen_val lhs_v c1 = OK (L, c2) ->
    gen_value RHS c2 = OK (rhs_v, c3) -> Values.gen_val rhs_v c3 = OK (R, c4) ->
    let ptr := if pointer_first then L else R in
    let num := if pointer_first then R else L in
    gen_value (BinaryExprAST (ch "+") LHS RHS type) c =
      (x <- build (LLVMBuildGEP2 (llvm_type t) ptr [num] "ptraddtmp") ;;
       ret (ConstValue type x)) c4 /\
    gen_value (BinaryExprAST (ch "-") LHS RHS type) c =
      (n <- build (LLVMBuildSub (LLVMConstInt (LLVMIntType 32) 0 false) num) ;;
       x <- build (LLVMBuildGEP2 (llvm_type t) ptr [n] "ptraddtmp") ;;
       ret (ConstValue type x)) c4.
Proof.
  intros pointer_first LHS RHS type t bits fl sg c c1 c2 c3 c4 lhs_v rhs_v L R
         HL HR H1 H2 H3 H4 ptr num.
  split; cbn [gen_value];
    [change (ch "+" =? ch "=") with false | change (ch "-" =? ch "=") with false];
    cbv iota;
    rewrite (bind_OK _ _ _ _ _ H1), (bind_OK _ _ _ _ _ H2),
            (bind_OK _ _ _ _ _ H3), (bind_OK _ _ _ _ _ H4), HL, HR;
    destruct pointer_first; reflexivity.
Qed.

Lemma pointer_arithmetic_in_either_order_witness :
  exists c4,
    gen_value (BinaryExprAST (ch "-") (NumberExprAST "2" 10 I32)
                 (VariableExprAST "p" (PointerType I32)) (PointerType I32))
              (in_function [("p", ConstValue (PointerType I32) (GlobalVar "p" 0))]
                           [("p", PointerType I32)]) =
      OK (ConstValue (PointerType I32) (Instr 1), c4) /\
    emitted c4 =
      [[(0%nat, LLVMBuildSub (LLVMConstInt (LLVMIntType 32) 0 false)
                  (LLVMConstIntOfStringAndSize (LLVMIntType 32) "2" 10));
        (1%nat, LLVMBuildGEP2 (LLVMIntType 32) (GlobalVar "p" 0) [Instr 0]
                  "ptraddtmp")]].
Proof.
  eexists. split.
  - set (st := in_function [("p", ConstValue (PointerType I32) (GlobalVar "p" 0))]
                           [("p", PointerType I32)]).
    rewrite (proj2 (pointer_arithmetic_in_either_order false
               (NumberExprAST "2" 10 I32)
               (VariableExprAST "p" (PointerType I32)) (PointerType I32)
               I32 32 false true st st st st st
               (ConstValue I32 (LLVMConstIntOfStringAndSize (LLVMIntType 32) "2" 10))
               (ConstValue (PointerType I32) (GlobalVar "p" 0))
               (LLVMConstIntOfStringAndSize (LLVMIntType 32) "2" 10)
               (GlobalVar "p" 0)
               eq_refl eq_refl eq_refl eq_refl eq_refl eq_refl)).
    reflexivity.
  - reflexivity.
Defined.

(** X20: an assignment needs a left side with an address: when the value
    of the left side has none (a literal, a constant, a cast, the result of
    an operator) the emission is a fatal error; when it has one, the right
    side is loaded through a cast to the type of the left side and stored
    there, and the value of the assignment is that address, read at the
    type the node caches. *)
Theorem assignment_stores_through_an_address :
  forall (LHS RHS : ExprAST) (type : Typ) (c c1 : compiler) (lhs_v : Value),
    gen_value LHS c = OK (lhs_v, c1) ->
    (Values.has_ptr lhs_v = false ->
     is_ok (gen_value (BinaryExprAST (ch "=") LHS RHS type) c) = false) /\
    (forall ptr c2 rhs_v c3 x c4,
       Values.gen_ptr lhs_v c1 = OK (ptr, c2) ->
       gen_value RHS c2 = OK (rhs_v, c3) ->
       Values.gen_val (Values.cast_to rhs_v (get_type LHS)) c3 = OK (x, c4) ->
       exists c5,
         gen_value (BinaryExprAST (ch "=") LHS RHS type) c =
           OK (BasicLoadValue type ptr, c5) /\
         emitted c5 = emitted (set_blocks
                         (place (insert_point c4)
                                (next_id c4, LLVMBuildStore x ptr) (blocks c4))
                         c4)).
Proof.
  intros LHS RHS type c c1 lhs_v H1. split.
  - intros Hp. cbn [gen_value]. change (ch "=" =? ch "=") with true. cbv iota.
    rewrite (is_ok_bind _ _ _ _ _ H1). apply is_ok_bind_fail.
    apply gen_ptr_fails_without_ptr. exact Hp.
  - intros ptr c2 rhs_v c3 x c4 H2 H3 H4. eexists. split.
    + cbn [gen_value]. change (ch "=" =? ch "=") with true. cbv iota.
      rewrite (bind_OK _ _ _ _ _ H1), (bind_OK _ _ _ _ _ H2),
              (bind_OK _ _ _ _ _ H3), (bind_OK _ _ _ _ _ H4).
      unfold bind. rewrite build_eq. reflexivity.
    + reflexivity.
Qed.

Lemma assignment_stores_through_an_address_witness :
  is_ok (gen_value (BinaryExprAST (ch "=") (NumberExprAST "1" 10 I32)
                      (NumberExprAST "2" 10 I32) I32) abx) = false.
Proof.
  apply (proj1 (assignment_stores_through_an_address
                  (NumberExprAST "1" 10 I32) (NumberExprAST "2" 10 I32) I32
                  abx abx _ eq_refl)).
  reflexivity.
Defined.

(** X21: a let declares its name: after the construction of a let, a
    variable node for the name is constructed with the type of the let,
    which is the declared type when there is one and the type of the
    initializer otherwise; a let with neither is a fatal error, and so is a
    variable node for a name that no let, parameter or prototype has
    declared. *)
Theorem let_declares_its_name :
  forall (id : string) (type : option Typ) (value : option ExprAST)
         (constant global : bool) (c : compiler),
    match type, value with
    | None, None =>
        new_LetExprAST id type value constant global c =
        Error "Untyped valueless variable"
    | _, _ =>
        let t := match type, value with
                 | Some t, _ => t
                 | None, Some v => get_type v
                 | None, None => NullType
                 end in
        exists c',
          new_LetExprAST id type value constant global c =
            OK (LetExprAST id t value constant global, c') /\
          new_VariableExprAST id c' = OK (VariableExprAST id t, c')
    end /\
    (lookup id (curr_named_var_types c) = None ->
     new_VariableExprAST id c = Error "Error: Variable doesn't exist.").
Proof.
  intros id type value constant global c. split.
  - destruct type as [t|]; [|destruct value as [v|]];
      try (eexists; split; [reflexivity|];
           unfold new_VariableExprAST; rewrite bind_OK with (a := _) (s' := _)
             by reflexivity;
           cbn; rewrite String.eqb_refl; reflexivity).
    reflexivity.
  - intros H. unfold new_VariableExprAST, bind, get. rewrite H. reflexivity.
Qed.

(** X22: what a let binds when it is emitted: a constant let emits its
    initializer and nothing else, binds its name to the value of the
    initializer, as it is, and returns it, and it fails when the
    initializer does; a let without initializer that is not constant
    builds an alloca and binds its name to this new stack slot, of the
    type of the let; in both cases a variable node for the name, emitted
    next, yields the very value the let returned and changes nothing.  A
    constant let without initializer is a fatal error. *)
Theorem emitted_let_binds_its_value :
  forall (id : string) (type type' : Typ) (global : bool) (c : compiler),
    (forall init v c1,
       gen_value init c = OK (v, c1) ->
       gen_value (LetExprAST id type (Some init) true global) c =
         OK (v, bound_to id v c1) /\
       gen_value (VariableExprAST id type') (bound_to id v c1) =
         OK (v, bound_to id v c1)) /\
    (forall init msg,
       gen_value init c = Error msg ->
       gen_value (LetExprAST id type (Some init) true global) c = Error msg) /\
    (forall init v c',
       gen_value (LetExprAST id type (Some init) true global) c = OK (v, c') ->
       (exists c1, gen_value init c = OK (v, c1) /\ c' = bound_to id v c1) /\
       gen_value (VariableExprAST id type') c' = OK (v, c')) /\
    (exists ptr c1,
       build (LLVMBuildAlloca (llvm_type type) id) c = OK (ptr, c1) /\
       ptr = Instr (next_id c) /\
       gen_value (LetExprAST id type None false global) c =
         OK (BasicLoadValue type ptr, bound_to id (BasicLoadValue type ptr) c1) /\
       gen_value (VariableExprAST id type')
                 (bound_to id (BasicLoadValue type ptr) c1) =
         OK (BasicLoadValue type ptr,
             bound_to id (BasicLoadValue type ptr) c1)) /\
    gen_value (LetExprAST id type None true global) c =
      Error "Constant variables need an initialization value".
Proof.
  intros id type type' global c.
  assert (Hvar : forall v c1,
            gen_value (VariableExprAST id type') (bound_to id v c1) =
            OK (v, bound_to id v c1)).
  { intros v c1. cbn. rewrite String.eqb_refl. reflexivity. }
  split; [|split; [|split; [|split]]].
  - intros init v c1 H. split; [|apply Hvar].
    cbn [gen_value]. rewrite (bind_OK _ _ _ _ _ H). reflexivity.
  - intros init msg H. cbn [gen_value]. apply bind_Error. exact H.
  - intros init v c' H. cbn [gen_value] in H.
    apply bind_inv in H. destruct H as (v1 & c1 & Hinit & H).
    cbn in H. injection H as <- <-.
    split; [exists c1; split; [exact Hinit | reflexivity]|]. apply Hvar.
  - eexists. eexists. split; [apply build_eq|]. split; [reflexivity|].
    split; [reflexivity|]. apply Hvar.
  - reflexivity.
Qed.

Lemma emitted_let_binds_its_value_witness :
  gen_value (LetExprAST "k" I32 (Some (NumberExprAST "7" 10 I32)) true false)
            abx =
    OK (ConstValue I32 (LLVMConstIntOfStringAndSize (LLVMIntType 32) "7" 10),
        bound_to "k"
          (ConstValue I32 (LLVMConstIntOfStringAndSize (LLVMIntType 32) "7" 10))
          abx) /\
  gen_value (VariableExprAST "k" I32)
            (bound_to "k"
               (ConstValue I32
                  (LLVMConstIntOfStringAndSize (LLVMIntType 32) "7" 10)) abx) =
    OK (ConstValue I32 (LLVMConstIntOfStringAndSize (LLVMIntType 32) "7" 10),
        bound_to "k"
          (ConstValue I32 (LLVMConstIntOfStringAndSize (LLVMIntType 32) "7" 10))
          abx).
Proof.
  apply (proj1 (emitted_let_binds_its_value "k" I32 I32 false abx)
           (NumberExprAST "7" 10 I32)).
  reflexivity.
Defined.

Lemma address_of_value e type c val c1 ptr c2 :
  gen_value e c = OK (val, c1) ->
  Values.gen_ptr val c1 = OK (ptr, c2) ->
  gen_value (UnaryExprAST (ch "&") e type) c = OK (ConstValue type ptr, c2).
Proof.
  intros Hv Hg. cbn [gen_value]. rewrite (bind_OK _ _ _ _ _ Hv).
  change (ch "&" =? ch "!") with false. change (ch "&" =? ch "-") with false.
  change (ch "&" =? ch "*") with false. change (ch "&" =? ch "&") with true.
  cbv iota. rewrite (bind_OK _ _ _ _ _ Hg). reflexivity.
Qed.

Lemma dereference_value operand type c val c1 p c2 :
  gen_value operand c = OK (val, c1) ->
  Values.gen_val val c1 = OK (p, c2) ->
  gen_value (UnaryExprAST (ch "*") operand type) c =
  OK (BasicLoadValue type p, c2).
Proof.
  intros Hv Hg. cbn [gen_value]. rewrite (bind_OK _ _ _ _ _ Hv).
  change (ch "*" =? ch "!") with false. change (ch "*" =? ch "-") with false.
  change (ch "*" =? ch "*") with true.
  cbv iota. rewrite (bind_OK _ _ _ _ _ Hg). reflexivity.
Qed.

(** X23: taking the address and dereferencing it gives the operand back:
    for an operand e whose value has an address, `*&e` is constructed with
    the type of e, and emitted it is the slot of e itself, with no
    instruction built beyond those of e; for an operand whose value has no
    address, `&e` is constructed all the same and its emission is a fatal
    error. *)
Theorem dereferenced_address_is_the_operand :
  forall (e : ExprAST) (c0 c c1 : compiler) (val : Value),
    gen_value e c = OK (val, c1) ->
    exists addr,
      (a <- new_UnaryExprAST (ch "&") e ;; new_UnaryExprAST (ch "*") a) c0 =
        OK (UnaryExprAST (ch "*") addr (get_type e), c0) /\
      addr = UnaryExprAST (ch "&") e (PointerType (get_type e)) /\
      (Values.has_ptr val = false -> is_ok (gen_value addr c) = false) /\
      (Values.has_ptr val = true ->
       exists ptr c2,
         Values.gen_ptr val c1 = OK (ptr, c2) /\
         gen_value (UnaryExprAST (ch "*") addr (get_type e)) c =
           OK (BasicLoadValue (get_type e) ptr, c2) /\
         blocks c2 = blocks c1 /\ next_id c2 = next_id c1).
Proof.
  intros e c0 c c1 val Hv. eexists. split; [reflexivity|].
  split; [reflexivity|]. split.
  - intros Hp. cbn [gen_value]. rewrite (is_ok_bind _ _ _ _ _ Hv).
    change (ch "&" =? ch "!") with false. change (ch "&" =? ch "-") with false.
    change (ch "&" =? ch "*") with false. change (ch "&" =? ch "&") with true.
    cbv iota. apply is_ok_bind_fail.
    apply gen_ptr_fails_without_ptr. exact Hp.
  - intros Hp.
    destruct (gen_ptr_of_has_ptr val c1 Hp) as (ptr & c2 & Hg & Hb & Hn & _).
    exists ptr, c2. split; [exact Hg|]. split; [|split; assumption].
    apply (dereference_value _ _ c (ConstValue (PointerType (get_type e)) ptr)
                             c2 ptr c2);
      [apply (address_of_value e _ c val c1 ptr c2 Hv Hg) | reflexivity].
Qed.

Lemma dereferenced_address_is_the_operand_witness :
  gen_value (UnaryExprAST (ch "*")
               (UnaryExprAST (ch "&") (VariableExprAST "a" I32) (PointerType I32))
               I32) abx =
  OK (BasicLoadValue I32 (GlobalVar "a" 0), abx).
Proof.
  destruct (dereferenced_address_is_the_operand (VariableExprAST "a" I32)
              abx abx abx (BasicLoadValue I32 (GlobalVar "a" 0)) eq_refl)
    as (addr & _ & -> & _ & H).
  destruct (H eq_refl) as (ptr & c2 & Hg & Hrun & _).
  cbn in Hg. injection Hg as <- <-. exact Hrun.
Defined.

End Operands.

(** ** Blocks, methods and prototypes *)

Section Blocks.
Import AST.

Lemma block_cons e e' rest type c :
  gen_value (BlockExprAST (e :: e' :: rest) type) c =
  (gen_value e ;;; gen_value (BlockExprAST (e' :: rest) type)) c.
Proof. reflexivity. Qed.

(* part_001:124-126 on a name without a value: the null pointer, and the
   name bound to it *)
Lemma variable_without_value name type c :
  lookup name (curr_named_variables c) = None ->
  gen_value (VariableExprAST name type) c =
  OK (NullValue, bound_to name NullValue c).
Proof. intros H. cbn. rewrite H. reflexivity. Qed.

(** X24: a block is its expressions in order: the emission of a block is
    the emission of every expression before the last, one after the other
    with their values dropped, followed by the emission of the last, whose
    value is the value of the block; so the first failure ends it.  A name
    without a value is no failure there: the variable node yields the null
    pointer, which the block drops, and the block goes on with the name
    bound to the null pointer; as the last expression it makes the null
    pointer the value of the block. *)
Theorem block_is_its_expressions_in_order :
  forall (exprs : list ExprAST) (last_expr : ExprAST) (type : Typ)
         (c : compiler),
    gen_value (BlockExprAST (exprs ++ [last_expr]) type) c =
      (emit_all exprs ;;; gen_value last_expr) c /\
    (forall name t,
       lookup name (curr_named_variables c) = None ->
       gen_value
         (BlockExprAST (VariableExprAST name t :: exprs ++ [last_expr]) type) c =
       gen_value (BlockExprAST (exprs ++ [last_expr]) type)
                 (bound_to name NullValue c) /\
       gen_value (BlockExprAST [VariableExprAST name t] type) c =
       OK (NullValue, bound_to name NullValue c)).
Proof.
  intros exprs last_expr type c. split.
  - revert c. induction exprs as [|e exprs IH]; intros c.
    + reflexivity.
    + cbn [app emit_all].
      destruct (exprs ++ [last_expr])%list as [|e' rest] eqn:E.
      { destruct exprs; discriminate E. }
      rewrite block_cons. unfold bind.
      destruct (gen_value e c) as [[v c1]|msg]; [|reflexivity].
      apply IH.
  - intros name t Hnone. split.
    + destruct (exprs ++ [last_expr])%list as [|e' rest] eqn:E.
      { destruct exprs; discriminate E. }
      rewrite block_cons.
      rewrite (bind_OK _ _ _ _ _ (variable_without_value name t c Hnone)).
      reflexivity.
    + cbn. rewrite Hnone. reflexivity.
Qed.

Lemma block_is_its_expressions_in_order_witness :
  gen_value (BlockExprAST [VariableExprAST "u" I32; NumberExprAST "1" 10 I32]
                          I32) abx =
  OK (ConstValue I32 (LLVMConstIntOfStringAndSize (LLVMIntType 32) "1" 10),
      bound_to "u" NullValue abx).
Proof.
  refine (eq_trans
            (proj1 (proj2 (block_is_its_expressions_in_order
                             [] (NumberExprAST "1" 10 I32) I32 abx) "u" I32
                      eq_refl)) _).
  reflexivity.
Defined.

End Blocks.

Section MethodNames.
Import AST Methods.
Local Open Scope string_scope.

Lemma string_length_append (a b : string) :
  String.length (a ++ b) = (String.length a + String.length b)%nat.
Proof. induction a as [|c a IH]; cbn; [reflexivity | rewrite IH; reflexivity]. Qed.

Lemma string_append_assoc (a b c : string) : (a ++ b) ++ c = a ++ (b ++ c).
Proof. induction a as [|x a IH]; cbn; [reflexivity | rewrite IH; reflexivity]. Qed.

Lemma string_append_inv_tail (z : string) : forall a b : string,
  a ++ z = b ++ z -> a = b.
Proof.
  induction a as [|x a IH]; intros b H.
  - destruct b as [|y b]; [reflexivity|].
    apply (f_equal String.length) in H. cbn in H.
    rewrite string_length_append in H. lia.
  - destruct b as [|y b].
    + apply (f_equal String.length) in H. cbn in H.
      rewrite string_length_append in H. lia.
    + cbn in H. injection H as -> H. f_equal. apply IH. exact H.
Qed.

Lemma has_colon_append (a b : string) :
  has_colon (a ++ b) = has_colon a || has_colon b.
Proof.
  induction a as [|c a IH]; cbn; [reflexivity|].
  rewrite IH, orb_assoc. reflexivity.
Qed.

Lemma after_last_colon_append (x n : string) :
  has_colon n = false -> after_last_colon (x ++ String ":" n) = n.
Proof.
  intros Hn. induction x as [|c x IH]; cbn.
  - rewrite Hn. reflexivity.
  - rewrite has_colon_append. cbn. rewrite orb_true_r. exact IH.
Qed.

Lemma substring_full (s : string) : substring 0 (String.length s) s = s.
Proof. induction s as [|c s IH]; cbn; [reflexivity | rewrite IH; reflexivity]. Qed.

Variable stringify : Typ -> string.

Lemma extension_name_shape base_type name name_len :
  fst (get_complete_extension_name stringify base_type name name_len) =
  ("(" ++ stringify base_type ++ "):") ++ String ":" name.
Proof.
  unfold get_complete_extension_name. cbn [fst].
  rewrite !string_append_assoc. reflexivity.
Qed.

(** X25: the mangled name of a method tells the type and the method apart:
    for method names without a colon, two mangled names are equal only for
    the same method name and the same printed type; and the length
    returned with the mangled name is its length exactly when the
    name_len given is the length of the name. *)
Theorem extension_name_is_injective :
  (forall (t1 t2 : Typ) (n1 n2 : string) (k1 k2 : nat),
     has_colon n1 = false -> has_colon n2 = false ->
     fst (get_complete_extension_name stringify t1 n1 k1) =
     fst (get_complete_extension_name stringify t2 n2 k2) ->
     stringify t1 = stringify t2 /\ n1 = n2) /\
  (forall (t : Typ) (n : string) (k : nat),
     snd (get_complete_extension_name stringify t n k) =
     String.length (fst (get_complete_extension_name stringify t n k)) <->
     k = String.length n).
Proof.
  split.
  - intros t1 t2 n1 n2 k1 k2 H1 H2 H.
    rewrite !extension_name_shape in H.
    assert (Hn : n1 = n2).
    { apply (f_equal after_last_colon) in H.
      rewrite !after_last_colon_append in H by assumption. exact H. }
    subst n2. split; [|reflexivity].
    apply string_append_inv_tail in H.
    cbn in H. injection H as H.
    apply (string_append_inv_tail "):" _ _ H).
  - intros t n k. unfold get_complete_extension_name. cbn [fst snd].
    rewrite !string_length_append. cbn [String.length]. lia.
Qed.

End MethodNames.

Lemma extension_name_is_injective_witness :
  (fun _ => "i32")%string I32 = (fun _ => "i32")%string I32 /\
  "len"%string = "len"%string.
Proof.
  apply (proj1 (extension_name_is_injective (fun _ => "i32")%string)
           I32 I32 "len" "len" 3%nat 3%nat)%string; reflexivity.
Defined.

Section MethodCalls.
Import AST Methods.
Variable stringify : Typ -> string.

Lemma extension_name_length t n :
  snd (get_complete_extension_name stringify t n (String.length n)) =
  String.length (fst (get_complete_extension_name stringify t n (String.length n))).
Proof.
  unfold get_complete_extension_name. cbn [fst snd].
  rewrite !string_length_append. cbn [String.length]. lia.
Qed.

Lemma mangled_prefix (t n : string) :
  std_string (String "(" ((t ++ ")::") ++ n))
             (S (S (S (S (String.length t + String.length n))))) =
  String "(" ((t ++ ")::") ++ n).
Proof.
  unfold std_string.
  replace (S (S (S (S (String.length t + String.length n)))))
    with (String.length (String "(" ((t ++ ")::") ++ n))).
  - apply substring_full.
  - cbn [String.length]. rewrite !string_length_append. cbn [String.length]. lia.
Qed.

(** X26: a method that is declared is found when it is called: after the
    construction of the prototype of a method of a type, with a name given
    with its length, a call of that method on a receiver of this type with
    as many arguments as the prototype has (or at least as many, for a
    vararg one) is constructed: it is the call of the variable of the
    mangled name, of the function type of the prototype, with the receiver
    as last argument after the arguments given, and its type is the return
    type of the prototype. *)
Theorem declared_method_is_found :
  forall (this_type : Typ) (name : string) (arg_names : list string)
         (arg_types : list Typ) (return_type : Typ) (vararg : bool)
         (c c1 : compiler) (p : PrototypeAST)
         (source : ExprAST) (args : list ExprAST),
    new_PrototypeAST_of stringify this_type name (String.length name)
                        arg_names arg_types return_type vararg c = OK (p, c1) ->
    get_type source = this_type ->
    (if vararg then Nat.leb (List.length arg_types) (List.length args)
     else Nat.eqb (List.length args) (List.length arg_types)) = true ->
    let mangled :=
      fst (get_complete_extension_name stringify this_type name
                                       (String.length name)) in
    let func_t := FunctionType return_type (arg_types ++ [this_type]) vararg in
    type p = func_t /\
    new_MethodCallExprAST stringify name (String.length name) source args c1 =
    OK (CallExprAST func_t (VariableExprAST mangled func_t) (args ++ [source])
                    return_type, c1).
Proof.
  intros this_type name arg_names arg_types return_type vararg c c1 p source
         args Hp Hs Hn mangled func_t.
  unfold new_PrototypeAST_of, new_PrototypeAST in Hp.
  unfold bind, modify, ret in Hp. injection Hp as Hpv Hc.
  split; [rewrite <- Hpv; reflexivity|].
  unfold new_MethodCallExprAST. rewrite Hs. fold mangled.
  assert (Hl : lookup mangled (curr_named_var_types c1) = Some func_t).
  { rewrite <- Hc.
    cbn [curr_named_var_types set_curr_named_var_types insert lookup].
    rewrite mangled_prefix.
    change (String "(" ((stringify this_type ++ ")::") ++ name))%string
      with mangled.
    rewrite String.eqb_refl. reflexivity. }
  assert (Hv : new_VariableExprAST mangled c1
               = OK (VariableExprAST mangled func_t, c1)).
  { unfold new_VariableExprAST. unfold bind at 1. cbn [get].
    rewrite Hl. reflexivity. }
  rewrite (bind_OK _ _ _ _ _ Hv). clear Hl Hv. subst func_t.
  unfold new_CallExprAST. cbn [get_type]. unfold bind at 1. cbn [ret].
  rewrite !length_app. cbn [List.length].
  destruct vararg.
  - replace (Nat.ltb (List.length args + 1) (List.length arg_types + 1))
      with false; [reflexivity|].
    symmetry. apply Nat.ltb_ge. apply Nat.leb_le in Hn. lia.
  - apply Nat.eqb_eq in Hn. rewrite Hn, Nat.eqb_refl. reflexivity.
Qed.

End MethodCalls.

Lemma declared_method_is_found_witness :
  exists p c1 e,
    Methods.new_PrototypeAST_of (fun _ => "*i8")%string (PointerType (NumType 8 false false))
      "length" 6 [] [] I32 false abx = OK (p, c1) /\
    Methods.new_MethodCallExprAST (fun _ => "*i8")%string "length" 6
      (AST.StringExprAST [104; 0] (NumType 8 false true)
         (TupleType [NumType 8 false true; NumType 8 false true])
         (PointerType (NumType 8 false false))) [] c1 = OK (e, c1) /\
    AST.get_type e = I32.
Proof.
  eexists. eexists. eexists. split; [vm_compute; reflexivity|].
  split.
  - eapply proj2.
    eapply (declared_method_is_found (fun _ => "*i8")%string
              (PointerType (NumType 8 false false)) "length" [] [] I32 false abx);
      [vm_compute; reflexivity | reflexivity | reflexivity].
  - reflexivity.
Defined.

(** ** More on the construction and the emission of expressions *)

Section MoreEmission.
Import AST.

(** X27: an operator over a floating number and an integer is let through
    by the constructor, whatever the operator, and can never be emitted:
    the emission of the node is a fatal error in every state. *)
Theorem float_with_integer_fails_at_emission :
  forall (op : Z) (LHS RHS : ExprAST) (c : compiler)
         (lb rb : Z) (lf ls rf rs : bool),
    op <> ch "=" ->
    get_type LHS = NumType lb lf ls ->
    get_type RHS = NumType rb rf rs ->
    lf <> rf ->
    exists e,
      new_BinaryExprAST op LHS RHS c = OK (e, c) /\
      forall c', is_ok (gen_value e c') = false.
Proof.
  intros op LHS RHS c lb rb lf ls rf rs Hop HL HR Hf.
  apply Z.eqb_neq in Hop.
  unfold new_BinaryExprAST. rewrite Hop, HL, HR. cbn [type_type].
  eexists. split; [reflexivity|].
  intros c'. cbn [gen_value]. rewrite Hop, HL, HR.
  do 4 (apply is_ok_bind_never; intros ? ?).
  apply is_ok_bind_fail. unfold gen_num_num_binop.
  apply is_ok_bind_never. intros ? ?.
  destruct lf, rf; try contradiction; reflexivity.
Qed.

Lemma float_with_integer_fails_at_emission_witness :
  exists e,
    new_BinaryExprAST (ch "+") (VariableExprAST "a" I32)
                      (VariableExprAST "x" F64) abx = OK (e, abx) /\
    forall c', is_ok (gen_value e c') = false.
Proof.
  apply (float_with_integer_fails_at_emission (ch "+") (VariableExprAST "a" I32)
           (VariableExprAST "x" F64) abx 32 64 false true true true);
    try reflexivity; discriminate.
Defined.

(** X28: the elements of a string literal are not of the type of a
    character literal: a string node has the type of a pointer to signed
    bytes, a character node the type of an unsigned byte, so an element of
    a string, by index or by dereference, and a character do not go
    together as the two arms of an if. *)
Theorem string_element_is_not_a_character :
  forall (chars : list Z) (index cond : ExprAST) (charr : Z)
         (c c1 : compiler) (s : ExprAST),
    new_StringExprAST chars c = OK (s, c1) ->
    exists by_index by_star,
      new_IndexExprAST s index c1 = OK (by_index, c1) /\
      new_UnaryExprAST (ch "*") s c1 = OK (by_star, c1) /\
      get_type by_index = NumType 8 false true /\
      get_type by_star = NumType 8 false true /\
      get_type (CharExprAST charr) = NumType 8 false false /\
      is_ok (new_IfExprAST cond (CharExprAST charr) (Some by_index) c1) = false /\
      is_ok (new_IfExprAST cond by_star (Some (CharExprAST charr)) c1) = false.
Proof.
  intros chars index cond charr c c1 s Hs.
  unfold new_StringExprAST in Hs.
  destruct (negb (last chars 1 =? 0)); cbn in Hs; [discriminate Hs|].
  injection Hs as <- <-.
  eexists. eexists. repeat split; reflexivity.
Qed.

Lemma string_element_is_not_a_character_witness :
  exists by_index by_star,
    new_IndexExprAST (StringExprAST [104; 0] (NumType 8 false true)
                        (TupleType (repeat (NumType 8 false true) 2))
                        (PointerType (NumType 8 false true)))
                     (NumberExprAST "0" 10 I32) abx = OK (by_index, abx) /\
    new_UnaryExprAST (ch "*") (StringExprAST [104; 0] (NumType 8 false true)
                        (TupleType (repeat (NumType 8 false true) 2))
                        (PointerType (NumType 8 false true))) abx
      = OK (by_star, abx) /\
    get_type by_index = NumType 8 false true /\
    get_type by_star = NumType 8 false true /\
    get_type (CharExprAST 104) = NumType 8 false false /\
    is_ok (new_IfExprAST (BoolExprAST true (NumType 1 false false))
             (CharExprAST 104) (Some by_index) abx) = false /\
    is_ok (new_IfExprAST (BoolExprAST true (NumType 1 false false))
             by_star (Some (CharExprAST 104)) abx) = false.
Proof.
  apply (string_element_is_not_a_character [104; 0] (NumberExprAST "0" 10 I32)
           (BoolExprAST true (NumType 1 false false)) 104 abx abx).
  reflexivity.
Defined.

(** X29: the initializer of a let that is not constant sees the new
    binding: the stack slot is allocated and bound to the name before the
    initializer is emitted, so `let x: T = x` loads from the slot it has
    just allocated, not from an x bound before, whatever the type of that
    one, and stores that back. *)
Theorem let_initializer_sees_the_new_slot :
  forall (id : string) (type type' : Typ) (global : bool) (c : compiler),
    exists c',
      gen_value (LetExprAST id type (Some (VariableExprAST id type')) false global)
                c = OK (BasicLoadValue type (Instr (next_id c)), c') /\
      next_id c' = (next_id c + 4)%nat /\
      forall bb,
        insert_point c = Some (bb, None) ->
        (bb < List.length (blocks c))%nat ->
        exists before,
          nth_error (emitted c) bb = Some before /\
          nth_error (emitted c') bb =
          Some (before ++
                [(next_id c, LLVMBuildAlloca (llvm_type type) id);
                 (S (next_id c),
                  LLVMBuildLoad2 (llvm_type type) (Instr (next_id c)));
                 (S (S (next_id c)),
                  LLVMBuildBitCast (Instr (S (next_id c))) (llvm_type type));
                 (S (S (S (next_id c))),
                  LLVMBuildStore (Instr (S (S (next_id c))))
                                 (Instr (next_id c)))])%list.
Proof.
  intros id type type' global c.
  cbn [gen_value]. unfold bind at 1. rewrite build_eq.
  unfold bind at 1. cbn [modify]. unfold bind at 1.
  unfold bind at 1. cbn [get curr_named_variables set_curr_named_variables
                         insert lookup].
  rewrite String.eqb_refl. cbn [ret].
  unfold bind at 1. cbn [Values.cast_to Values.gen_val].
  unfold Values.cast_from. cbn [Values.get_type Values.is_null].
  unfold bind at 1. cbv beta iota delta [ret]. rewrite eq_reflexive.
  unfold bind at 1. rewrite build_eq. rewrite build_eq.
  unfold bind at 1. rewrite build_eq. cbn [ret].
  eexists. split; [reflexivity|]. split.
  - cbn. lia.
  - intros bb Hi Hb. destruct c as [bs ip nid gl vn pb vars vts nts].
    cbn in Hi, Hb |- *. subst ip. cbn [place].
    unfold emitted. cbn [blocks].
    clear - Hb. revert bb Hb.
    induction bs as [|b bs IH]; intros bb Hb; [cbn in Hb; lia|].
    destruct bb as [|bb].
    + cbn. eexists. split; [reflexivity|].
      rewrite <- !app_assoc. reflexivity.
    + cbn [update_nth map nth_error]. apply IH. cbn in Hb. lia.
Qed.

Lemma let_initializer_sees_the_new_slot_witness :
  exists c',
    gen_value (LetExprAST "a" I32 (Some (VariableExprAST "a" I32)) false false)
              abx = OK (BasicLoadValue I32 (Instr 0), c') /\
    emitted c' =
      [[(0%nat, LLVMBuildAlloca (LLVMIntType 32) "a");
        (1%nat, LLVMBuildLoad2 (LLVMIntType 32) (Instr 0));
        (2%nat, LLVMBuildBitCast (Instr 1) (LLVMIntType 32));
        (3%nat, LLVMBuildStore (Instr 2) (Instr 0))]].
Proof.
  destruct (let_initializer_sees_the_new_slot "a" I32 I32 false abx)
    as (c' & Hrun & _ & _).
  exists c'. split; [exact Hrun|].
  vm_compute in Hrun. injection Hrun as <-. reflexivity.
Defined.

End MoreEmission.

(** ** A let at the top level *)

Section GlobalLet.
Import AST TopLevel.

(** X30: a let at the top level adds a global of the type of the let and
    binds the name to it: without initializer it builds nothing, and a
    variable node for the name yields the global as a slot of that type,
    as it does after a declaration of the let; with an initializer that is
    an explicit cast it is a fatal error in every state, since a cast is
    no constant value. *)
Theorem global_let_binds_its_global :
  forall (id : string) (type type' from to : Typ) (init : ExprAST)
         (c : compiler),
    (exists c',
       gen_toplevel id type None c = OK (tt, c') /\
       gen_declare id type c = OK (GlobalVar id (List.length (globals c)), c') /\
       globals c' = (globals c ++ [(id, llvm_type type, None)])%list /\
       blocks c' = blocks c /\
       gen_value (VariableExprAST id type') c' =
       OK (BasicLoadValue type (GlobalVar id (List.length (globals c))), c')) /\
    is_ok (gen_toplevel id type (Some (CastExprAST init from to)) c) = false.
Proof.
  intros id type type' from to init c. split.
  - eexists. split; [reflexivity|]. split; [reflexivity|].
    split; [reflexivity|]. split; [reflexivity|].
    cbn. rewrite String.eqb_refl. reflexivity.
  - unfold gen_toplevel. unfold bind at 1.
    cbn [LLVMAddGlobal]. unfold LLVMAddGlobal. unfold bind at 1. cbn [get].
    unfold bind at 1. cbn [put ret].
    apply is_ok_bind_fail. cbn [gen_value].
    unfold bind at 1. unfold bind at 1.
    destruct (gen_value init _) as [[v c1]|msg]; reflexivity.
Qed.

End GlobalLet.
